(** * VM_Web_Shells: session lifecycle of the web terminal server (main.go)

    A shallow embedding of the Go program [main.go]: the session registry,
    the network provisioner built on the [ip] tool, the machine supervisor
    that launches QEMU on a pseudoterminal, the inbound half of the
    WebSocket bridge and the idle reaper.

    The operating system is a parameter.  Every external call of the program
    (running a command, starting a process on a pty, reading the clock,
    reading random bytes, killing a process, writing to a pty, the order in
    which Go ranges over a map) is answered by an oracle of type [OS] that
    sees the chronological trace of all earlier external calls, and the call
    is appended to that trace together with its answer.  A theorem that
    quantifies over [OS] therefore holds for every behaviour of the
    environment. *)

From Stdlib Require Import ZArith Strings.Byte Ascii.
From stdpp Require Import gmap strings list fin_maps.

(** ** Pieces of the Go standard library used by main.go *)

(** [strings.Contains(s, substr)] *)
Fixpoint strings_Contains (s substr : string) : bool :=
  String.prefix substr s ||
  match s with
  | EmptyString => false
  | String _ s' => strings_Contains s' substr
  end.

(** [strings.Join(elems, sep)] *)
Fixpoint strings_Join (elems : list string) (sep : string) : string :=
  match elems with
  | [] => ""
  | [e] => e
  | e :: rest => e +:+ sep +:+ strings_Join rest sep
  end.

(** [len(s)] of a Go string, as an [int]. *)
Definition len (s : string) : Z := Z.of_nat (String.length s).

(** The digit table of [encoding/hex] (and of [fmt]'s [%x]). *)
Definition hextable : string := "0123456789abcdef".

Definition hexdigit (n : N) : ascii :=
  match String.get (N.to_nat n) hextable with
  | Some c => c
  | None => "0"%char
  end.

(** The two digits [hextable[v>>4]], [hextable[v&0x0f]] of one byte. *)
Definition hex_of_byte (v : N) : string :=
  String (hexdigit (N.shiftr v 4)) (String (hexdigit (N.land v 15)) "").

(** [hex.EncodeToString(src)] *)
Fixpoint hex_EncodeToString (src : list byte) : string :=
  match src with
  | [] => ""
  | b :: rest => hex_of_byte (Byte.to_N b) +:+ hex_EncodeToString rest
  end.

(** A lowercase hexadecimal character. *)
Definition is_lower_hex (c : ascii) : bool :=
  let n := N_of_ascii c in
  ((48 <=? n) && (n <=? 57) || (97 <=? n) && (n <=? 102))%N.

Fixpoint string_forall (p : ascii -> bool) (s : string) : bool :=
  match s with
  | EmptyString => true
  | String c s' => p c && string_forall p s'
  end.

(** [time.Duration] is an [int64] count of nanoseconds; [Time.Sub]
    saturates at the ends of that range. *)
Definition minDuration : Z := - 2 ^ 63.
Definition maxDuration : Z := 2 ^ 63 - 1.

Definition time_Sub (t u : Z) : Z :=
  let d := (t - u)%Z in
  if (d <? minDuration)%Z then minDuration
  else if (maxDuration <? d)%Z then maxDuration
  else d.

Definition Minute : Z := 60 * 1000 * 1000 * 1000.

(** Go's [for ... range m] visits every entry of a map once, in an order
    that is not specified.  [shuffle seed l] rearranges [l] following the
    digits of [seed] in the factorial number system. *)
Fixpoint insert_at {A} (i : nat) (x : A) (l : list A) : list A :=
  match i, l with
  | O, _ => x :: l
  | S i', y :: l' => y :: insert_at i' x l'
  | S _, [] => [x]
  end.

Fixpoint shuffle {A} (seed : nat) (l : list A) : list A :=
  match l with
  | [] => []
  | x :: l' =>
      insert_at (seed mod S (length l')) x (shuffle (seed / S (length l')) l')
  end.

(** ** Data model *)

(** Operating-system handles: an open file ([*os.File]) and a process
    ([*os.Process]). *)
Abbreviation handle := nat.

(** A pointer to a [Session] in the heap. *)
Abbreviation loc := nat.

(** [*exec.Cmd]: the argument vector and the process, [nil] until started. *)
Record Cmd := mkCmd {
  Args : list string;
  Process : option handle
}.

(** [type Session struct].  The values of [ptyFiles] and [cmds] are Go
    pointers, [None] standing for [nil]; [lastActive] is the monotonic
    clock reading of a [time.Time], in nanoseconds. *)
Record Session := mkSession {
  hash : string;
  bridgeName : string;
  tapNames : gmap string string;
  ptyFiles : gmap string (option handle);
  cmds : gmap string (option Cmd);
  lastActive : Z
}.

Definition set_lastActive (t : Z) (s : Session) : Session :=
  mkSession (hash s) (bridgeName s) (tapNames s) (ptyFiles s) (cmds s) t.

(** ** The environment *)

(** [cmd.CombinedOutput()]: the captured output and the error, [None] for
    [nil]. *)
Record CmdResult := mkCmdResult {
  output : string;
  err : option string
}.

(** [pty.Start(cmd)] *)
Inductive StartResult :=
| StartErr (msg : string)
| Started (ptmx : handle) (pid : handle).

(** Go's [(T, error)] results. *)
Inductive Result (A : Type) :=
| Ok (a : A)
| Err (e : string).
Arguments Ok {A} a.
Arguments Err {A} e.

(** External calls, each with the answer it got. *)
Inductive Event :=
| ERun (args : list string) (r : CmdResult)
| EStart (args : list string) (r : StartResult)
| EKill (pid : handle) (r : option string)
| EClose (f : handle)
| EWrite (f : handle) (data : list byte) (r : option string)
| ERand (n : nat) (r : Result (list byte))
| ENow (t : Z)
| ERange (seed : nat).

Record OS := mkOS {
  os_exec : list Event -> list string -> CmdResult;
  os_pty_start : list Event -> list string -> StartResult;
  os_kill : list Event -> handle -> option string;
  os_write : list Event -> handle -> list byte -> option string;
  os_rand_err : list Event -> option string;
  os_rand_byte : list Event -> nat -> byte;
  os_now : list Event -> Z;
  os_order : list Event -> nat
}.

(** ** Program state and the monad of the embedding *)

(** [trace]: the external calls so far, oldest first.  [logs]: the lines
    written with package [log].  [heap]: the allocated [Session] objects.
    [sessions]: the global registry [sessions], guarded by [sessionsMu].
    [spawned]: the sessions handed to a [go cleanupSession(session)]
    goroutine that has not run yet. *)
Record State := mkState {
  trace : list Event;
  logs : list string;
  heap : list Session;
  sessions : gmap string loc;
  spawned : list loc
}.

Definition init : State := mkState [] [] [] ∅ [].

Definition set_trace (f : list Event -> list Event) (st : State) : State :=
  mkState (f (trace st)) (logs st) (heap st) (sessions st) (spawned st).
Definition set_logs (f : list string -> list string) (st : State) : State :=
  mkState (trace st) (f (logs st)) (heap st) (sessions st) (spawned st).
Definition set_heap (f : list Session -> list Session) (st : State) : State :=
  mkState (trace st) (logs st) (f (heap st)) (sessions st) (spawned st).
Definition set_sessions (f : gmap string loc -> gmap string loc) (st : State) : State :=
  mkState (trace st) (logs st) (heap st) (f (sessions st)) (spawned st).
Definition set_spawned (f : list loc -> list loc) (st : State) : State :=
  mkState (trace st) (logs st) (heap st) (sessions st) (f (spawned st)).

(** A computation returns a value or panics. *)
Inductive Res (A : Type) :=
| Val (a : A)
| Panic (msg : string).
Arguments Val {A} a.
Arguments Panic {A} msg.

Definition M (A : Type) : Type := State -> Res A * State.

Definition ret {A} (a : A) : M A := fun st => (Val a, st).

Definition bind {A B} (m : M A) (k : A -> M B) : M B :=
  fun st =>
    match m st with
    | (Val a, st') => k a st'
    | (Panic msg, st') => (Panic msg, st')
    end.

Definition panic {A} (msg : string) : M A := fun st => (Panic msg, st).

Notation "x <- m ;; k" := (bind m (fun x => k))
  (at level 100, m at next level, right associativity).
Notation "m ;;; k" := (bind m (fun _ => k))
  (at level 100, right associativity).

Section Program.

Variable os : OS.

Definition emit (e : Event) : M unit :=
  fun st => (Val tt, set_trace (fun tr => tr ++ [e]) st).

(** [log.Printf] and [log.Println] *)
Definition log_Print (line : string) : M unit :=
  fun st => (Val tt, set_logs (fun ls => ls ++ [line]) st).

(** [exec.Command(args[0], args[1:]...).CombinedOutput()] *)
Definition exec_CombinedOutput (args : list string) : M CmdResult :=
  fun st =>
    let r := os_exec os (trace st) args in
    (Val r, set_trace (fun tr => tr ++ [ERun args r]) st).

(** [pty.Start(cmd)] *)
Definition pty_Start (args : list string) : M StartResult :=
  fun st =>
    let r := os_pty_start os (trace st) args in
    (Val r, set_trace (fun tr => tr ++ [EStart args r]) st).

(** [cmd.Process.Kill()] *)
Definition Process_Kill (pid : handle) : M (option string) :=
  fun st =>
    let r := os_kill os (trace st) pid in
    (Val r, set_trace (fun tr => tr ++ [EKill pid r]) st).

(** [pt.Close()], its error ignored by the program *)
Definition File_Close (f : handle) : M unit := emit (EClose f).

(** [ptmx.Write(msg)] *)
Definition File_Write (f : handle) (data : list byte) : M (option string) :=
  fun st =>
    let r := os_write os (trace st) f data in
    (Val r, set_trace (fun tr => tr ++ [EWrite f data r]) st).

(** [rand.Read(bytes)] on a buffer of [n] bytes *)
Definition rand_Read (n : nat) : M (Result (list byte)) :=
  fun st =>
    let r := match os_rand_err os (trace st) with
             | Some e => Err e
             | None => Ok (map (os_rand_byte os (trace st)) (seq 0 n))
             end in
    (Val r, set_trace (fun tr => tr ++ [ERand n r]) st).

(** [time.Now()] *)
Definition time_Now : M Z :=
  fun st =>
    let t := os_now os (trace st) in
    (Val t, set_trace (fun tr => tr ++ [ENow t]) st).

(** [time.Since(t)] is [time.Now().Sub(t)]. *)
Definition time_Since (t : Z) : M Z :=
  now <- time_Now ;; ret (time_Sub now t).

(** The entries of a map in the order of one [range] loop. *)
Definition range_map {V} (m : gmap string V) : M (list (string * V)) :=
  fun st =>
    let seed := os_order os (trace st) in
    (Val (shuffle seed (map_to_list m)),
     set_trace (fun tr => tr ++ [ERange seed]) st).

(** ** main.go *)

(** [sessionTimeout = 10 * time.Minute] *)
Definition sessionTimeout : Z := 10 * Minute.

(** [generateShortHash(length int) (string, error)].  [length/2] truncates
    towards zero and [make([]byte, n)] panics on a negative [n]. *)
Definition generateShortHash (length : Z) : M (Result string) :=
  let length := if (length >? 12)%Z then 12%Z else length in
  let n := (length ÷ 2)%Z in
  if (n <? 0)%Z then panic "makeslice: len out of range"
  else
    r <- rand_Read (Z.to_nat n) ;;
    match r with
    | Err e => ret (Err e)
    | Ok bytes => ret (Ok (hex_EncodeToString bytes))
    end.

(** [runCommand(args ...string) error]; [args[0]] panics on an empty
    argument list. *)
Definition runCommand (args : list string) : M (option string) :=
  match args with
  | [] => panic "index out of range [0] with length 0"
  | _ =>
      r <- exec_CombinedOutput args ;;
      match err r with
      | Some e =>
          ret (Some ("command '" +:+ strings_Join args " " +:+ "' failed: "
                       +:+ e +:+ ", output: " +:+ output r))
      | None => ret None
      end
  end.

(** [interfaceExists(name string) (bool, error)] *)
Definition interfaceExists (name : string) : M (bool * option string) :=
  r <- exec_CombinedOutput ["ip"; "link"; "show"; name] ;;
  match err r with
  | Some e =>
      if strings_Contains (output r) "does not exist"
         || strings_Contains (output r) "Cannot find device"
         || strings_Contains (output r) "No such device"
      then ret (false, None)
      else ret (false, Some ("error executing 'ip link show " +:+ name +:+ "': "
                               +:+ e +:+ ", output: " +:+ output r))
  | None => ret (true, None)
  end.

(** The Go idiom [if err := m; err != nil { return fmt.Errorf(wrap, err) }]
    followed by the rest [k] of the function. *)
Definition check (m : M (option string)) (wrap : string -> string)
    (k : M (option string)) : M (option string) :=
  e <- m ;;
  match e with
  | Some err => ret (Some (wrap err))
  | None => k
  end.

(** The body of [for _, tap := range session.tapNames] in [setupNetwork]. *)
Fixpoint setupTaps (bridge : string) (taps : list (string * string))
    : M (option string) :=
  match taps with
  | [] => ret None
  | (_, tap) :: rest =>
      log_Print ("Creating TAP device " +:+ tap +:+ "...") ;;;
      check (runCommand ["ip"; "tuntap"; "add"; "mode"; "tap"; tap])
        (fun e => "failed to create TAP device " +:+ tap +:+ ": " +:+ e) (
      log_Print ("Attaching TAP device " +:+ tap +:+ " to bridge "
                   +:+ bridge +:+ "...") ;;;
      check (runCommand ["ip"; "link"; "set"; tap; "master"; bridge])
        (fun e => "failed to attach TAP device " +:+ tap +:+ " to bridge "
                    +:+ bridge +:+ ": " +:+ e) (
      log_Print ("Bringing up TAP device " +:+ tap +:+ "...") ;;;
      check (runCommand ["ip"; "link"; "set"; tap; "up"])
        (fun e => "failed to bring up TAP device " +:+ tap +:+ ": " +:+ e) (
      setupTaps bridge rest)))
  end.

(** [setupNetwork(session *Session) error] *)
Definition setupNetwork (session : Session) : M (option string) :=
  let br := bridgeName session in
  r <- interfaceExists br ;;
  match snd r with
  | Some e =>
      ret (Some ("error checking existence of bridge " +:+ br +:+ ": " +:+ e))
  | None =>
      check (if fst r
             then log_Print ("Bridge " +:+ br +:+ " already exists. Deleting...") ;;;
                  runCommand ["ip"; "link"; "delete"; br; "type"; "bridge"]
             else ret None)
        (fun e => "failed to delete bridge " +:+ br +:+ ": " +:+ e) (
      log_Print ("Creating bridge " +:+ br +:+ "...") ;;;
      check (runCommand ["ip"; "link"; "add"; br; "type"; "bridge"])
        (fun e => "failed to create bridge " +:+ br +:+ ": " +:+ e) (
      log_Print ("Bringing up bridge " +:+ br +:+ "...") ;;;
      check (runCommand ["ip"; "link"; "set"; br; "up"])
        (fun e => "failed to bring up bridge " +:+ br +:+ ": " +:+ e) (
      taps <- range_map (tapNames session) ;;
      check (setupTaps br taps) (fun e => e) (
      log_Print ("Network setup for session " +:+ hash session
                   +:+ " completed successfully.") ;;;
      ret None))))
  end.

(** The test of [cleanupNetwork] on [err.Error()]. *)
Definition deviceGone (msg : string) : bool :=
  strings_Contains msg "Cannot find device"
  || strings_Contains msg "No such device".

(** [fmt]'s [%v] of a [[]string]. *)
Definition fmt_slice (l : list string) : string :=
  "[" +:+ strings_Join l " " +:+ "]".

(** The loop [for _, cmdArgs := range commands] of [cleanupNetwork]. *)
Fixpoint runCleanup (commands : list (list string)) : M unit :=
  match commands with
  | [] => ret tt
  | cmdArgs :: rest =>
      e <- runCommand cmdArgs ;;
      match e with
      | Some msg =>
          if deviceGone msg then ret tt
          else log_Print ("Error executing cleanup command " +:+ fmt_slice cmdArgs
                            +:+ ": " +:+ msg)
      | None =>
          log_Print ("Successfully executed cleanup command: " +:+ fmt_slice cmdArgs)
      end ;;;
      runCleanup rest
  end.

(** The two commands appended for each tap. *)
Definition tapCleanup (tap : string) : list (list string) :=
  [ ["ip"; "link"; "set"; tap; "down"]; ["ip"; "link"; "delete"; tap] ].

(** [cleanupNetwork(session *Session) error] *)
Definition cleanupNetwork (session : Session) : M (option string) :=
  let commands :=
    [ ["ip"; "link"; "set"; bridgeName session; "down"];
      ["ip"; "link"; "delete"; bridgeName session; "type"; "bridge"] ] in
  taps <- range_map (tapNames session) ;;
  let commands := commands ++ flat_map (fun kv => tapCleanup (snd kv)) taps in
  runCleanup commands ;;;
  ret None.

(** [100+machineID[0]], a [byte]: the sum wraps around at 256, and the
    index panics on the empty string. *)
Definition macSuffix (machineID : string) : option N :=
  match machineID with
  | EmptyString => None
  | String c _ => Some ((100 + N_of_ascii c) mod 256)%N
  end.

(** The argument vector built by [startMachine]. *)
Definition qemuArgs (machineID tapDevice : string) (mac : N) : list string :=
  let netDevID := "net" +:+ machineID in
  [ "qemu-system-x86_64";
    "-accel"; "kvm";
    "-drive"; "file=debian-12-nocloud-amd64.qcow2,format=qcow2,if=virtio";
    "-display"; "none";
    "-netdev"; "tap,ifname=" +:+ tapDevice +:+ ",id=" +:+ netDevID
                 +:+ ",script=no,downscript=no";
    "-device"; "virtio-net-pci,netdev=" +:+ netDevID +:+ ",mac=e6:c8:ff:09:76:"
                 +:+ hex_of_byte mac;
    "-chardev"; "stdio,id=char0,signal=off";
    "-serial"; "chardev:char0";
    "-m"; "256";
    "-snapshot";
    "-sandbox"; "on" ].

(** [startMachine(session *Session, machineID string, tapDevice string) error].
    The session object is private to [createSession] while it is being
    built, so the two map updates are returned as a new [Session] value. *)
Definition startMachine (session : Session) (machineID tapDevice : string)
    : M (option string * Session) :=
  match macSuffix machineID with
  | None => panic "index out of range [0] with length 0"
  | Some mac =>
      let args := qemuArgs machineID tapDevice mac in
      r <- pty_Start args ;;
      match r with
      | StartErr e =>
          ret (Some ("error starting QEMU machine " +:+ machineID +:+ ": " +:+ e),
               session)
      | Started ptmx pid =>
          let session' :=
            mkSession (hash session) (bridgeName session) (tapNames session)
              (<[machineID := Some ptmx]> (ptyFiles session))
              (<[machineID := Some (mkCmd args (Some pid))]> (cmds session))
              (lastActive session) in
          log_Print ("Virtual machine " +:+ machineID +:+ " in session "
                       +:+ hash session +:+ " started") ;;;
          ret (None, session')
      end
  end.

(** The loop [for id, cmd := range session.cmds] of [cleanupSession]. *)
Fixpoint killMachines (h : string) (l : list (string * option Cmd)) : M unit :=
  match l with
  | [] => ret tt
  | (id, cmd) :: rest =>
      match cmd with
      | Some (mkCmd _ (Some pid)) =>
          e <- Process_Kill pid ;;
          match e with
          | Some msg =>
              log_Print ("Error terminating machine " +:+ id +:+ ": " +:+ msg)
          | None =>
              log_Print ("Machine " +:+ id +:+ " in session " +:+ h +:+ " terminated")
          end
      | _ => ret tt
      end ;;;
      killMachines h rest
  end.

(** The loop [for _, pt := range session.ptyFiles] of [cleanupSession]. *)
Fixpoint closePtys (l : list (string * option handle)) : M unit :=
  match l with
  | [] => ret tt
  | (_, pt) :: rest =>
      match pt with
      | Some f => File_Close f
      | None => ret tt
      end ;;;
      closePtys rest
  end.

(** [cleanupSession(session *Session)] *)
Definition cleanupSession (session : Session) : M unit :=
  machines <- range_map (cmds session) ;;
  killMachines (hash session) machines ;;;
  ptys <- range_map (ptyFiles session) ;;
  closePtys ptys ;;;
  e <- cleanupNetwork session ;;
  match e with
  | Some msg =>
      log_Print ("Error cleaning up network for session " +:+ hash session
                   +:+ ": " +:+ msg)
  | None =>
      log_Print ("Network for session " +:+ hash session +:+ " cleaned up")
  end ;;;
  log_Print ("Session " +:+ hash session +:+ " removed").

(** [&Session{...}]: a new object at the end of the heap. *)
Definition alloc (s : Session) : M loc :=
  fun st => (Val (length (heap st)), set_heap (fun h => h ++ [s]) st).

(** [*session]: a Go pointer always points to a live object. *)
Definition deref (l : loc) : M Session :=
  fun st =>
    match heap st !! l with
    | Some s => (Val s, st)
    | None => (Panic "invalid memory address or nil pointer dereference", st)
    end.

(** [session.lastActive = t] *)
Definition store_lastActive (l : loc) (t : Z) : M unit :=
  s <- deref l ;;
  fun st => (Val tt, set_heap (fun h => <[l := set_lastActive t s]> h) st).

(** [sessions[id]] *)
Definition sessions_lookup (id : string) : M (option loc) :=
  fun st => (Val (sessions st !! id), st).

(** [sessions[id] = session] *)
Definition sessions_store (id : string) (l : loc) : M unit :=
  fun st => (Val tt, set_sessions (fun m => <[id := l]> m) st).

(** [delete(sessions, id)] *)
Definition sessions_delete (id : string) : M unit :=
  fun st => (Val tt, set_sessions (fun m => delete id m) st).

(** [go cleanupSession(session)] *)
Definition go_cleanupSession (session : loc) : M unit :=
  fun st => (Val tt, set_spawned (fun g => g ++ [session]) st).

(** [createSession], returning a session pointer and an error.  The object built at line 192 is
    reachable only from this call until it is stored in [sessions], so it
    is threaded as a value and placed in the heap when it is published. *)
Definition createSession : M (Result loc) :=
  r <- generateShortHash 6 ;;
  match r with
  | Err e => ret (Err ("failed to generate hash: " +:+ e))
  | Ok hash =>
      let bridgeName := "br-" +:+ hash in
      let tap1Name := "tap1-" +:+ hash in
      let tap2Name := "tap2-" +:+ hash in
      if (len bridgeName >? 15)%Z || (len tap1Name >? 15)%Z
         || (len tap2Name >? 15)%Z
      then ret (Err ("interface name too long: " +:+ bridgeName +:+ ", "
                       +:+ tap1Name +:+ ", " +:+ tap2Name))
      else
        now <- time_Now ;;
        let session :=
          mkSession hash bridgeName
            (<["1" := tap1Name]> (<["2" := tap2Name]> ∅)) ∅ ∅ now in
        e <- setupNetwork session ;;
        match e with
        | Some msg => ret (Err ("failed to set up network: " +:+ msg))
        | None =>
            r1 <- startMachine session "1" tap1Name ;;
            match r1 with
            | (Some msg, session) =>
                cleanupNetwork session ;;;
                ret (Err ("failed to start machine 1: " +:+ msg))
            | (None, session) =>
                r2 <- startMachine session "2" tap2Name ;;
                match r2 with
                | (Some msg, session) =>
                    cleanupNetwork session ;;;
                    ret (Err ("failed to start machine 2: " +:+ msg))
                | (None, session) =>
                    l <- alloc session ;;
                    sessions_store hash l ;;;
                    log_Print ("Session " +:+ hash +:+ " created") ;;;
                    ret (Ok l)
                end
            end
        end
  end.

(** *** HTTP handlers *)

(** What a handler wrote to its [http.ResponseWriter]: the status code and
    the body. *)
Inductive Response :=
| Resp (status : nat) (body : string).

Definition StatusOK : nat := 200.
Definition StatusBadRequest : nat := 400.
Definition StatusNotFound : nat := 404.
Definition StatusInternalServerError : nat := 500.

Definition newline : string := String (ascii_of_nat 10) "".

(** [http.Error(w, msg, code)]: the message is written with [Fprintln],
    so the body is the message followed by a newline. *)
Definition http_Error (msg : string) (code : nat) : Response :=
  Resp code (msg +:+ newline).

Definition dquote : string := String (ascii_of_nat 34) "".

(** [createSessionHandler]: the body is what [json.Encoder.Encode] writes
    for the map with the single key [sessionID]: the JSON object followed
    by a newline.  The identifier has hexadecimal digits only, so nothing
    in it is escaped. *)
Definition createSessionHandler : M Response :=
  r <- createSession ;;
  match r with
  | Err e =>
      log_Print ("Error creating session: " +:+ e) ;;;
      ret (http_Error "Error creating session" StatusInternalServerError)
  | Ok l =>
      session <- deref l ;;
      ret (Resp StatusOK ("{" +:+ dquote +:+ "sessionID" +:+ dquote +:+ ":"
                            +:+ dquote +:+ hash session +:+ dquote +:+ "}"
                            +:+ newline))
  end.

(** [closeSessionHandler]; [sessionID] is the query parameter, empty when
    it is missing. *)
Definition closeSessionHandler (sessionID : string) : M Response :=
  if decide (sessionID = "") then
    ret (http_Error "Missing sessionID" StatusBadRequest)
  else
    found <- sessions_lookup sessionID ;;
    match found with
    | None => ret (http_Error "Session not found" StatusNotFound)
    | Some l =>
        sessions_delete sessionID ;;;
        session <- deref l ;;
        cleanupSession session ;;;
        log_Print ("Session " +:+ sessionID +:+ " terminated by client request") ;;;
        ret (Resp StatusOK "")
    end.

(** *** The WebSocket bridge, inbound direction *)

Definition TextMessage : Z := 1.
Definition BinaryMessage : Z := 2.

(** The way [wsHandler] leaves its first part, before the two pumps. *)
Inductive Attach :=
| Rejected (r : Response)
| UpgradeFailed
| NoSuchMachine
| Bridging (session : loc) (ptmx : option handle).

(** [wsHandler] up to the start of the pumps.  [upgrade] is the error of
    [upgrader.Upgrade], [None] for [nil].  What the handler writes to the
    connection is left out; the pump from the pty to the connection touches
    neither the registry nor [lastActive] and is left out as well. *)
Definition wsHandler (sessionID machineID : string) (upgrade : option string)
    : M Attach :=
  if decide (sessionID = "") then
    ret (Rejected (http_Error "Missing sessionID" StatusBadRequest))
  else if decide (machineID ≠ "1" ∧ machineID ≠ "2") then
    ret (Rejected (http_Error "Invalid machine ID" StatusBadRequest))
  else
    found <- sessions_lookup sessionID ;;
    match found with
    | None => ret (Rejected (http_Error "Session not found" StatusNotFound))
    | Some l =>
        now <- time_Now ;;
        store_lastActive l now ;;;
        match upgrade with
        | Some e =>
            log_Print ("Error upgrading to WebSocket: " +:+ e) ;;;
            ret UpgradeFailed
        | None =>
            session <- deref l ;;
            match ptyFiles session !! machineID with
            | None =>
                log_Print ("Invalid machine ID: " +:+ machineID) ;;;
                ret NoSuchMachine
            | Some ptmx => ret (Bridging l ptmx)
            end
        end
    end.

(** The result of one [wsConn.ReadMessage()]. *)
Inductive ReadResult :=
| ReadErr (e : string)
| ReadMsg (messageType : Z) (msg : list byte).

(** [ptmx.Write(msg)]; a method of a [nil] file returns [os.ErrInvalid]. *)
Definition ptmx_Write (ptmx : option handle) (msg : list byte) : M (option string) :=
  match ptmx with
  | None => ret (Some "invalid argument")
  | Some f => File_Write f msg
  end.

(** One iteration of the loop "Read from WebSocket and write to PTY";
    [true] when the loop goes on, [false] on [break]. *)
Definition wsReadStep (session : loc) (ptmx : option handle) (rd : ReadResult)
    : M bool :=
  match rd with
  | ReadErr e =>
      log_Print ("Error reading from WebSocket: " +:+ e) ;;;
      ret false
  | ReadMsg messageType msg =>
      w <- (if decide (messageType = BinaryMessage ∨ messageType = TextMessage)
            then ptmx_Write ptmx msg
            else ret None) ;;
      match w with
      | Some e =>
          log_Print ("Error writing to machine PTY: " +:+ e) ;;;
          ret false
      | None =>
          now <- time_Now ;;
          store_lastActive session now ;;;
          ret true
      end
  end.

(** The whole loop over the successive results of [ReadMessage]. *)
Fixpoint wsReadLoop (session : loc) (ptmx : option handle)
    (inbound : list ReadResult) : M unit :=
  match inbound with
  | [] => ret tt
  | rd :: rest =>
      continue <- wsReadStep session ptmx rd ;;
      if continue : bool then wsReadLoop session ptmx rest else ret tt
  end.

(** *** The idle reaper *)

(** The loop [for id, session := range sessions] of [sessionCleaner]. *)
Fixpoint reap (entries : list (string * loc)) : M unit :=
  match entries with
  | [] => ret tt
  | (id, l) :: rest =>
      session <- deref l ;;
      idle <- time_Since (lastActive session) ;;
      (if (idle >? sessionTimeout)%Z then
         log_Print ("Session " +:+ id
                      +:+ " inactive for more than 10m0s and will be removed") ;;;
         sessions_delete id ;;;
         go_cleanupSession l
       else ret tt) ;;;
      reap rest
  end.

(** The body of [for range ticker.C] in [sessionCleaner], run with
    [sessionsMu] held. *)
Definition sessionCleaner : M unit :=
  entries <- (fun st => range_map (sessions st) st) ;;
  reap entries.

(** One goroutine started by the reaper gets to run: the [i]-th pending
    [cleanupSession]. *)
Definition run_goroutine (i : nat) : M unit :=
  fun st =>
    match spawned st !! i with
    | None => (Val tt, st)
    | Some l => (session <- deref l ;; cleanupSession session)
                  (set_spawned (fun g => delete i g) st)
    end.

(** *** The server as a transition system *)

(** The entry points of the program: the three handlers, one iteration of a
    read loop, a reaper tick, a reaper goroutine.  Handlers hold
    [sessionsMu] around every access to [sessions] and [lastActive], so
    they are interleaved at this grain. *)
Inductive Action :=
| ACreate
| AClose (sessionID : string)
| AAttach (sessionID machineID : string) (upgrade : option string)
| ARead (session : loc) (ptmx : option handle) (rd : ReadResult)
| ATick
| AGo (i : nat).

Definition run (a : Action) (st : State) : State :=
  match a with
  | ACreate => snd (createSessionHandler st)
  | AClose id => snd (closeSessionHandler id st)
  | AAttach id m up => snd (wsHandler id m up st)
  | ARead l ptmx rd => snd (wsReadStep l ptmx rd st)
  | ATick => snd (sessionCleaner st)
  | AGo i => snd (run_goroutine i st)
  end.

Inductive reachable : State -> Prop :=
| reachable_init : reachable init
| reachable_run a st : reachable st -> reachable (run a st).

(** *** [createSession] call by call *)

(** [createSession] takes [sessionsMu] only to store the session (lines
    215 to 217): while it sets up the network and launches the machines,
    the other goroutines run.  A [Creating] is a call of
    [createSessionHandler] that stands before one of these calls, with the
    session object it holds, which no other goroutine can reach yet. *)
Inductive Creating :=
| BeforeSetup (session : Session)
| BeforeMachine1 (session : Session)
| BeforeMachine2 (session : Session)
| BeforeStore (session : Session).

(** The way out of [createSessionHandler] when [createSession] returns the
    error [e] (lines 66 to 70); the answer is left out. *)
Definition create_failed (e : string) : M (option Creating) :=
  log_Print ("Error creating session: " +:+ e) ;;;
  ret None.

(** Lines 179 to 199 of [createSession]: the identifier, the interface
    names, the session object. *)
Definition create_begin : M (option Creating) :=
  r <- generateShortHash 6 ;;
  match r with
  | Err e => create_failed ("failed to generate hash: " +:+ e)
  | Ok hash =>
      let bridgeName := "br-" +:+ hash in
      let tap1Name := "tap1-" +:+ hash in
      let tap2Name := "tap2-" +:+ hash in
      if (len bridgeName >? 15)%Z || (len tap1Name >? 15)%Z
         || (len tap2Name >? 15)%Z
      then create_failed ("interface name too long: " +:+ bridgeName +:+ ", "
                            +:+ tap1Name +:+ ", " +:+ tap2Name)
      else
        now <- time_Now ;;
        ret (Some (BeforeSetup
                     (mkSession hash bridgeName
                        (<["1" := tap1Name]> (<["2" := tap2Name]> ∅)) ∅ ∅ now)))
  end.

(** The next call of a [createSession] under way: [setupNetwork] (line
    201), [startMachine] for machine 1 (line 205) and for machine 2 (line
    209), the store into [sessions] (lines 215 to 219).  The tap names
    are the ones computed from the identifier at lines 185 and 186. *)
Definition create_step (c : Creating) : M (option Creating) :=
  match c with
  | BeforeSetup session =>
      e <- setupNetwork session ;;
      match e with
      | Some msg => create_failed ("failed to set up network: " +:+ msg)
      | None => ret (Some (BeforeMachine1 session))
      end
  | BeforeMachine1 session =>
      r1 <- startMachine session "1" ("tap1-" +:+ hash session) ;;
      match r1 with
      | (Some msg, session) =>
          cleanupNetwork session ;;;
          create_failed ("failed to start machine 1: " +:+ msg)
      | (None, session) => ret (Some (BeforeMachine2 session))
      end
  | BeforeMachine2 session =>
      r2 <- startMachine session "2" ("tap2-" +:+ hash session) ;;
      match r2 with
      | (Some msg, session) =>
          cleanupNetwork session ;;;
          create_failed ("failed to start machine 2: " +:+ msg)
      | (None, session) => ret (Some (BeforeStore session))
      end
  | BeforeStore session =>
      l <- alloc session ;;
      sessions_store (hash session) l ;;;
      log_Print ("Session " +:+ hash session +:+ " created") ;;;
      ret None
  end.

(** The calls of one [createSessionHandler] one after the other, without
    any other goroutine in between. *)
Fixpoint create_rest (n : nat) (c : option Creating) : M unit :=
  match c, n with
  | Some c, S n => c' <- create_step c ;; create_rest n c'
  | _, _ => ret tt
  end.

Definition create_calls : M unit :=
  c <- create_begin ;; create_rest 4 c.

(** The moves of the server at this grain: an entry point of [Action], the
    beginning of a [createSessionHandler], the next call of the [i]-th
    creation under way. *)
Inductive Move :=
| MRun (a : Action)
| MBegin
| MNext (i : nat).

Definition move (m : Move) (st : State) (cs : list Creating)
    : State * list Creating :=
  match m with
  | MRun a => (run a st, cs)
  | MBegin =>
      match create_begin st with
      | (Val (Some c), st') => (st', cs ++ [c])
      | (_, st') => (st', cs)
      end
  | MNext i =>
      match cs !! i with
      | None => (st, cs)
      | Some c =>
          match create_step c st with
          | (Val (Some c'), st') => (st', <[i := c']> cs)
          | (_, st') => (st', delete i cs)
          end
      end
  end.

(** The states of the server with the creations under way. *)
Inductive interleaved : State -> list Creating -> Prop :=
| interleaved_init : interleaved init []
| interleaved_move m st cs :
    interleaved st cs -> interleaved (move m st cs).1 (move m st cs).2.

End Program.

(** * Specification-side definitions *)

(** [extend st evs lg]: the state [st] after the external calls [evs] and
    the log lines [lg]. *)
Definition extend (st : State) (evs : list Event) (lg : list string) : State :=
  mkState (trace st ++ evs) (logs st ++ lg) (heap st) (sessions st) (spawned st).

(** [io m st Q]: run from [st], the computation [m] returns a value, does
    nothing but call out and log, and its value, events and log lines
    satisfy [Q]. *)
Definition io {A} (m : M A) (st : State)
    (Q : A → list Event → list string → Prop) : Prop :=
  ∃ a evs lg, m st = (Val a, extend st evs lg) ∧ Q a evs lg.

(** ** The steps of [setupNetwork] *)

Inductive Step :=
| CheckBridge (bridge : string)
| DeleteBridge (bridge : string)
| CreateBridge (bridge : string)
| UpBridge (bridge : string)
| CreateTap (tap : string)
| AttachTap (tap bridge : string)
| UpTap (tap : string).

(** The command of a step. *)
Definition step_command (s : Step) : list string :=
  match s with
  | CheckBridge br => ["ip"; "link"; "show"; br]
  | DeleteBridge br => ["ip"; "link"; "delete"; br; "type"; "bridge"]
  | CreateBridge br => ["ip"; "link"; "add"; br; "type"; "bridge"]
  | UpBridge br => ["ip"; "link"; "set"; br; "up"]
  | CreateTap tap => ["ip"; "tuntap"; "add"; "mode"; "tap"; tap]
  | AttachTap tap br => ["ip"; "link"; "set"; tap; "master"; br]
  | UpTap tap => ["ip"; "link"; "set"; tap; "up"]
  end.

(** The text put in front of the error of a failing step: it names the
    step and the interface. *)
Definition step_label (s : Step) : string :=
  match s with
  | CheckBridge br => "error checking existence of bridge " +:+ br
  | DeleteBridge br => "failed to delete bridge " +:+ br
  | CreateBridge br => "failed to create bridge " +:+ br
  | UpBridge br => "failed to bring up bridge " +:+ br
  | CreateTap tap => "failed to create TAP device " +:+ tap
  | AttachTap tap br => "failed to attach TAP device " +:+ tap +:+ " to bridge " +:+ br
  | UpTap tap => "failed to bring up TAP device " +:+ tap
  end.

(** The error of [runCommand] for a result of the command, [None] for
    [nil]. *)
Definition commandError (args : list string) (r : CmdResult) : option string :=
  match err r with
  | Some e => Some ("command '" +:+ strings_Join args " " +:+ "' failed: "
                      +:+ e +:+ ", output: " +:+ output r)
  | None => None
  end.

(** The three texts by which [interfaceExists] recognises an absent
    interface. *)
Definition notFound (out : string) : bool :=
  strings_Contains out "does not exist"
  || strings_Contains out "Cannot find device"
  || strings_Contains out "No such device".

(** The error of a step for a result of its command.  The check of the
    bridge fails only on an error that is not of the not-found shape. *)
Definition step_error (s : Step) (r : CmdResult) : option string :=
  match s with
  | CheckBridge br =>
      match err r with
      | Some e =>
          if notFound (output r) then None
          else Some ("error executing 'ip link show " +:+ br +:+ "': "
                       +:+ e +:+ ", output: " +:+ output r)
      | None => None
      end
  | _ => commandError (step_command s) r
  end.

(** The steps run one after the other against the environment until one
    fails: the events, and the error of the failing step. *)
Fixpoint run_steps (os : OS) (tr : list Event) (steps : list Step)
    : list Event * option string :=
  match steps with
  | [] => ([], None)
  | s :: rest =>
      let r := os_exec os tr (step_command s) in
      let ev := ERun (step_command s) r in
      match step_error s r with
      | Some msg => ([ev], Some (step_label s +:+ ": " +:+ msg))
      | None =>
          let '(evs, e) := run_steps os (tr ++ [ev]) rest in
          (ev :: evs, e)
      end
  end.

(** [m] performs [steps], stops at the first failure, and goes on as [k]
    when there is none. *)
Definition performs (os : OS) (m : M (option string)) (steps : list Step)
    (k : M (option string)) : Prop :=
  ∀ st, ∃ lg,
    m st = match (run_steps os (trace st) steps).2 with
           | Some msg => (Val (Some msg), extend st (run_steps os (trace st) steps).1 lg)
           | None => k (extend st (run_steps os (trace st) steps).1 lg)
           end.

(** The three steps for one tap. *)
Definition tap_steps (bridge tap : string) : list Step :=
  [CreateTap tap; AttachTap tap bridge; UpTap tap].

(** [setupNetwork] in the words of the specification: check whether the
    bridge name exists and delete the interface when it does, create the
    bridge and bring it up, then create, attach and bring up each tap, and
    abort at the first step that fails.  [found] is the answer of the
    check, and the order of the taps is the one of the [range]. *)
Definition setupNetwork_spec (os : OS) (session : Session) (tr : list Event)
    : list Event * option string :=
  let br := bridgeName session in
  let found := bool_decide (err (os_exec os tr ["ip"; "link"; "show"; br]) = None) in
  match run_steps os tr
          ([CheckBridge br] ++ (if found then [DeleteBridge br] else [])
             ++ [CreateBridge br; UpBridge br]) with
  | (evs, Some e) => (evs, Some e)
  | (evs, None) =>
      let seed := os_order os (tr ++ evs) in
      let taps := (shuffle seed (map_to_list (tapNames session))).*2 in
      let '(evs', e) :=
        run_steps os (tr ++ evs ++ [ERange seed]) (flat_map (tap_steps br) taps) in
      (evs ++ ERange seed :: evs', e)
  end.

(** ** Traces *)

(** The external commands among the events of a trace. *)
Definition commands (evs : list Event) : list (list string) :=
  omap (λ e, match e with ERun args _ => Some args | _ => None end) evs.

(** Running every command of a list, whatever the outcomes. *)
Fixpoint exec_all (os : OS) (tr : list Event) (cmds : list (list string))
    : list Event :=
  match cmds with
  | [] => []
  | c :: rest =>
      let ev := ERun c (os_exec os tr c) in
      ev :: exec_all os (tr ++ [ev]) rest
  end.

(** The line that [cleanupNetwork] logs for one command: nothing when the
    device was already gone. *)
Definition cleanupLog (e : Event) : option string :=
  match e with
  | ERun args r =>
      match commandError args r with
      | Some msg =>
          if deviceGone msg then None
          else Some ("Error executing cleanup command " +:+ fmt_slice args
                       +:+ ": " +:+ msg)
      | None => Some ("Successfully executed cleanup command: " +:+ fmt_slice args)
      end
  | _ => None
  end.

(** The commands of [cleanupNetwork] for a bridge and a list of taps. *)
Definition cleanupCommands (bridge : string) (taps : list string)
    : list (list string) :=
  [ ["ip"; "link"; "set"; bridge; "down"];
    ["ip"; "link"; "delete"; bridge; "type"; "bridge"] ]
  ++ flat_map tapCleanup taps.

(** The session object that [createSession] builds at line 192. *)
Definition newSession (h : string) (now : Z) : Session :=
  mkSession h ("br-" +:+ h)
    (<["1" := "tap1-" +:+ h]> (<["2" := "tap2-" +:+ h]> ∅)) ∅ ∅ now.

(** No process is killed and no file is closed in a list of events. *)
Definition no_teardown (evs : list Event) : Prop :=
  ∀ e, e ∈ evs → match e with EKill _ _ | EClose _ => False | _ => True end.

(** [created os st s st']: a successful [createSession] took the state
    from [st] to [st'] and registered the session [s]: the network setup
    and the two launches returned [nil], in this order, and only then was
    the session stored. *)
Inductive created (os : OS) (st : State) (s : Session) (st' : State) : Prop :=
| created_intro bytes now s1 st2 st3 evs lg p1 q1 p2 q2 a1 a2 :
    length bytes = 3 →
    now = os_now os (trace st ++ [ERand 3 (Ok bytes)]) →
    let h := hex_EncodeToString bytes in
    let st1 := extend st [ERand 3 (Ok bytes); ENow now] [] in
    setupNetwork os (newSession h now) st1 = (Val None, st2) →
    startMachine os (newSession h now) "1" ("tap1-" +:+ h) st2 = (Val (None, s1), st3) →
    startMachine os s1 "2" ("tap2-" +:+ h) st3
      = (Val (None, s), extend st ([ERand 3 (Ok bytes); ENow now] ++ evs) lg) →
    s = mkSession h ("br-" +:+ h)
          (<["1" := "tap1-" +:+ h]> (<["2" := "tap2-" +:+ h]> ∅))
          (<["2" := Some p2]> (<["1" := Some p1]> ∅))
          (<["2" := Some (mkCmd a2 (Some q2))]> (<["1" := Some (mkCmd a1 (Some q1))]> ∅))
          now →
    EStart a1 (Started p1 q1) ∈ evs →
    EStart a2 (Started p2 q2) ∈ evs →
    no_teardown evs →
    st' = mkState (trace st ++ [ERand 3 (Ok bytes); ENow now] ++ evs)
            (logs st ++ lg ++ ["Session " +:+ h +:+ " created"])
            (heap st ++ [s])
            (<[h := length (heap st)]> (sessions st))
            (spawned st) →
    bytes = map (os_rand_byte os (trace st)) (seq 0 3) →
    a1 = qemuArgs "1" ("tap1-" +:+ h) 149 →
    a2 = qemuArgs "2" ("tap2-" +:+ h) 150 →
    created os st s st'.

(** A session as [createSession] registers it: the identifier is the
    encoding of three random bytes, the interface names are derived from
    it, and there is a pty and a started process for the machines "1" and
    "2" and for no other. *)
Definition provisioned (s : Session) : Prop :=
  (∃ bytes, length bytes = 3 ∧ hash s = hex_EncodeToString bytes)
  ∧ bridgeName s = "br-" +:+ hash s
  ∧ tapNames s = <["1" := "tap1-" +:+ hash s]> (<["2" := "tap2-" +:+ hash s]> ∅)
  ∧ (∃ p1 p2, ptyFiles s = <["2" := Some p2]> (<["1" := Some p1]> ∅))
  ∧ (∃ c1 c2 q1 q2,
       cmds s = <["2" := Some c2]> (<["1" := Some c1]> ∅)
       ∧ Process c1 = Some q1 ∧ Process c2 = Some q2).

(** The machines of the session [s] have been started in the trace [tr]:
    for each of the machines "1" and "2", and for no other, the session
    holds the pty and the process that a [pty.Start] of the trace has
    returned for the QEMU command line of this machine on its tap. *)
Definition machines_started (tr : list Event) (s : Session) : Prop :=
  ∃ p1 q1 p2 q2,
    ptyFiles s = <["2" := Some p2]> (<["1" := Some p1]> ∅)
    ∧ cmds s = <["2" := Some (mkCmd (qemuArgs "2" ("tap2-" +:+ hash s) 150) (Some q2))]>
                 (<["1" := Some (mkCmd (qemuArgs "1" ("tap1-" +:+ hash s) 149)
                                   (Some q1))]> ∅)
    ∧ EStart (qemuArgs "1" ("tap1-" +:+ hash s) 149) (Started p1 q1) ∈ tr
    ∧ EStart (qemuArgs "2" ("tap2-" +:+ hash s) 150) (Started p2 q2) ∈ tr.

(** The steps that build the network of a session with the identifier
    [h]: the bridge, then each tap. *)
Definition build_steps (h : string) : list Step :=
  [CreateBridge ("br-" +:+ h); UpBridge ("br-" +:+ h)]
  ++ tap_steps ("br-" +:+ h) ("tap1-" +:+ h)
  ++ tap_steps ("br-" +:+ h) ("tap2-" +:+ h).

(** The network of the session [s] has been set up in the trace [tr]:
    the command of every step that builds it has been run and has ended
    without error. *)
Definition network_up (tr : list Event) (s : Session) : Prop :=
  ∀ step, step ∈ build_steps (hash s) →
    ∃ r, ERun (step_command step) r ∈ tr ∧ err r = None.

(** Every entry of the registry points to a provisioned session that
    carries the entry's key as its identifier. *)
Definition registry_inv (st : State) : Prop :=
  ∀ id l, sessions st !! id = Some l →
    ∃ s, heap st !! l = Some s ∧ hash s = id ∧ provisioned s.

(** Every [lastActive] is a reading of the clock that the trace records. *)
Definition clock_inv (st : State) : Prop :=
  ∀ l s, heap st !! l = Some s → ENow (lastActive s) ∈ trace st.


(** The three ways in which an entry point changes the state: external
    calls only, with entries possibly removed from the registry; a new
    registered session; one [lastActive] set to the current time. *)
Inductive change (os : OS) (st st' : State) : Prop :=
| change_io evs :
    trace st' = trace st ++ evs →
    heap st' = heap st →
    sessions st' ⊆ sessions st →
    change os st st'
| change_create s evs :
    trace st' = trace st ++ evs →
    heap st' = heap st ++ [s] →
    sessions st' = <[hash s := length (heap st)]> (sessions st) →
    provisioned s →
    ENow (lastActive s) ∈ trace st' →
    machines_started (trace st') s →
    network_up (trace st') s →
    change os st st'
| change_touch l s evs1 evs2 :
    heap st !! l = Some s →
    trace st' = trace st ++ evs1 ++ ENow (os_now os (trace st ++ evs1)) :: evs2 →
    heap st' = <[l := set_lastActive (os_now os (trace st ++ evs1)) s]> (heap st) →
    sessions st' = sessions st →
    change os st st'.

(** ** Concrete environments *)

(** The largest clock reading of a trace. *)
Fixpoint last_reading (tr : list Event) : Z :=
  match tr with
  | [] => 0
  | ENow t :: rest => Z.max t (last_reading rest)
  | _ :: rest => last_reading rest
  end.

Definition absent : CmdResult :=
  mkCmdResult "Device does not exist." (Some "exit status 1").

Definition succeeded : CmdResult := mkCmdResult "" None.

(** Everything works: no interface exists beforehand, every command
    succeeds, every process starts, the clock advances at each reading and
    the random bytes are [0x3a] at the very first call and [0x3b] later. *)
Definition os_ok : OS :=
  mkOS (λ _ args, match args with
                  | ["ip"; "link"; "show"; _] => absent
                  | _ => succeeded
                  end)
       (λ tr _, Started (length tr) (S (length tr)))
       (λ _ _, None)
       (λ _ _ _, None)
       (λ _, None)
       (λ tr _, match tr with [] => x3a | _ => x3b end)
       (λ tr, last_reading tr + 1)%Z
       (λ _, 0).



(** The events and the log lines that a computation adds. *)
Definition new_events {A} (m : M A) (st : State) : list Event :=
  drop (length (trace st)) (trace (m st).2).

Definition new_logs {A} (m : M A) (st : State) : list string :=
  drop (length (logs st)) (logs (m st).2).

(** The interface names of a session. *)
Definition interfaces (s : Session) : list string :=
  bridgeName s :: (map_to_list (tapNames s)).*2.

(** The reading of C4 as the claim states it: in a list of commands, every
    command that names a tap of the session comes before every command
    that names its bridge. *)
Definition taps_before_bridge (s : Session) (cmds : list (list string)) : Prop :=
  ∀ i j tap c1 c2,
    tap ∈ (map_to_list (tapNames s)).*2 →
    cmds !! i = Some c1 → cmds !! j = Some c2 →
    tap ∈ c1 → bridgeName s ∈ c2 → i < j.


(** The state after one successful session creation in [os_ok], and the
    session it registered. *)
Definition st_one : State := run os_ok ACreate init.

Definition session_one : Session :=
  default (newSession "" 0) (heap st_one !! 0).

Definition is_start (e : Event) : bool :=
  match e with EStart _ _ => true | _ => false end.

(** Like [os_ok], but only one QEMU process can be started: the second
    [pty.Start] fails. *)
Definition os_m2_fails : OS :=
  mkOS (os_exec os_ok)
       (λ tr _, if existsb is_start tr
                then StartErr "fork/exec /usr/bin/qemu-system-x86_64: resource temporarily unavailable"
                else Started 7 8)
       (os_kill os_ok) (os_write os_ok)
       (os_rand_err os_ok) (os_rand_byte os_ok) (os_now os_ok) (os_order os_ok).

Definition busy : CmdResult :=
  mkCmdResult "ioctl(TUNSETIFF): Device or resource busy" (Some "exit status 1").

(** Like [os_ok], but no tap device can be created. *)
Definition os_tap_fails : OS :=
  mkOS (λ _ args, match args with
                  | ["ip"; "link"; "show"; _] => absent
                  | "ip" :: "tuntap" :: _ => busy
                  | _ => succeeded
                  end)
       (os_pty_start os_ok) (os_kill os_ok) (os_write os_ok)
       (os_rand_err os_ok) (os_rand_byte os_ok) (os_now os_ok) (os_order os_ok).





(** ** Creations under way *)

(** What a creation under way holds, by the call it stands before, in a
    state with the trace [tr]: the session object built from three random
    bytes and a reading of the clock; from [startMachine] for machine 1
    on, a network that is up; from [startMachine] for machine 2 on, the
    pty and the process of machine 1; before the store, a provisioned
    session with both machines started. *)
Definition creating_inv (tr : list Event) (c : Creating) : Prop :=
  match c with
  | BeforeSetup s =>
      ∃ bytes now, length bytes = 3
        ∧ s = newSession (hex_EncodeToString bytes) now ∧ ENow now ∈ tr
  | BeforeMachine1 s =>
      ∃ bytes now, length bytes = 3
        ∧ s = newSession (hex_EncodeToString bytes) now ∧ ENow now ∈ tr
        ∧ network_up tr s
  | BeforeMachine2 s =>
      ∃ bytes now p1 q1, length bytes = 3
        ∧ s = mkSession (hex_EncodeToString bytes)
                ("br-" +:+ hex_EncodeToString bytes)
                (<["1" := "tap1-" +:+ hex_EncodeToString bytes]>
                   (<["2" := "tap2-" +:+ hex_EncodeToString bytes]> ∅))
                (<["1" := Some p1]> ∅)
                (<["1" := Some (mkCmd (qemuArgs "1" ("tap1-" +:+ hex_EncodeToString bytes)
                                         149) (Some q1))]> ∅)
                now
        ∧ ENow now ∈ tr ∧ network_up tr s
        ∧ EStart (qemuArgs "1" ("tap1-" +:+ hex_EncodeToString bytes) 149)
            (Started p1 q1) ∈ tr
  | BeforeStore s =>
      provisioned s ∧ ENow (lastActive s) ∈ tr
      ∧ machines_started tr s ∧ network_up tr s
  end.

(** Every session object of the heap has its machines started and its
    network up in the trace. *)
Definition sessions_up (st : State) : Prop :=
  ∀ l s, heap st !! l = Some s →
    machines_started (trace st) s ∧ network_up (trace st) s.

(** A sequence of moves. *)
Fixpoint moves (os : OS) (ms : list Move) (x : State * list Creating)
    : State * list Creating :=
  match ms with
  | [] => x
  | m :: ms => moves os ms (move os m x.1 x.2)
  end.

(** ** Further concrete runs *)

(** A creation that has registered its session "3a3a3a" in [os_ok], and
    a second creation that has set up its network and started its
    machine 1 and stands before the launch of machine 2. *)
Definition creation_under_way : State * list Creating :=
  moves os_ok [MBegin; MNext 0; MNext 0; MNext 0; MNext 0; MBegin; MNext 0; MNext 0]
    (init, []).

Definition is_added (e : Event) : bool :=
  match e with
  | ERun ("ip" :: "link" :: "add" :: _) _ => true
  | _ => false
  end.

(** Like [os_ok], but [rand.Read] gives the bytes [0x3a] at every call,
    and [ip link show] finds the bridge once one has been added. *)
Definition os_same : OS :=
  mkOS (λ tr args, match args with
                   | ["ip"; "link"; "show"; _] =>
                       if existsb is_added tr then succeeded else absent
                   | _ => succeeded
                   end)
       (os_pty_start os_ok) (os_kill os_ok) (os_write os_ok)
       (os_rand_err os_ok) (λ _ _, x3a) (os_now os_ok) (os_order os_ok).

(** The state after one successful session creation in [os_same]. *)
Definition st_same : State := run os_same ACreate init.

(** The reading of C3 as the claim states it: the interface names of the
    session that [createSession] returns from the state [st] are names of
    no session that is registered in [st]. *)
Definition names_unused (os : OS) (st : State) : Prop :=
  ∀ l st' s id' l' s' name,
    createSession os st = (Val (Ok l), st') →
    heap st' !! l = Some s →
    sessions st !! id' = Some l' → heap st !! l' = Some s' →
    name ∈ interfaces s → name ∉ interfaces s'.

(** * Further specification-side definitions *)

(** The value of a hexadecimal digit, 0 for any other character. *)
Definition hexval (c : ascii) : N :=
  let n := N_of_ascii c in
  if ((48 <=? n) && (n <=? 57))%N then (n - 48)%N
  else if ((97 <=? n) && (n <=? 102))%N then (n - 87)%N
  else 0%N.

(** The bytes of a string of hexadecimal digits, two digits per byte. *)
Fixpoint hex_decode (s : string) : list N :=
  match s with
  | String c1 (String c2 rest) => (16 * hexval c1 + hexval c2)%N :: hex_decode rest
  | _ => []
  end.

(** The processes that [cleanupSession] kills, in the order of a list of
    entries of [cmds]: the ones of a non-nil command with a process. *)
Definition started_pids (l : list (string * option Cmd)) : list handle :=
  omap (λ kv, match kv.2 with
              | Some (mkCmd _ (Some pid)) => Some pid
              | _ => None
              end) l.

(** The files that [cleanupSession] closes, in the order of a list of
    entries of [ptyFiles]: the non-nil ones. *)
Definition open_ptys (l : list (string * option handle)) : list handle :=
  omap snd l.

(** Killing every process of a list, whatever the outcomes. *)
Fixpoint kill_all (os : OS) (tr : list Event) (pids : list handle) : list Event :=
  match pids with
  | [] => []
  | pid :: rest =>
      let ev := EKill pid (os_kill os tr pid) in
      ev :: kill_all os (tr ++ [ev]) rest
  end.

(** The processes killed and the files closed in a list of events. *)
Definition killed (evs : list Event) : list handle :=
  omap (λ e, match e with EKill pid _ => Some pid | _ => None end) evs.

Definition closed (evs : list Event) : list handle :=
  omap (λ e, match e with EClose f => Some f | _ => None end) evs.

(** The data of the writes to the file [f] in a list of events, failed
    writes included. *)
Definition written (f : handle) (evs : list Event) : list (list byte) :=
  omap (λ e, match e with
             | EWrite f' data _ => if decide (f' = f) then Some data else None
             | _ => None
             end) evs.

(** The payloads that the read loop has to forward for a list of results
    of [ReadMessage]: those of the text and binary messages that come
    before the first read error. *)
Fixpoint payloads (inbound : list ReadResult) : list (list byte) :=
  match inbound with
  | [] => []
  | ReadErr _ :: _ => []
  | ReadMsg messageType msg :: rest =>
      if decide (messageType = BinaryMessage ∨ messageType = TextMessage)
      then msg :: payloads rest
      else payloads rest
  end.

(** The JSON object in the answer of [createSessionHandler] for a session
    identifier; the body is this text followed by a newline. *)
Definition sessionJSON (h : string) : string :=
  "{" +:+ dquote +:+ "sessionID" +:+ dquote +:+ ":" +:+ dquote +:+ h +:+ dquote +:+ "}".

(** No session is both registered and handed to a teardown goroutine, no
    session is handed to two goroutines, and no session is registered
    under two identifiers. *)
Definition teardown_inv (st : State) : Prop :=
  NoDup (spawned st)
  ∧ (∀ l, l ∈ spawned st → l < length (heap st))
  ∧ (∀ id l, sessions st !! id = Some l → l ∉ spawned st)
  ∧ (∀ id1 id2 l, sessions st !! id1 = Some l → sessions st !! id2 = Some l → id1 = id2).

(** Every device is already gone: each command fails and its output says
    so. *)
Definition gone : CmdResult :=
  mkCmdResult "Cannot find device" (Some "exit status 1").

Definition os_gone : OS :=
  mkOS (λ _ _, gone)
       (os_pty_start os_ok) (os_kill os_ok) (os_write os_ok)
       (os_rand_err os_ok) (os_rand_byte os_ok) (os_now os_ok) (os_order os_ok).

(** The output of a command says that the device is gone. *)
Definition output_gone (r : CmdResult) : bool :=
  strings_Contains (output r) "Cannot find device"
  || strings_Contains (output r) "No such device".

(** A computation that leaves the list of pending goroutines as it is. *)
Definition keeps_spawned {A} (m : M A) : Prop :=
  ∀ st, spawned (m st).2 = spawned st.

(** The session object on which an action calls [cleanupSession]: the
    registered session of a close request (line 94 of main.go), the
    session held by a goroutine of the reaper (line 264); no other entry
    point calls it. *)
Definition torn_down (a : Action) (st : State) : option loc :=
  match a with
  | AClose sessionID => if decide (sessionID = "") then None else sessions st !! sessionID
  | AGo i => spawned st !! i
  | _ => None
  end.

(** The reachable states together with the sessions torn down on the way,
    in the order of the teardowns. *)
Inductive history (os : OS) : list loc → State → Prop :=
| history_init : history os [] init
| history_run a st torn :
    history os torn st →
    history os (torn ++ option_list (torn_down a st)) (run os a st).

(** Like [os_ok], but more than ten minutes pass between two readings of
    the clock, so that every session has expired when the reaper looks
    at it. *)
Definition os_idle : OS :=
  mkOS (os_exec os_ok) (os_pty_start os_ok) (os_kill os_ok) (os_write os_ok)
       (os_rand_err os_ok) (os_rand_byte os_ok)
       (λ tr, last_reading tr + 600000000001)%Z
       (os_order os_ok).

(** In [os_idle]: one session created and removed by a tick of the
    reaper, its teardown pending. *)
Definition st_expired : State := run os_idle ATick (run os_idle ACreate init).

(** In [os_idle]: two sessions created and removed by a tick of the
    reaper, their teardowns pending, and a third session created after
    the tick. *)
Definition st_pending : State :=
  run os_idle ACreate (run os_idle ATick (run os_idle ACreate (run os_idle ACreate init))).

(** * Lemmas *)

(** ** Strings and the hexadecimal encoding *)

Lemma string_length_app (s1 s2 : string) :
  String.length (s1 +:+ s2) = String.length s1 + String.length s2.
Proof. induction s1 as [|c s1 IH]; simpl; [done | by rewrite IH]. Qed.

Lemma string_forall_app p (s1 s2 : string) :
  string_forall p (s1 +:+ s2) = string_forall p s1 && string_forall p s2.
Proof. induction s1 as [|c s1 IH]; simpl; [done | by rewrite IH, andb_assoc]. Qed.

Lemma hex_of_byte_lower (b : byte) :
  string_forall is_lower_hex (hex_of_byte (Byte.to_N b)) = true.
Proof. destruct b; reflexivity. Qed.

Lemma hex_EncodeToString_length (src : list byte) :
  String.length (hex_EncodeToString src) = 2 * length src.
Proof.
  induction src as [|b src IH]; [done |].
  cbn [hex_EncodeToString length]. rewrite string_length_app, IH.
  unfold hex_of_byte. simpl String.length. lia.
Qed.

Lemma hex_EncodeToString_lower (src : list byte) :
  string_forall is_lower_hex (hex_EncodeToString src) = true.
Proof.
  induction src as [|b src IH]; [done |].
  cbn [hex_EncodeToString]. by rewrite string_forall_app, hex_of_byte_lower, IH.
Qed.

Lemma generateShortHash_eq os (n : Z) st :
  (0 ≤ n)%Z →
  let k := Z.to_nat (Z.min n 12 / 2) in
  let r := match os_rand_err os (trace st) with
           | Some e => Err e
           | None => Ok (map (os_rand_byte os (trace st)) (seq 0 k))
           end in
  generateShortHash os n st =
    (Val (match r with Err e => Err e | Ok bytes => Ok (hex_EncodeToString bytes) end),
     set_trace (fun tr => tr ++ [ERand k r]) st).
Proof.
  intros Hn k r. unfold generateShortHash.
  assert (Hq : ((if (n >? 12)%Z then 12 else n) ÷ 2 = Z.min n 12 / 2)%Z).
  { destruct (Z.gtb_spec n 12).
    - rewrite Z.min_r by lia. reflexivity.
    - rewrite Z.min_l by lia. apply Z.quot_div_nonneg; lia. }
  rewrite Hq.
  destruct (Z.ltb_spec (Z.min n 12 / 2) 0) as [Hlt|_].
  { exfalso. assert (0 ≤ Z.min n 12 / 2)%Z by (apply Z.div_pos; lia). lia. }
  unfold bind, rand_Read. fold k. fold r. destruct r; reflexivity.
Qed.

(** ** States and the rules of [io] *)

Lemma extend_nil st : extend st [] [] = st.
Proof. destruct st. unfold extend. simpl. by rewrite !app_nil_r. Qed.

Lemma extend_extend st e1 l1 e2 l2 :
  extend (extend st e1 l1) e2 l2 = extend st (e1 ++ e2) (l1 ++ l2).
Proof. unfold extend. simpl. by rewrite !app_assoc. Qed.

Section IoRules.
Variable os : OS.

Lemma io_ret {A} (a : A) st (Q : A → list Event → list string → Prop) :
  Q a [] [] → io (ret a) st Q.
Proof. intros. exists a, [], []. by rewrite extend_nil. Qed.

Lemma io_bind {A B} (m : M A) (k : A → M B) st Q1 (Q : B → list Event → list string → Prop) :
  io m st Q1 →
  (∀ a evs lg, Q1 a evs lg →
     io (k a) (extend st evs lg) (λ b evs' lg', Q b (evs ++ evs') (lg ++ lg'))) →
  io (bind m k) st Q.
Proof.
  intros (a & evs & lg & Hm & HQ1) Hk.
  destruct (Hk a evs lg HQ1) as (b & evs' & lg' & Hkb & HQ).
  exists b, (evs ++ evs'), (lg ++ lg'). split; [|done].
  unfold bind. rewrite Hm, Hkb. by rewrite extend_extend.
Qed.

Lemma io_mono {A} (m : M A) st (Q1 Q2 : A → list Event → list string → Prop) :
  io m st Q1 → (∀ a evs lg, Q1 a evs lg → Q2 a evs lg) → io m st Q2.
Proof. intros (a & evs & lg & Hm & HQ) H. exists a, evs, lg. eauto. Qed.

Lemma io_log line st :
  io (log_Print line) st (λ _ evs lg, evs = [] ∧ lg = [line]).
Proof.
  exists tt, [], [line]. split; [|done].
  unfold log_Print, extend, set_logs. simpl. by rewrite app_nil_r.
Qed.

End IoRules.

(** ** [runCommand], [interfaceExists] and [setupNetwork] *)

Section Network.
Variable os : OS.

Local Abbreviation performs := (performs os).

Lemma runCommand_eq args st :
  args ≠ [] →
  runCommand os args st =
    (Val (commandError args (os_exec os (trace st) args)),
     extend st [ERun args (os_exec os (trace st) args)] []).
Proof.
  intros Hne. unfold runCommand. destruct args as [|a args]; [done|].
  unfold bind, exec_CombinedOutput, commandError, extend, set_trace. simpl.
  rewrite app_nil_r.
  by destruct (err _).
Qed.

Lemma log_Print_eq line st : log_Print line st = (Val tt, extend st [] [line]).
Proof. unfold log_Print, extend, set_logs. simpl. by rewrite app_nil_r. Qed.

Lemma string_app_assoc (a b c : string) : (a +:+ b) +:+ c = a +:+ b +:+ c.
Proof.
  induction a as [|x a IH]; [done |].
  change (String x ((a +:+ b) +:+ c) = String x (a +:+ b +:+ c)). by rewrite IH.
Qed.

Lemma log_then {A} line (k : M A) st :
  (log_Print line ;;; k) st = k (extend st [] [line]).
Proof. unfold bind. by rewrite log_Print_eq. Qed.

Lemma check_runCommand args wrap k st :
  args ≠ [] →
  check (runCommand os args) wrap k st =
    match commandError args (os_exec os (trace st) args) with
    | Some msg => (Val (Some (wrap msg)),
                   extend st [ERun args (os_exec os (trace st) args)] [])
    | None => k (extend st [ERun args (os_exec os (trace st) args)] [])
    end.
Proof.
  intros Hne. unfold check, bind. rewrite runCommand_eq by done.
  by destruct (commandError _ _).
Qed.

Lemma performs_nil k : performs k [] k.
Proof. intros st. exists []. simpl. by rewrite extend_nil. Qed.

Lemma performs_log line m steps k :
  performs m steps k → performs (log_Print line ;;; m) steps k.
Proof.
  intros Hk st. rewrite log_then. destruct (Hk (extend st [] [line])) as [lg ->].
  exists ([line] ++ lg). cbn [trace extend]. rewrite app_nil_r.
  by rewrite extend_extend.
Qed.

Lemma performs_step s wrap m rest k :
  step_error s = commandError (step_command s) →
  step_command s ≠ [] →
  (∀ msg, wrap msg = step_label s +:+ ": " +:+ msg) →
  performs m rest k →
  performs (check (runCommand os (step_command s)) wrap m) (s :: rest) k.
Proof.
  intros Herr Hne Hwrap Hk st. rewrite check_runCommand by done.
  cbn [run_steps]. rewrite Herr.
  destruct (commandError _ _) as [msg|].
  - exists []. by rewrite Hwrap.
  - destruct (Hk (extend st [ERun (step_command s) (os_exec os (trace st) (step_command s))] []))
      as [lg ->].
    exists lg. cbn [trace extend].
    destruct (run_steps _ _ rest) as [evs [e|]]; cbn [fst snd];
      by rewrite extend_extend.
Qed.

Lemma performs_check_log line m wrap m' steps k :
  performs (check m wrap m') steps k →
  performs (check (log_Print line ;;; m) wrap m') steps k.
Proof.
  intros Hk st. destruct (Hk (extend st [] [line])) as [lg Hst].
  exists ([line] ++ lg).
  replace (check (log_Print line ;;; m) wrap m' st)
    with (check m wrap m' (extend st [] [line])).
  - rewrite Hst. cbn [trace extend]. rewrite app_nil_r. by rewrite extend_extend.
  - unfold check, bind. by rewrite log_Print_eq.
Qed.

Lemma performs_check m steps k :
  performs m steps (ret None) → performs (check m (λ e, e) k) steps k.
Proof.
  intros Hm st. destruct (Hm st) as [lg Hst]. exists lg.
  unfold check, bind. rewrite Hst.
  by destruct (run_steps _ _ _).2.
Qed.

Ltac label_eq := intros ?; cbn [step_label]; rewrite ?string_app_assoc; reflexivity.

Lemma setupTaps_performs bridge taps :
  performs (setupTaps os bridge taps) (flat_map (tap_steps bridge) taps.*2) (ret None).
Proof.
  induction taps as [|[id tap] taps IH]; [apply performs_nil|].
  cbn [setupTaps fmap list_fmap flat_map tap_steps app snd].
  apply performs_log, (performs_step (CreateTap tap)); [done..|label_eq|].
  apply performs_log, (performs_step (AttachTap tap bridge)); [done..|label_eq|].
  apply performs_log, (performs_step (UpTap tap)); [done..|label_eq|].
  exact IH.
Qed.

Lemma interfaceExists_eq name st :
  let r := os_exec os (trace st) ["ip"; "link"; "show"; name] in
  interfaceExists os name st =
    (Val (match err r with
          | Some e =>
              if notFound (output r) then (false, None)
              else (false, Some ("error executing 'ip link show " +:+ name +:+ "': "
                                   +:+ e +:+ ", output: " +:+ output r))
          | None => (true, None)
          end),
     extend st [ERun ["ip"; "link"; "show"; name] r] []).
Proof.
  intros r. unfold interfaceExists, bind, exec_CombinedOutput. fold r.
  unfold notFound, extend, set_trace, ret. cbn [trace logs heap sessions spawned].
  rewrite app_nil_r.
  destruct (err r); [|done].
  by destruct (_ || _).
Qed.

Lemma range_map_eq {V} (m : gmap string V) st :
  range_map os m st =
    (Val (shuffle (os_order os (trace st)) (map_to_list m)),
     extend st [ERange (os_order os (trace st))] []).
Proof. unfold range_map, extend, set_trace. simpl. by rewrite app_nil_r. Qed.

Lemma setupNetwork_eq session st :
  ∃ lg, setupNetwork os session st =
    (Val (setupNetwork_spec os session (trace st)).2,
     extend st (setupNetwork_spec os session (trace st)).1 lg).
Proof.
  set (br := bridgeName session).
  (* the tail of the function, from the range loop on *)
  set (tail := (taps <- range_map os (tapNames session) ;;
                check (setupTaps os br taps) (λ e, e)
                  (log_Print ("Network setup for session " +:+ hash session
                                +:+ " completed successfully.") ;;; ret None))).
  assert (Htail : ∀ st0, ∃ lg,
    tail st0 =
      (Val (run_steps os (trace st0 ++ [ERange (os_order os (trace st0))])
              (flat_map (tap_steps br)
                 (shuffle (os_order os (trace st0)) (map_to_list (tapNames session))).*2)).2,
       extend st0
         (ERange (os_order os (trace st0)) ::
          (run_steps os (trace st0 ++ [ERange (os_order os (trace st0))])
              (flat_map (tap_steps br)
                 (shuffle (os_order os (trace st0)) (map_to_list (tapNames session))).*2)).1)
         lg)).
  { intros st0. unfold tail, bind at 1. rewrite range_map_eq.
    destruct (performs_check _ _
                (log_Print ("Network setup for session " +:+ hash session
                              +:+ " completed successfully.") ;;; ret None)
                (setupTaps_performs br
                   (shuffle (os_order os (trace st0)) (map_to_list (tapNames session))))
                (extend st0 [ERange (os_order os (trace st0))] [])) as [lg ->].
    cbn [trace extend].
    destruct (run_steps _ _ _) as [evs [e|]]; cbn [fst snd].
    - exists lg. by rewrite extend_extend.
    - rewrite log_then. unfold ret. eexists. by rewrite !extend_extend, app_nil_r. }
  (* the steps on the bridge *)
  assert (Hbridge : ∀ found,
    performs
      (check (if found : bool
              then log_Print ("Bridge " +:+ br +:+ " already exists. Deleting...") ;;;
                   runCommand os ["ip"; "link"; "delete"; br; "type"; "bridge"]
              else ret None)
         (λ e, "failed to delete bridge " +:+ br +:+ ": " +:+ e)
         (log_Print ("Creating bridge " +:+ br +:+ "...") ;;;
          check (runCommand os ["ip"; "link"; "add"; br; "type"; "bridge"])
            (λ e, "failed to create bridge " +:+ br +:+ ": " +:+ e)
            (log_Print ("Bringing up bridge " +:+ br +:+ "...") ;;;
             check (runCommand os ["ip"; "link"; "set"; br; "up"])
               (λ e, "failed to bring up bridge " +:+ br +:+ ": " +:+ e) tail)))
      ((if found then [DeleteBridge br] else []) ++ [CreateBridge br; UpBridge br])
      tail).
  { intros found.
    assert (Hrest : performs
      (log_Print ("Creating bridge " +:+ br +:+ "...") ;;;
          check (runCommand os ["ip"; "link"; "add"; br; "type"; "bridge"])
            (λ e, "failed to create bridge " +:+ br +:+ ": " +:+ e)
            (log_Print ("Bringing up bridge " +:+ br +:+ "...") ;;;
             check (runCommand os ["ip"; "link"; "set"; br; "up"])
               (λ e, "failed to bring up bridge " +:+ br +:+ ": " +:+ e) tail))
      [CreateBridge br; UpBridge br] tail).
    { apply performs_log, (performs_step (CreateBridge br)); [done..|label_eq|].
      apply performs_log, (performs_step (UpBridge br)); [done..|label_eq|].
      apply performs_nil. }
    destruct found; cbn [app].
    - apply performs_check_log, (performs_step (DeleteBridge br)); [done..|label_eq|].
      exact Hrest.
    - intros st0. unfold check at 1, bind at 1, ret at 1. apply Hrest. }
  unfold setupNetwork, setupNetwork_spec. fold br. fold tail.
  unfold bind at 1. rewrite interfaceExists_eq.
  cbn [run_steps app step_error step_command].
  set (r := os_exec os (trace st) ["ip"; "link"; "show"; br]).
  destruct (err r) as [e|] eqn:Er.
  - destruct (notFound (output r)) eqn:Enf; cbn [fst snd].
    + rewrite bool_decide_eq_false_2 by done.
      destruct (Hbridge false (extend st [ERun ["ip"; "link"; "show"; br] r] [])) as [lg ->].
      cbn [trace extend app]. 
      destruct (run_steps _ _ _) as [evs [e'|]] eqn:Ers; cbn [fst snd].
      * exists lg. by rewrite extend_extend.
      * destruct (Htail (extend (extend st [ERun ["ip"; "link"; "show"; br] r] []) evs lg))
          as [lg' ->].
        cbn [trace extend]. rewrite <- !app_assoc. cbn [app].
        destruct (run_steps _ _ (flat_map _ _)) as [evs' e'] eqn:Ers'. cbn [fst snd].
        eexists. by rewrite !extend_extend.
    + exists []. unfold ret. cbn [step_label]. by rewrite ?string_app_assoc.
  - cbn [fst snd]. rewrite bool_decide_eq_true_2 by done.
    destruct (Hbridge true (extend st [ERun ["ip"; "link"; "show"; br] r] [])) as [lg ->].
    cbn [trace extend app].
    destruct (run_steps _ _ _) as [evs [e'|]] eqn:Ers; cbn [fst snd].
    * exists lg. by rewrite extend_extend.
    * destruct (Htail (extend (extend st [ERun ["ip"; "link"; "show"; br] r] []) evs lg))
        as [lg' ->].
      cbn [trace extend]. rewrite <- !app_assoc. cbn [app].
      destruct (run_steps _ _ (flat_map _ _)) as [evs' e'] eqn:Ers'. cbn [fst snd].
      eexists. by rewrite !extend_extend.
Qed.
End Network.

(** ** The order of a [range] and [cleanupNetwork] *)

Section Cleanup.
Variable os : OS.

Lemma insert_at_Permutation {A} i (x : A) (l : list A) :
  insert_at i x l ≡ₚ x :: l.
Proof.
  revert i. induction l as [|y l IH]; intros [|i]; simpl; try reflexivity.
  rewrite IH. apply Permutation_swap.
Qed.

Lemma shuffle_Permutation {A} seed (l : list A) : shuffle seed l ≡ₚ l.
Proof.
  revert seed. induction l as [|x l IH]; intros seed; [done|].
  cbn [shuffle]. rewrite insert_at_Permutation. by rewrite IH.
Qed.

Lemma insert_at_length {A} (x : A) (l1 l2 : list A) :
  insert_at (length l1) x (l1 ++ l2) = l1 ++ x :: l2.
Proof. induction l1 as [|y l1 IH]; simpl; [by destruct l2 | by rewrite IH]. Qed.

(** Every order of visit is the order of some seed. *)
Lemma shuffle_complete {A} (l l' : list A) :
  l' ≡ₚ l → ∃ seed, shuffle seed l = l'.
Proof.
  revert l'. induction l as [|x l IH]; intros l' Hperm.
  { apply Permutation_nil_r in Hperm as ->. by exists 0. }
  assert (Hin : x ∈ l') by (rewrite Hperm; by left).
  apply list_elem_of_split in Hin as (l1 & l2 & ->).
  symmetry in Hperm. apply Permutation_cons_app_inv in Hperm. symmetry in Hperm.
  destruct (IH (l1 ++ l2) Hperm) as [seed0 Hseed0].
  assert (Hlen : length l1 < S (length l)).
  { apply Permutation_length in Hperm. rewrite length_app in Hperm. lia. }
  exists (length l1 + seed0 * S (length l)). cbn [shuffle].
  rewrite Nat.Div0.mod_add, Nat.mod_small by done.
  rewrite Nat.div_add, Nat.div_small by lia. cbn [Nat.add].
  rewrite Hseed0. apply insert_at_length.
Qed.

Lemma runCleanup_eq cmds st :
  Forall (λ c, c ≠ []) cmds →
  runCleanup os cmds st =
    (Val tt, extend st (exec_all os (trace st) cmds)
               (omap cleanupLog (exec_all os (trace st) cmds))).
Proof.
  intros Hne. revert st. induction Hne as [|c cmds Hc Hne IH]; intros st.
  { simpl. by rewrite extend_nil. }
  cbn [runCleanup exec_all omap list_omap cleanupLog]. unfold bind at 1.
  rewrite runCommand_eq by done. unfold bind at 1.
  destruct (commandError c _) as [msg|] eqn:Ec.
  - destruct (deviceGone msg) eqn:Eg.
    + unfold ret at 1. rewrite IH. cbn [trace extend]. by rewrite extend_extend.
    + rewrite log_Print_eq, IH. cbn [trace extend]. rewrite app_nil_r.
      by rewrite !extend_extend.
  - rewrite log_Print_eq, IH. cbn [trace extend]. rewrite app_nil_r.
    by rewrite !extend_extend.
Qed.

Lemma cleanupNetwork_eq session st :
  let seed := os_order os (trace st) in
  let taps := (shuffle seed (map_to_list (tapNames session))).*2 in
  let evs := exec_all os (trace st ++ [ERange seed])
               (cleanupCommands (bridgeName session) taps) in
  cleanupNetwork os session st =
    (Val None, extend st (ERange seed :: evs) (omap cleanupLog evs)).
Proof.
  intros seed taps evs. unfold cleanupNetwork, bind at 1.
  rewrite range_map_eq. fold seed. unfold bind at 1.
  rewrite runCleanup_eq.
  - unfold ret. rewrite extend_extend. cbn [trace extend].
    unfold evs, cleanupCommands, taps.
    replace (flat_map (λ kv : string * string, tapCleanup kv.2)
               (shuffle seed (map_to_list (tapNames session))))
      with (flat_map tapCleanup (shuffle seed (map_to_list (tapNames session))).*2).
    + reflexivity.
    + generalize (shuffle seed (map_to_list (tapNames session))) as l.
      induction l as [|[k v] l IH]; [done|].
      cbn [flat_map fmap list_fmap snd]. by f_equal.
  - apply Forall_app. split; [by repeat constructor|].
    apply Forall_flat_map, Forall_forall. intros ? _. by repeat constructor.
Qed.

Lemma commands_exec_all tr cmds : commands (exec_all os tr cmds) = cmds.
Proof.
  revert tr. induction cmds as [|c cmds IH]; intros tr; [done|].
  cbn [exec_all]. unfold commands in *. cbn [omap list_omap]. by rewrite IH.
Qed.
End Cleanup.

(** ** [startMachine] and [cleanupSession] *)

Section Machines.
Variable os : OS.

Lemma startMachine_eq session machineID tapDevice mac st :
  macSuffix machineID = Some mac →
  let args := qemuArgs machineID tapDevice mac in
  let r := os_pty_start os (trace st) args in
  startMachine os session machineID tapDevice st =
    match r with
    | StartErr e =>
        (Val (Some ("error starting QEMU machine " +:+ machineID +:+ ": " +:+ e),
              session),
         extend st [EStart args r] [])
    | Started ptmx pid =>
        (Val (None,
              mkSession (hash session) (bridgeName session) (tapNames session)
                (<[machineID := Some ptmx]> (ptyFiles session))
                (<[machineID := Some (mkCmd args (Some pid))]> (cmds session))
                (lastActive session)),
         extend st [EStart args r]
           ["Virtual machine " +:+ machineID +:+ " in session "
              +:+ hash session +:+ " started"])
    end.
Proof.
  intros Hmac args r. unfold startMachine. rewrite Hmac. fold args.
  unfold bind at 1, pty_Start. fold r.
  replace (set_trace (λ tr, tr ++ [EStart args r]) st)
    with (extend st [EStart args r] [])
    by (unfold extend, set_trace; simpl; by rewrite app_nil_r).
  destruct r as [e|ptmx pid]; [done|].
  rewrite log_then. unfold ret. by rewrite extend_extend.
Qed.

Lemma io_of_eq {A} (m : M A) st a evs lg :
  m st = (Val a, extend st evs lg) → io m st (λ a' evs' lg', a' = a ∧ evs' = evs ∧ lg' = lg).
Proof. intros H. by exists a, evs, lg. Qed.

Lemma Process_Kill_eq pid st :
  Process_Kill os pid st =
    (Val (os_kill os (trace st) pid),
     extend st [EKill pid (os_kill os (trace st) pid)] []).
Proof. unfold Process_Kill, extend, set_trace. simpl. by rewrite app_nil_r. Qed.

Lemma File_Close_eq f st : File_Close f st = (Val tt, extend st [EClose f] []).
Proof. unfold File_Close, emit, extend, set_trace. simpl. by rewrite app_nil_r. Qed.

Lemma File_Write_eq f data st :
  File_Write os f data st =
    (Val (os_write os (trace st) f data),
     extend st [EWrite f data (os_write os (trace st) f data)] []).
Proof. unfold File_Write, extend, set_trace. simpl. by rewrite app_nil_r. Qed.

Lemma time_Now_eq st :
  time_Now os st = (Val (os_now os (trace st)), extend st [ENow (os_now os (trace st))] []).
Proof. unfold time_Now, extend, set_trace. simpl. by rewrite app_nil_r. Qed.

Lemma killMachines_io h l st : io (killMachines os h l) st (λ _ _ _, True).
Proof.
  revert st. induction l as [|[id cmd] l IH]; intros st; [by apply io_ret|].
  cbn [killMachines]. eapply io_bind; [|intros; apply IH].
  instantiate (1 := λ _ _ _, True).
  destruct cmd as [[args [pid|]]|]; try by apply io_ret.
  eapply io_bind; [apply io_of_eq, Process_Kill_eq|].
  intros a evs lg _. destruct a; eapply io_mono; try apply io_log; done.
Qed.

Lemma closePtys_io l st : io (closePtys l) st (λ _ _ _, True).
Proof.
  revert st. induction l as [|[id pt] l IH]; intros st; [by apply io_ret|].
  cbn [closePtys]. eapply io_bind; [|intros; apply IH].
  instantiate (1 := λ _ _ _, True).
  destruct pt; [|by apply io_ret].
  eapply io_mono; [apply io_of_eq, File_Close_eq|done].
Qed.

Lemma cleanupSession_io session st : io (cleanupSession os session) st (λ _ _ _, True).
Proof.
  unfold cleanupSession.
  eapply io_bind; [apply io_of_eq, range_map_eq|]. intros machines ? ? _.
  eapply io_bind; [apply killMachines_io|]. intros _ ? ? _.
  eapply io_bind; [apply io_of_eq, range_map_eq|]. intros ptys ? ? _.
  eapply io_bind; [apply closePtys_io|]. intros _ ? ? _.
  eapply io_bind; [apply io_of_eq, cleanupNetwork_eq|]. intros e ? ? _.
  eapply io_bind with (Q1 := λ _ _ _, True).
  { destruct e; eapply io_mono; try apply io_log; done. }
  intros _ ? ? _. eapply io_mono; [apply io_log|done].
Qed.
End Machines.

(** ** [createSession] *)

Section Creation.
Variable os : OS.

Lemma len_app (a b : string) : len (a +:+ b) = (len a + len b)%Z.
Proof. unfold len. rewrite string_length_app. lia. Qed.

Lemma no_teardown_app evs1 evs2 :
  no_teardown evs1 → no_teardown evs2 → no_teardown (evs1 ++ evs2).
Proof. intros H1 H2 e [?|?]%elem_of_app; [by apply H1 | by apply H2]. Qed.

Lemma no_teardown_cons e evs :
  match e with EKill _ _ | EClose _ => False | _ => True end →
  no_teardown evs → no_teardown (e :: evs).
Proof. intros He H e' [->|?]%elem_of_cons; [done | by apply H]. Qed.

Lemma no_teardown_nil : no_teardown [].
Proof. intros e He. by apply elem_of_nil in He. Qed.

Lemma run_steps_no_teardown tr steps : no_teardown (run_steps os tr steps).1.
Proof.
  revert tr. induction steps as [|s steps IH]; intros tr; [apply no_teardown_nil|].
  cbn [run_steps]. destruct (step_error s _).
  - apply no_teardown_cons; [done|apply no_teardown_nil].
  - specialize (IH (tr ++ [ERun (step_command s) (os_exec os tr (step_command s))])).
    destruct (run_steps _ _ steps) as [evs e]. by apply no_teardown_cons.
Qed.

Lemma setupNetwork_no_teardown session tr :
  no_teardown (setupNetwork_spec os session tr).1.
Proof.
  unfold setupNetwork_spec.
  match goal with |- context [run_steps os tr ?s] =>
    pose proof (run_steps_no_teardown tr s) as H1;
    destruct (run_steps os tr s) as [evs [e|]] end; [done|].
  match goal with |- context [run_steps os ?t ?s] =>
    pose proof (run_steps_no_teardown t s) as H2;
    destruct (run_steps os t s) as [evs' e'] end.
  apply no_teardown_app; [done|]. by apply no_teardown_cons.
Qed.

Lemma exec_all_no_teardown tr cmds : no_teardown (exec_all os tr cmds).
Proof.
  revert tr. induction cmds as [|c cmds IH]; intros tr; [apply no_teardown_nil|].
  cbn [exec_all]. by apply no_teardown_cons.
Qed.

Lemma createSession_inv st r st' :
  createSession os st = (r, st') →
  (∃ e evs lg,
     r = Val (Err e) ∧ st' = extend st evs lg
     ∧ String.prefix "interface name too long" e = false
     ∧ no_teardown evs)
  ∨ (∃ s, r = Val (Ok (length (heap st))) ∧ created os st s st').
Proof.
  unfold createSession. unfold bind at 1. rewrite generateShortHash_eq by lia.
  change (Z.to_nat (Z.min 6 12 / 2)) with 3.
  replace (set_trace (λ tr, tr ++ [ERand 3 _]) st)
    with (extend st [ERand 3 (match os_rand_err os (trace st) with
                              | Some e => Err e
                              | None => Ok (map (os_rand_byte os (trace st)) (seq 0 3))
                              end)] [])
    by (unfold extend, set_trace; simpl; by rewrite app_nil_r).
  destruct (os_rand_err os (trace st)) as [e|].
  { intros [= <- <-]. left. eexists _, _, _. do 2 (split; [reflexivity|]).
    split; [done|]. apply no_teardown_cons; [done|apply no_teardown_nil]. }
  set (bytes := map (os_rand_byte os (trace st)) (seq 0 3)).
  set (h := hex_EncodeToString bytes).
  assert (Hlen : len h = 6%Z).
  { unfold len, h. rewrite hex_EncodeToString_length. done. }
  rewrite !len_app, Hlen.
  match goal with |- context [if ?c then _ else _] => change c with false end.
  cbv iota.
  unfold bind at 1. rewrite time_Now_eq. rewrite extend_extend.
  cbn [trace extend app].
  set (now := os_now os (trace st ++ [ERand 3 (Ok bytes)])).
  fold (newSession h now).
  set (st1 := extend st [ERand 3 (Ok bytes); ENow now] []).
  destruct (setupNetwork_eq os (newSession h now) st1) as [lgn Hsetup].
  pose proof (setupNetwork_no_teardown (newSession h now) (trace st1)) as Hnt.
  unfold bind at 1. rewrite Hsetup.
  destruct (setupNetwork_spec os (newSession h now) (trace st1)) as [evn [e|]] eqn:Espec;
    cbn [fst snd] in *.
  { intros [= <- <-]. left. unfold st1. rewrite extend_extend. eexists _, _, _.
    do 2 (split; [reflexivity|]). split; [done|].
    apply no_teardown_app; [|done].
    apply no_teardown_cons; [done|]. apply no_teardown_cons; [done|apply no_teardown_nil]. }
  set (st2 := extend st1 evn lgn) in *.
  pose proof (startMachine_eq os (newSession h now) "1" ("tap1-" +:+ h) 149%N st2 eq_refl) as Hm1.
  cbv zeta in Hm1. unfold bind at 1. rewrite Hm1.
  set (a1 := qemuArgs "1" ("tap1-" +:+ h) 149) in *.
  destruct (os_pty_start os (trace st2) a1) as [e|p1 q1] eqn:E1.
  { cbv beta iota. unfold bind at 1. rewrite cleanupNetwork_eq. intros [= <- <-]. left.
    unfold st2, st1. rewrite !extend_extend. eexists _, _, _.
    do 2 (split; [reflexivity|]). split; [done|].
    repeat first [apply no_teardown_app | apply no_teardown_cons | apply no_teardown_nil
                 | apply exec_all_no_teardown | done]. }
  cbv beta iota.
  match type of Hm1 with _ = (Val (None, ?s), ?st) => set (s1 := s) in *; set (st3 := st) in * end.
  pose proof (startMachine_eq os s1 "2" ("tap2-" +:+ h) 150%N st3 eq_refl) as Hm2.
  cbv zeta in Hm2. unfold bind at 1. rewrite Hm2.
  set (a2 := qemuArgs "2" ("tap2-" +:+ h) 150) in *.
  destruct (os_pty_start os (trace st3) a2) as [e|p2 q2] eqn:E2.
  { cbv beta iota. unfold bind at 1. rewrite cleanupNetwork_eq. intros [= <- <-]. left.
    unfold st3, st2, st1. rewrite !extend_extend. eexists _, _, _.
    do 2 (split; [reflexivity|]). split; [done|].
    repeat first [apply no_teardown_app | apply no_teardown_cons | apply no_teardown_nil
                 | apply exec_all_no_teardown | done]. }
  cbv beta iota.
  match type of Hm2 with _ = (Val (None, ?s), ?st) => set (s2 := s) in *; set (st4 := st) in * end.
  unfold bind, alloc, sessions_store, log_Print, ret. intros [= <- <-]. right.
  exists s2. split; [reflexivity|].
  eapply (created_intro os st s2 _ bytes now s1 st2 st3
            (evn ++ [EStart a1 (Started p1 q1)] ++ [EStart a2 (Started p2 q2)])
            _ p1 q1 p2 q2 a1 a2).
  - unfold bytes. by rewrite length_map, length_seq.
  - reflexivity.
  - exact Hsetup.
  - exact Hm1.
  - etrans; [exact Hm2|]. unfold st4, st3, st2, st1. rewrite !extend_extend.
    rewrite <- ?app_assoc. reflexivity.
  - reflexivity.
  - set_solver.
  - set_solver.
  - repeat first [apply no_teardown_app | apply no_teardown_cons | apply no_teardown_nil | done].
  - unfold st4, st3, st2, st1, extend, set_logs, set_sessions, set_heap.
    cbn [trace logs heap sessions spawned hash]. rewrite <- ?app_assoc. reflexivity.
  - reflexivity.
  - reflexivity.
  - reflexivity.
Qed.
End Creation.

(** ** A network that is up and machines that are started *)

Section Started.
Variable os : OS.

Lemma run_steps_all tr steps s :
  (run_steps os tr steps).2 = None → s ∈ steps →
  ∃ r, ERun (step_command s) r ∈ (run_steps os tr steps).1 ∧ step_error s r = None.
Proof.
  revert tr. induction steps as [|s0 steps IH]; intros tr Hnone Hin.
  { by apply elem_of_nil in Hin. }
  revert Hnone. cbn [run_steps].
  destruct (step_error s0 _) as [msg|] eqn:Es; [done|].
  destruct (run_steps os (tr ++ _) steps) as [evs e] eqn:Er. cbn [fst snd].
  intros ->. apply elem_of_cons in Hin as [->|Hin].
  - eexists. split; [by left|done].
  - destruct (IH (tr ++ [ERun (step_command s0) (os_exec os tr (step_command s0))]))
      as (r & Hr & He); [by rewrite Er|done|].
    rewrite Er in Hr. exists r. split; [by right|done].
Qed.

Lemma step_error_succeeded s r :
  step_error s r = None → (∀ br, s ≠ CheckBridge br) → err r = None.
Proof.
  destruct s; cbn [step_error]; intros He Hne;
    try (unfold commandError in He; by destruct (err r)).
  by destruct (Hne bridge).
Qed.

Lemma elem_of_build_steps h step :
  step ∈ build_steps h →
  (∀ br, step ≠ CheckBridge br)
  ∧ (step ∈ [CreateBridge ("br-" +:+ h); UpBridge ("br-" +:+ h)]
     ∨ ∃ tap, (tap = "tap1-" +:+ h ∨ tap = "tap2-" +:+ h)
              ∧ step ∈ tap_steps ("br-" +:+ h) tap).
Proof.
  unfold build_steps, tap_steps. cbn [app]. rewrite !elem_of_cons, elem_of_nil.
  intros [->|[->|[->|[->|[->|[->|[->|[->|[]]]]]]]]]; (split; [done|]).
  1-2: left; by eauto.
  1-3: right; exists ("tap1-" +:+ h); split; [by left|];
       rewrite !elem_of_cons; by eauto.
  all: right; exists ("tap2-" +:+ h); split; [by right|];
       rewrite !elem_of_cons; by eauto.
Qed.

Lemma tap_names_ranged (a b : string) seed tap :
  tap = a ∨ tap = b →
  tap ∈ (shuffle seed
           (map_to_list (<["1" := a]> (<["2" := b]> (∅ : gmap string string))))).*2.
Proof.
  intros Htap. rewrite shuffle_Permutation.
  rewrite !map_to_list_insert by (by rewrite ?lookup_insert_ne, ?lookup_empty).
  rewrite map_to_list_empty. cbn. destruct Htap as [-> | ->]; set_solver.
Qed.

(** A successful [setupNetwork] has run every step that builds the
    network of the session, each without error. *)
Lemma setupNetwork_spec_up h now tr evs :
  setupNetwork_spec os (newSession h now) tr = (evs, None) →
  ∀ step, step ∈ build_steps h → ∃ r, ERun (step_command step) r ∈ evs ∧ err r = None.
Proof.
  unfold setupNetwork_spec. cbn [bridgeName tapNames newSession].
  set (br := "br-" +:+ h).
  set (plan := [CheckBridge br] ++ _ ++ [CreateBridge br; UpBridge br]).
  destruct (run_steps os tr plan) as [evs1 [e|]] eqn:E1; [done|].
  match goal with |- context [run_steps os ?t ?p] =>
    set (tr2 := t); set (tsteps := p) end.
  destruct (run_steps os tr2 tsteps) as [evs2 e2] eqn:E2.
  intros [= <- ->] step Hstep.
  destruct (elem_of_build_steps h step Hstep) as [Hne [Hbr|(tap & Htap & Hin)]].
  - destruct (run_steps_all tr plan step) as (r & Hr & He).
    + by rewrite E1.
    + unfold plan. rewrite !elem_of_app. right. by right.
    + rewrite E1 in Hr. exists r. split; [apply elem_of_app; by left|].
      by apply (step_error_succeeded step).
  - destruct (run_steps_all tr2 tsteps step) as (r & Hr & He).
    + by rewrite E2.
    + unfold tsteps. apply list_elem_of_In, in_flat_map. exists tap.
      split; [|by apply list_elem_of_In]. apply list_elem_of_In.
      by apply tap_names_ranged.
    + rewrite E2 in Hr. exists r.
      split; [apply elem_of_app; right; by right|].
      by apply (step_error_succeeded step).
Qed.

Lemma network_up_mono tr tr' s :
  network_up tr s → network_up (tr ++ tr') s.
Proof.
  intros H step Hstep. destruct (H step Hstep) as (r & Hr & He).
  exists r. split; [apply elem_of_app; by left|done].
Qed.

Lemma machines_started_mono tr tr' s :
  machines_started tr s → machines_started (tr ++ tr') s.
Proof.
  intros (p1 & q1 & p2 & q2 & H1 & H2 & H3 & H4).
  exists p1, q1, p2, q2. do 2 (split; [done|]).
  split; apply elem_of_app; by left.
Qed.

Lemma network_up_hash tr s s' : hash s' = hash s → network_up tr s → network_up tr s'.
Proof. unfold network_up. by intros ->. Qed.

(** A successful [createSession] has set up the network and started the
    machines of the session it registers. *)
Lemma created_started st s st' :
  created os st s st' → machines_started (trace st') s ∧ network_up (trace st') s.
Proof.
  intros [bytes now s1 st2 st3 evs lg p1 q1 p2 q2 a1 a2 Hb Hnow h st1 Hnet Hm1 Hm2
            -> Hs1 Hs2 _ -> _ -> ->].
  cbn [trace]. split.
  - exists p1, q1, p2, q2. cbn [ptyFiles cmds hash]. do 2 (split; [done|]).
    split; rewrite !elem_of_app; right; by right.
  - destruct (setupNetwork_eq os (newSession h now) st1) as [lgn Heq].
    rewrite Hnet in Heq.
    destruct (setupNetwork_spec os (newSession h now) (trace st1)) as [evn e] eqn:Espec.
    cbn [fst snd] in Heq. injection Heq as Hres Hst2. subst e st2.
    pose proof (setupNetwork_spec_up h now (trace st1) evn Espec) as Hup.
    pose proof (startMachine_eq os (newSession h now) "1" ("tap1-" +:+ h) 149%N
                  (extend st1 evn lgn) eq_refl) as E1.
    cbv zeta in E1. rewrite Hm1 in E1.
    destruct (os_pty_start os (trace (extend st1 evn lgn)) _) as [?|f1 pid1]; [done|].
    apply (f_equal snd) in E1. cbn [snd] in E1. subst st3.
    match type of Hm2 with startMachine _ _ _ _ ?stx = _ =>
      pose proof (startMachine_eq os s1 "2" ("tap2-" +:+ h) 150%N stx eq_refl) as E2 end.
    cbv zeta in E2. rewrite Hm2 in E2.
    destruct (os_pty_start os _ _) as [?|f2 pid2]; [done|].
    apply (f_equal snd) in E2. cbn [snd] in E2.
    apply (f_equal trace) in E2. unfold st1 in E2. cbn [trace extend] in E2.
    rewrite <- !app_assoc in E2. apply app_inv_head in E2.
    cbn [app] in E2. injection E2 as Hevs.
    intros step Hstep. destruct (Hup step Hstep) as (r & Hr & He).
    exists r. split; [|done].
    rewrite !elem_of_app. right. right. rewrite Hevs. apply elem_of_app. by left.
Qed.
End Started.

(** ** What each entry point does to the state *)

Section EntryPoints.
Variable os : OS.

Lemma created_provisioned st s st' : created os st s st' → provisioned s.
Proof.
  intros [bytes now s1 st2 st3 evs lg p1 q1 p2 q2 a1 a2 Hb Hnow h st1 _ _ _ -> _ _ _ _].
  repeat split; cbn [hash bridgeName tapNames ptyFiles cmds]; eauto.
  eexists _, _, q1, q2. eauto.
Qed.

Lemma change_extend st evs lg : change os st (extend st evs lg).
Proof. by apply (change_io os st _ evs). Qed.

Lemma change_created st s st' : created os st s st' → change os st st'.
Proof.
  intros Hc. pose proof (created_provisioned _ _ _ Hc) as Hp.
  destruct (created_started os st s _ Hc) as [Hstart Hup].
  destruct Hc as [bytes now s1 st2 st3 evs lg p1 q1 p2 q2 a1 a2 Hb Hnow h st1 _ _ _ Hs _ _ _ ->].
  eapply (change_create os st _ s); cbn [trace heap sessions]; try done.
  - by rewrite Hs.
  - rewrite Hs. cbn [lastActive]. set_solver.
Qed.

Lemma createSessionHandler_change st : change os st (createSessionHandler os st).2.
Proof.
  unfold createSessionHandler, bind at 1.
  destruct (createSession os st) as [r st1] eqn:E.
  apply createSession_inv in E as [(e & evs & lg & -> & -> & _)|(s & -> & Hc)].
  - rewrite log_then. unfold ret. rewrite extend_extend. apply change_extend.
  - pose proof (change_created _ _ _ Hc) as Hch.
    unfold bind, deref. destruct (heap st1 !! length (heap st)); exact Hch.
Qed.

Lemma change_delete st id evs lg :
  change os st (extend (set_sessions (λ m, delete id m) st) evs lg).
Proof.
  apply (change_io os st _ evs); cbn [trace heap sessions extend set_sessions]; try done.
  apply delete_subseteq.
Qed.

Lemma closeSessionHandler_change id st : change os st (closeSessionHandler os id st).2.
Proof.
  unfold closeSessionHandler. case_decide.
  { cbn. rewrite <- (extend_nil st) at 2. apply change_extend. }
  unfold bind at 1, sessions_lookup. destruct (sessions st !! id) as [l|] eqn:El.
  2:{ cbn. rewrite <- (extend_nil st) at 2. apply change_extend. }
  unfold bind at 1, sessions_delete. unfold bind at 1, deref.
  cbn [heap set_sessions].
  destruct (heap st !! l) as [s|].
  2:{ cbn [snd]. rewrite <- (extend_nil (set_sessions _ st)). apply change_delete. }
  unfold bind at 1.
  destruct (cleanupSession_io os s (set_sessions (λ m, delete id m) st))
    as ([] & evs & lg & -> & _).
  rewrite log_then. unfold ret. cbn [snd]. rewrite extend_extend. apply change_delete.
Qed.

Lemma store_lastActive_eq l t st :
  store_lastActive l t st =
    match heap st !! l with
    | Some s => (Val tt, set_heap (λ h, <[l := set_lastActive t s]> h) st)
    | None => (Panic "invalid memory address or nil pointer dereference", st)
    end.
Proof. unfold store_lastActive, bind, deref. by destruct (heap st !! l). Qed.

Lemma change_touched st l s evs1 lg1 evs2 lg2 :
  heap st !! l = Some s →
  change os st
    (extend (set_heap (λ h, <[l := set_lastActive (os_now os (trace st ++ evs1)) s]> h)
               (extend st (evs1 ++ [ENow (os_now os (trace st ++ evs1))]) lg1)) evs2 lg2).
Proof.
  intros Hl. apply (change_touch os st _ l s evs1 evs2); try done.
  cbn [trace extend set_heap]. by rewrite <- !app_assoc.
Qed.

Lemma wsHandler_change id m up st : change os st (wsHandler os id m up st).2.
Proof.
  unfold wsHandler. case_decide.
  { cbn. rewrite <- (extend_nil st) at 2. apply change_extend. }
  case_decide.
  { cbn. rewrite <- (extend_nil st) at 2. apply change_extend. }
  unfold bind at 1, sessions_lookup. destruct (sessions st !! id) as [l|] eqn:El.
  2:{ cbn. rewrite <- (extend_nil st) at 2. apply change_extend. }
  unfold bind at 1. rewrite time_Now_eq. unfold bind at 1.
  rewrite store_lastActive_eq. cbn [heap extend].
  destruct (heap st !! l) as [s|] eqn:Hl; [|apply change_extend].
  pose proof (change_touched st l s [] [] [] [] Hl) as Hch.
  rewrite extend_nil, app_nil_r in Hch. cbn [app] in Hch.
  destruct up as [e|].
  { rewrite log_then. unfold ret. cbn [snd].
    pose proof (change_touched st l s [] [] [] ["Error upgrading to WebSocket: " +:+ e] Hl) as Hch'.
    rewrite app_nil_r in Hch'. exact Hch'. }
  unfold bind at 1, deref. cbn [heap set_heap extend].
  destruct (<[l:=_]> (heap st) !! l) as [s'|]; [|exact Hch].
  destruct (ptyFiles s' !! m) as [ptmx|]; [exact Hch|].
  rewrite log_then. unfold ret. cbn [snd].
  pose proof (change_touched st l s [] [] [] ["Invalid machine ID: " +:+ m] Hl) as Hch'.
  rewrite app_nil_r in Hch'. exact Hch'.
Qed.

Lemma wsReadStep_change l ptmx rd st : change os st (wsReadStep os l ptmx rd st).2.
Proof.
  unfold wsReadStep. destruct rd as [e|ty msg].
  { rewrite log_then. apply change_extend. }
  unfold bind at 1.
  assert (Hw : ∃ w evs,
     (if decide (ty = BinaryMessage ∨ ty = TextMessage)
      then ptmx_Write os ptmx msg else ret None) st = (Val w, extend st evs [])) .
  { case_decide; [|exists None, []; by rewrite extend_nil].
    destruct ptmx as [f|]; cbn [ptmx_Write].
    - rewrite File_Write_eq. eauto.
    - exists (Some "invalid argument"), []. by rewrite extend_nil. }
  destruct Hw as (w & evs & ->).
  destruct w as [e|].
  { rewrite log_then. unfold ret. cbn [snd]. rewrite extend_extend. apply change_extend. }
  unfold bind at 1. rewrite time_Now_eq. unfold bind at 1.
  rewrite store_lastActive_eq. cbn [heap extend trace]. rewrite extend_extend.
  destruct (heap st !! l) as [s|] eqn:Hl; [|apply change_extend].
  unfold ret. cbn [snd].
  pose proof (change_touched st l s evs [] [] [] Hl) as Hch.
  rewrite extend_nil in Hch. exact Hch.
Qed.

Lemma reap_frame entries st r st' :
  reap os entries st = (r, st') →
  ∃ evs, trace st' = trace st ++ evs ∧ heap st' = heap st
         ∧ sessions st' ⊆ sessions st.
Proof.
  revert st. induction entries as [|[id l] entries IH]; intros st.
  { intros [= <- <-]. exists []. by rewrite app_nil_r. }
  cbn [reap]. unfold bind at 1, deref.
  destruct (heap st !! l) as [s|].
  2:{ intros [= <- <-]. exists []. by rewrite app_nil_r. }
  unfold bind at 1, time_Since, bind at 1. rewrite time_Now_eq. unfold ret at 1.
  unfold bind at 1.
  destruct (time_Sub _ _ >? sessionTimeout)%Z.
  - rewrite log_then. unfold bind at 1, sessions_delete, go_cleanupSession.
    intros (evs & Ht & Hh & Hs)%IH.
    cbn [trace heap sessions extend set_sessions set_spawned] in Ht, Hh, Hs.
    rewrite app_nil_r, <- app_assoc in Ht.
    eexists. split; [exact Ht|]. split; [done|].
    etrans; [exact Hs|]. apply delete_subseteq.
  - unfold ret at 1. intros (evs & Ht & Hh & Hs)%IH.
    cbn [trace heap sessions extend] in Ht, Hh, Hs.
    rewrite <- app_assoc in Ht. eauto.
Qed.

Lemma sessionCleaner_change st : change os st (sessionCleaner os st).2.
Proof.
  unfold sessionCleaner, bind at 1. rewrite range_map_eq.
  destruct (reap os _ _) as [r st'] eqn:E.
  apply reap_frame in E as (evs & Ht & Hh & Hs). cbn [snd].
  apply (change_io os st _ ([ERange (os_order os (trace st))] ++ evs)); try done.
  rewrite Ht. cbn [trace extend]. by rewrite <- app_assoc.
Qed.

Lemma run_goroutine_change i st : change os st (run_goroutine os i st).2.
Proof.
  unfold run_goroutine. destruct (spawned st !! i) as [l|].
  2:{ cbn. rewrite <- (extend_nil st) at 2. apply change_extend. }
  unfold bind, deref. cbn [heap set_spawned].
  destruct (heap st !! l) as [s|].
  - destruct (cleanupSession_io os s (set_spawned (λ g, delete i g) st))
      as ([] & evs & lg & -> & _).
    by apply (change_io os st _ evs).
  - by apply (change_io os st _ []); cbn; rewrite ?app_nil_r.
Qed.

Lemma run_change a st : change os st (run os a st).
Proof.
  destruct a; cbn [run].
  - apply createSessionHandler_change.
  - apply closeSessionHandler_change.
  - apply wsHandler_change.
  - apply wsReadStep_change.
  - apply sessionCleaner_change.
  - apply run_goroutine_change.
Qed.
End EntryPoints.

(** ** Invariants of the reachable states *)

Section Invariants.
Variable os : OS.

Lemma provisioned_set_lastActive t s : provisioned s → provisioned (set_lastActive t s).
Proof. done. Qed.

Lemma registry_inv_change st st' :
  change os st st' → registry_inv st → registry_inv st'.
Proof.
  intros [evs Ht Hh Hs|s evs Ht Hh Hs Hp Hn _ _|l s evs1 evs2 Hl Ht Hh Hs] Hinv id l0 Hid.
  - rewrite Hh. apply Hinv. by eapply lookup_weaken.
  - rewrite Hs in Hid. rewrite Hh.
    destruct (decide (hash s = id)) as [<-|Hne].
    + rewrite lookup_insert_eq in Hid. injection Hid as <-.
      exists s. split; [|done]. by rewrite list_lookup_middle.
    + rewrite lookup_insert_ne in Hid by done.
      destruct (Hinv id l0 Hid) as (s0 & Hl0 & ? & ?).
      exists s0. split; [|done]. by apply lookup_app_l_Some.
  - rewrite Hs in Hid. destruct (Hinv id l0 Hid) as (s0 & Hl0 & Hh0 & Hp0).
    rewrite Hh. destruct (decide (l = l0)) as [->|Hne].
    + rewrite list_lookup_insert_eq by (by eapply lookup_lt_Some).
      assert (s0 = s) as -> by congruence. eauto.
    + rewrite list_lookup_insert_ne by done. eauto.
Qed.

Lemma clock_inv_change st st' :
  change os st st' → clock_inv st → clock_inv st'.
Proof.
  intros [evs Ht Hh Hs|s evs Ht Hh Hs Hp Hn _ _|l s evs1 evs2 Hl Ht Hh Hs] Hinv l0 s0 Hl0.
  - rewrite Hh in Hl0. rewrite Ht. apply elem_of_app. left. by eapply Hinv.
  - rewrite Hh in Hl0.
    apply lookup_app_Some in Hl0 as [Hl0|[_ Hl0]].
    + rewrite Ht. apply elem_of_app. left. by eapply Hinv.
    + apply list_lookup_singleton_Some in Hl0 as [_ <-]. done.
  - rewrite Hh in Hl0. rewrite Ht.
    destruct (decide (l = l0)) as [->|Hne].
    + rewrite list_lookup_insert_eq in Hl0 by (by eapply lookup_lt_Some).
      injection Hl0 as <-. cbn [lastActive set_lastActive]. set_solver.
    + rewrite list_lookup_insert_ne in Hl0 by done.
      apply elem_of_app. left. by eapply Hinv.
Qed.

Lemma reachable_inv st : reachable os st → registry_inv st ∧ clock_inv st.
Proof.
  induction 1 as [|a st _ [IH1 IH2]].
  - split; [intros id l Hl | intros l s Hl]; by cbn in Hl.
  - split; [eapply registry_inv_change | eapply clock_inv_change];
      eauto using run_change.
Qed.

End Invariants.

Lemma created_state os st s st' :
  created os st s st' →
  heap st' = heap st ++ [s]
  ∧ sessions st' = <[hash s := length (heap st)]> (sessions st)
  ∧ spawned st' = spawned st
  ∧ ∃ evs1 evs2, trace st' = trace st ++ evs1 ++ ENow (lastActive s) :: evs2
                 ∧ lastActive s = os_now os (trace st ++ evs1)
                 ∧ no_teardown (evs1 ++ ENow (lastActive s) :: evs2).
Proof.
  intros [bytes now s1 st2 st3 evs lg p1 q1 p2 q2 a1 a2 Hb Hnow h st1 _ _ _ -> _ _ Hnt ->].
  cbn [heap sessions spawned trace hash lastActive]. repeat split; try done.
  exists [ERand 3 (Ok bytes)], evs. split; [done|]. split; [done|].
  apply no_teardown_cons; [done|]. by apply no_teardown_cons.
Qed.

(** ** The commands of a run of steps *)

Lemma commands_app evs1 evs2 : commands (evs1 ++ evs2) = commands evs1 ++ commands evs2.
Proof. unfold commands. apply omap_app. Qed.

Lemma run_steps_commands os tr steps :
  match (run_steps os tr steps).2 with
  | None => commands (run_steps os tr steps).1 = map step_command steps
  | Some e =>
      ∃ before s rest msg,
        steps = before ++ s :: rest
        ∧ commands (run_steps os tr steps).1 = map step_command (before ++ [s])
        ∧ e = step_label s +:+ ": " +:+ msg
  end.
Proof.
  revert tr. induction steps as [|s steps IH]; intros tr; [done|].
  cbn [run_steps]. destruct (step_error s _) as [msg|] eqn:Es; cbn [fst snd].
  - exists [], s, steps, msg. done.
  - specialize (IH (tr ++ [ERun (step_command s) (os_exec os tr (step_command s))])).
    destruct (run_steps _ _ steps) as [evs [e|]]; cbn [fst snd] in *.
    + destruct IH as (before & s' & rest & msg & -> & Hc & ->).
      exists (s :: before), s', rest, msg. split; [done|]. split; [|done].
      change (commands (?e :: evs)) with (step_command s :: commands evs).
      rewrite Hc. done.
    + change (commands (?e :: evs)) with (step_command s :: commands evs).
      by rewrite IH.
Qed.

(** ** Events and log lines added by a computation *)

Lemma new_events_extend {A} (m : M A) st a evs lg :
  m st = (Val a, extend st evs lg) → new_events m st = evs.
Proof.
  intros H. unfold new_events. rewrite H. cbn [snd trace extend].
  by rewrite drop_app_length.
Qed.

Lemma new_logs_extend {A} (m : M A) st a evs lg :
  m st = (Val a, extend st evs lg) → new_logs m st = lg.
Proof.
  intros H. unfold new_logs. rewrite H. cbn [snd logs extend].
  by rewrite drop_app_length.
Qed.

(** ** Failing creations *)

Lemma createSession_failure os st :
  match createSession os st with
  | (Val (Ok _), _) => True
  | (_, st') =>
      sessions st' = sessions st ∧ heap st' = heap st
      ∧ no_teardown (new_events (createSession os) st)
  end.
Proof.
  destruct (createSession os st) as [r st'] eqn:E.
  pose proof E as E'.
  apply createSession_inv in E' as [(e & evs & lg & -> & -> & _ & Hnt)|(s & -> & _)];
    [|done].
  split; [done|]. split; [done|]. by rewrite (new_events_extend _ _ _ _ _ E).
Qed.

(** ** Interface names and machines of a provisioned session *)

Lemma interfaces_provisioned s name :
  provisioned s →
  name ∈ interfaces s ↔
    name = "br-" +:+ hash s ∨ name = "tap1-" +:+ hash s ∨ name = "tap2-" +:+ hash s.
Proof.
  intros (_ & Hbr & Htap & _). unfold interfaces. rewrite Hbr, Htap.
  rewrite elem_of_cons, list_elem_of_fmap. split.
  - intros [->|([id tap] & -> & Hin)]; [by left|]. right.
    apply elem_of_map_to_list in Hin.
    apply lookup_insert_Some in Hin as [[_ <-]|[_ Hin]]; [by left|].
    apply lookup_insert_Some in Hin as [[_ <-]|[_ Hin]]; [by right|done].
  - intros [->|[->| ->]]; [by left|right..].
    + exists ("1", "tap1-" +:+ hash s). split; [done|].
      apply elem_of_map_to_list. by rewrite lookup_insert_eq.
    + exists ("2", "tap2-" +:+ hash s). split; [done|].
      apply elem_of_map_to_list. rewrite lookup_insert_ne by done.
      by rewrite lookup_insert_eq.
Qed.

Lemma provisioned_hash_length s : provisioned s → String.length (hash s) = 6.
Proof.
  intros ((bytes & Hb & ->) & _). by rewrite hex_EncodeToString_length, Hb.
Qed.

Lemma interfaces_disjoint s s' name :
  provisioned s → provisioned s' → hash s ≠ hash s' →
  name ∈ interfaces s → name ∉ interfaces s'.
Proof.
  intros Hp Hp' Hne Hin Hin'.
  apply interfaces_provisioned in Hin; [|done].
  apply interfaces_provisioned in Hin'; [|done].
  destruct Hin as [->|[->| ->]], Hin' as [H|[H|H]];
    first [ by apply (inj (String.app _)) in H | by vm_compute in H ].
Qed.

Lemma provisioned_machines s :
  provisioned s →
  dom (ptyFiles s) = {["1"; "2"]} ∧ dom (cmds s) = {["1"; "2"]}
  ∧ ∀ m, m = "1" ∨ m = "2" →
      ∃ f c pid, ptyFiles s !! m = Some (Some f) ∧ cmds s !! m = Some (Some c)
                 ∧ Process c = Some pid.
Proof.
  intros (_ & _ & _ & (p1 & p2 & Hpty) & (c1 & c2 & q1 & q2 & Hcmd & H1 & H2)).
  rewrite Hpty, Hcmd. rewrite !dom_insert_L, !dom_empty_L.
  split; [set_solver|]. split; [set_solver|].
  intros m [->| ->].
  - exists p1, c1, q1. by rewrite !lookup_insert_ne, !lookup_insert_eq by done.
  - exists p2, c2, q2. by rewrite !lookup_insert_eq.
Qed.

(** ** The reaper *)

Lemma time_Sub_gt t u :
  (time_Sub t u >? sessionTimeout)%Z = true ↔ (t - u > sessionTimeout)%Z.
Proof.
  unfold time_Sub, minDuration, maxDuration, sessionTimeout, Minute.
  change (2 ^ 63)%Z with 9223372036854775808%Z.
  repeat case_match; lia.
Qed.

Section Reaper.
Variable os : OS.

Lemma reap_spec entries st :
  NoDup entries.*1 →
  (∀ id l, (id, l) ∈ entries → is_Some (heap st !! l)) →
  ∃ st' evs gone,
    reap os entries st = (Val tt, st')
    ∧ heap st' = heap st
    ∧ trace st' = trace st ++ evs
    ∧ spawned st' = spawned st ++ gone
    ∧ (∀ id, id ∉ entries.*1 → sessions st' !! id = sessions st !! id)
    ∧ ∀ id l s, (id, l) ∈ entries → heap st !! l = Some s →
        ∃ t, ENow t ∈ evs
             ∧ ((t - lastActive s > sessionTimeout)%Z →
                  sessions st' !! id = None ∧ l ∈ gone)
             ∧ ((t - lastActive s ≤ sessionTimeout)%Z →
                  sessions st' !! id = sessions st !! id).
Proof.
  revert st. induction entries as [|[id0 l0] entries IH]; intros st Hnd Hvalid.
  { exists st, [], []. rewrite !app_nil_r. repeat split; try done.
    intros ??? Hin. by apply elem_of_nil in Hin. }
  cbn [fmap list_fmap fst] in Hnd. apply NoDup_cons in Hnd as [Hid0 Hnd].
  destruct (Hvalid id0 l0) as [s0 Hs0]; [by left|].
  cbn [reap]. unfold bind at 1, deref. rewrite Hs0.
  unfold bind at 1, time_Since, bind at 1. rewrite time_Now_eq. unfold ret at 1.
  unfold bind at 1.
  set (t0 := os_now os (trace st)).
  destruct (time_Sub t0 (lastActive s0) >? sessionTimeout)%Z eqn:Eexp.
  - apply time_Sub_gt in Eexp.
    rewrite log_then. unfold bind at 1, sessions_delete, go_cleanupSession.
    match goal with |- context [reap os entries ?s] => set (stb := s) end.
    destruct (IH stb Hnd) as (st' & evs & gone & -> & Hh & Ht & Hsp & Hout & Hin).
    { intros id l Hin. apply (Hvalid id l). by right. }
    exists st', (ENow t0 :: evs), (l0 :: gone).
    split; [done|]. split; [done|].
    split; [rewrite Ht; cbn; by rewrite app_nil_r, <- app_assoc|].
    split; [rewrite Hsp; cbn; by rewrite <- app_assoc|].
    split.
    + intros id Hid. cbn [fmap list_fmap fst] in Hid.
      apply not_elem_of_cons in Hid as [Hne Hid].
      rewrite (Hout id Hid). cbn. by rewrite lookup_delete_ne.
    + intros id l s [[= -> ->]|Hel]%elem_of_cons Hs.
      * assert (s = s0) as -> by congruence.
        exists t0. split; [by left|]. split; [|lia].
        intros _. split; [|by left].
        rewrite (Hout id0 Hid0). cbn. by rewrite lookup_delete_eq.
      * destruct (Hin id l s Hel Hs) as (t & Htin & Hexp & Hkeep).
        assert (id ≠ id0).
        { intros ->. apply Hid0. apply list_elem_of_fmap. by exists (id0, l). }
        exists t. split; [by right|]. split.
        -- intros [? ?]%Hexp. split; [done|by right].
        -- intros ->%Hkeep. cbn. by rewrite lookup_delete_ne.
  - assert (¬ (t0 - lastActive s0 > sessionTimeout)%Z) as Hnot.
    { intros H%time_Sub_gt. congruence. }
    unfold ret at 1.
    match goal with |- context [reap os entries ?s] => set (stb := s) end.
    destruct (IH stb Hnd) as (st' & evs & gone & -> & Hh & Ht & Hsp & Hout & Hin).
    { intros id l Hin. apply (Hvalid id l). by right. }
    exists st', (ENow t0 :: evs), gone.
    split; [done|]. split; [done|].
    split; [rewrite Ht; cbn; by rewrite <- app_assoc|].
    split; [done|].
    split.
    + intros id Hid. cbn [fmap list_fmap fst] in Hid.
      apply not_elem_of_cons in Hid as [Hne Hid]. by rewrite (Hout id Hid).
    + intros id l s [[= -> ->]|Hel]%elem_of_cons Hs.
      * assert (s = s0) as -> by congruence.
        exists t0. split; [by left|]. split; [lia|].
        intros _. by rewrite (Hout id0 Hid0).
      * destruct (Hin id l s Hel Hs) as (t & Htin & Hexp & Hkeep).
        exists t. split; [by right|]. done.
Qed.
End Reaper.

(** ** The clock and [lastActive] *)



Section Touch.
Variable os : OS.


End Touch.

(** ** Small runs of the model *)

Example hex_EncodeToString_example :
  hex_EncodeToString [x00; x3a; xff] = "003aff".
Proof. reflexivity. Qed.

Example strings_Contains_example :
  strings_Contains "RTNETLINK answers: No such device" "No such device" = true
  ∧ strings_Contains "Cannot find device" "cannot find device" = false.
Proof. split; reflexivity. Qed.

Example strings_Join_example :
  strings_Join ["ip"; "link"; "set"; "br-0"; "up"] " " = "ip link set br-0 up".
Proof. reflexivity. Qed.

Example macSuffix_example :
  hex_of_byte <$> macSuffix "1" = Some "95" ∧ hex_of_byte <$> macSuffix "2" = Some "96".
Proof. split; reflexivity. Qed.

Example time_Sub_example :
  time_Sub (11 * Minute) 0 = (11 * Minute)%Z ∧ time_Sub (2 ^ 63) (- 5) = maxDuration.
Proof. split; reflexivity. Qed.

Example shuffle_example :
  shuffle 0 [1; 2; 3] = [1; 2; 3] ∧ shuffle 5 [1; 2; 3] = [3; 2; 1].
Proof. split; reflexivity. Qed.

Example createSession_example :
  (createSession os_ok init).1 = Val (Ok 0)
  ∧ hash <$> heap (createSession os_ok init).2 = ["3a3a3a"]
  ∧ map_to_list (sessions (createSession os_ok init).2) = [("3a3a3a", 0)].
Proof. repeat split; vm_compute; reflexivity. Qed.

(** ** [createSession] call by call *)

Section CallByCall.
Variable os : OS.

Lemma create_begin_eq st :
  create_begin os st =
    match os_rand_err os (trace st) with
    | Some e =>
        (Val None,
         extend st [ERand 3 (Err e)]
           ["Error creating session: failed to generate hash: " +:+ e])
    | None =>
        let bytes := map (os_rand_byte os (trace st)) (seq 0 3) in
        let now := os_now os (trace st ++ [ERand 3 (Ok bytes)]) in
        (Val (Some (BeforeSetup (newSession (hex_EncodeToString bytes) now))),
         extend st [ERand 3 (Ok bytes); ENow now] [])
    end.
Proof.
  unfold create_begin. unfold bind at 1. rewrite generateShortHash_eq by lia.
  change (Z.to_nat (Z.min 6 12 / 2)) with 3.
  replace (set_trace (λ tr, tr ++ [ERand 3 _]) st)
    with (extend st [ERand 3 (match os_rand_err os (trace st) with
                              | Some e => Err e
                              | None => Ok (map (os_rand_byte os (trace st)) (seq 0 3))
                              end)] [])
    by (unfold extend, set_trace; simpl; by rewrite app_nil_r).
  destruct (os_rand_err os (trace st)) as [e|].
  { unfold create_failed. rewrite log_then. unfold ret. by rewrite extend_extend. }
  set (bytes := map (os_rand_byte os (trace st)) (seq 0 3)).
  set (h := hex_EncodeToString bytes).
  assert (Hlen : len h = 6%Z).
  { unfold len, h. rewrite hex_EncodeToString_length. done. }
  rewrite !len_app, Hlen.
  match goal with |- context [if ?c then _ else _] => change c with false end.
  cbv iota zeta.
  unfold bind at 1. rewrite time_Now_eq. unfold ret. by rewrite extend_extend.
Qed.

Lemma creating_inv_mono tr tr' c : creating_inv tr c → creating_inv (tr ++ tr') c.
Proof.
  destruct c as [s|s|s|s]; cbn [creating_inv].
  - intros (bytes & now & Hb & -> & Hn). exists bytes, now.
    split; [done|]. split; [done|]. apply elem_of_app. by left.
  - intros (bytes & now & Hb & -> & Hn & Hup). exists bytes, now.
    split; [done|]. split; [done|]. split; [apply elem_of_app; by left|].
    by apply network_up_mono.
  - intros (bytes & now & p1 & q1 & Hb & -> & Hn & Hup & Hs1).
    exists bytes, now, p1, q1. split; [done|]. split; [done|].
    split; [apply elem_of_app; by left|]. split; [by apply network_up_mono|].
    apply elem_of_app. by left.
  - intros (Hp & Hn & Hst & Hup). split; [done|].
    split; [apply elem_of_app; by left|].
    split; [by apply machines_started_mono|by apply network_up_mono].
Qed.

(** The launch of a machine inside [createSession], with the rollback of
    the network when it fails. *)
Lemma launch_eq session machineID tapDevice mac what
    (next : Session → Creating) st :
  macSuffix machineID = Some mac →
  let args := qemuArgs machineID tapDevice mac in
  ∃ evs lg,
    (r <- startMachine os session machineID tapDevice ;;
     match r with
     | (Some msg, session) =>
         cleanupNetwork os session ;;;
         create_failed (what +:+ msg)
     | (None, session) => ret (Some (next session))
     end) st
    = match os_pty_start os (trace st) args with
      | StartErr e => (Val None, extend st (EStart args (StartErr e) :: evs) lg)
      | Started ptmx pid =>
          (Val (Some (next
                  (mkSession (hash session) (bridgeName session) (tapNames session)
                     (<[machineID := Some ptmx]> (ptyFiles session))
                     (<[machineID := Some (mkCmd args (Some pid))]> (cmds session))
                     (lastActive session)))),
           extend st [EStart args (Started ptmx pid)] lg)
      end.
Proof.
  intros Hmac args.
  pose proof (startMachine_eq os session machineID tapDevice mac st Hmac) as E.
  cbv zeta in E. fold args in E. unfold bind at 1. rewrite E.
  destruct (os_pty_start os (trace st) args) as [e|ptmx pid].
  - cbv beta iota. unfold bind at 1. rewrite cleanupNetwork_eq.
    unfold create_failed. rewrite log_then. unfold ret.
    rewrite !extend_extend. cbn [app]. eexists _, _. reflexivity.
  - cbv beta iota. unfold ret. exists [].
    eexists. reflexivity.
Qed.

(** What the next call of a creation under way does: it calls out and
    logs, and the creation ends or stands before its next call; or it is
    the store, which puts the session in the heap and in the registry. *)
Lemma create_step_spec c st :
  creating_inv (trace st) c →
  (∃ evs lg r,
     create_step os c st = (Val r, extend st evs lg)
     ∧ (∀ s, c ≠ BeforeStore s)
     ∧ match r with
       | Some c' => creating_inv (trace st ++ evs) c'
       | None => True
       end)
  ∨ (∃ s, c = BeforeStore s
          ∧ create_step os c st
            = (Val None,
               mkState (trace st)
                 (logs st ++ ["Session " +:+ hash s +:+ " created"])
                 (heap st ++ [s])
                 (<[hash s := length (heap st)]> (sessions st))
                 (spawned st))).
Proof.
  destruct c as [s|s|s|s]; cbn [creating_inv create_step].
  - (* setupNetwork *)
    intros (bytes & now & Hb & -> & Hn). left.
    set (h := hex_EncodeToString bytes).
    destruct (setupNetwork_eq os (newSession h now) st) as [lg Heq].
    unfold bind at 1. rewrite Heq.
    destruct (setupNetwork_spec os (newSession h now) (trace st)) as [evn [msg|]] eqn:Espec;
      cbn [fst snd].
    + unfold create_failed. rewrite log_then. unfold ret. rewrite extend_extend.
      eexists _, _, None. split; [reflexivity|]. by split.
    + unfold ret. eexists evn, lg, (Some _). split; [reflexivity|]. split; [done|].
      cbn [creating_inv]. exists bytes, now. split; [done|]. split; [done|].
      split; [apply elem_of_app; by left|].
      intros step Hstep.
      destruct (setupNetwork_spec_up os h now (trace st) evn Espec step Hstep)
        as (r & Hr & He).
      exists r. split; [apply elem_of_app; by right|done].
  - (* startMachine for machine 1 *)
    intros (bytes & now & Hb & -> & Hn & Hup). left.
    set (h := hex_EncodeToString bytes) in *.
    destruct (launch_eq (newSession h now) "1" ("tap1-" +:+ hash (newSession h now))
                149%N "failed to start machine 1: " BeforeMachine2 st eq_refl)
      as (evs & lg & ->).
    cbv zeta. cbn [hash newSession bridgeName tapNames ptyFiles cmds lastActive].
    destruct (os_pty_start os (trace st) _) as [e|ptmx pid].
    + eexists _, _, None. split; [reflexivity|]. by split.
    + eexists _, _, (Some _). split; [reflexivity|]. split; [done|].
      cbn [creating_inv]. exists bytes, now, ptmx, pid. fold h.
      split; [done|]. split; [done|]. split; [apply elem_of_app; by left|].
      split; [by apply (network_up_mono _ _ (newSession h now))|].
      apply elem_of_app. right. by left.
  - (* startMachine for machine 2 *)
    intros (bytes & now & p1 & q1 & Hb & -> & Hn & Hup & Hs1). left.
    set (h := hex_EncodeToString bytes) in *.
    match goal with |- context [startMachine os ?s0 "2" ?tap] =>
      destruct (launch_eq s0 "2" tap 150%N "failed to start machine 2: "
                  BeforeStore st eq_refl) as (evs & lg & ->) end.
    cbv zeta. cbn [hash bridgeName tapNames ptyFiles cmds lastActive].
    destruct (os_pty_start os (trace st) _) as [e|ptmx pid].
    + eexists _, _, None. split; [reflexivity|]. by split.
    + eexists _, _, (Some _). split; [reflexivity|]. split; [done|].
      cbn [creating_inv lastActive]. split; [|split; [|split]].
      * repeat split; cbn [hash bridgeName tapNames ptyFiles cmds]; eauto.
        eexists _, _, q1, pid. eauto.
      * apply elem_of_app. by left.
      * exists p1, q1, ptmx, pid. cbn [hash ptyFiles cmds].
        do 2 (split; [done|]).
        split; apply elem_of_app; [by left|right; by left].
      * apply network_up_mono. by eapply network_up_hash; [|exact Hup].
  - (* the store *)
    intros _. right. exists s. split; [done|].
    unfold bind, alloc, sessions_store, log_Print, ret.
    cbn [heap set_heap set_sessions set_logs]. done.
Qed.

Lemma change_trace st st' : change os st st' → ∃ evs, trace st' = trace st ++ evs.
Proof.
  intros [evs Ht Hh Hs|s evs Ht Hh Hs Hp Hn _ _|l s evs1 evs2 Hl Ht Hh Hs]; eauto.
Qed.

Lemma machines_started_set_lastActive tr t s :
  machines_started tr s → machines_started tr (set_lastActive t s).
Proof. done. Qed.

Lemma sessions_up_change st st' :
  change os st st' → sessions_up st → sessions_up st'.
Proof.
  intros Hch Hinv l s Hl.
  destruct (change_trace _ _ Hch) as [evs0 Ht0].
  destruct Hch as [evs Ht Hh Hs|s0 evs Ht Hh Hs Hp Hn Hst Hup
                   |l0 s0 evs1 evs2 Hl0 Ht Hh Hs].
  - rewrite Hh in Hl. destruct (Hinv l s Hl) as [H1 H2]. rewrite Ht0.
    split; [by apply machines_started_mono|by apply network_up_mono].
  - rewrite Hh in Hl. apply lookup_app_Some in Hl as [Hl|[_ Hl]].
    + destruct (Hinv l s Hl) as [H1 H2]. rewrite Ht0.
      split; [by apply machines_started_mono|by apply network_up_mono].
    + apply list_lookup_singleton_Some in Hl as [_ <-]. done.
  - rewrite Hh in Hl. rewrite Ht0. destruct (decide (l = l0)) as [->|Hne].
    + rewrite list_lookup_insert_eq in Hl by (by eapply lookup_lt_Some).
      injection Hl as <-. destruct (Hinv l0 s0 Hl0) as [H1 H2].
      split; [by apply machines_started_mono|by apply network_up_mono].
    + rewrite list_lookup_insert_ne in Hl by done.
      destruct (Hinv l s Hl) as [H1 H2].
      split; [by apply machines_started_mono|by apply network_up_mono].
Qed.

(** Every move is one of the three changes of the state, and the
    creations under way keep what they hold. *)
Lemma move_change m st cs :
  Forall (creating_inv (trace st)) cs →
  change os st (move os m st cs).1
  ∧ Forall (creating_inv (trace (move os m st cs).1)) (move os m st cs).2.
Proof.
  intros Hcs. destruct m as [a| |i]; cbn [move].
  - (* an entry point *)
    pose proof (run_change os a st) as Hch. split; [done|]. cbn [fst snd].
    destruct (change_trace _ _ Hch) as [evs ->].
    eapply Forall_impl; [exact Hcs|]. intros c. apply creating_inv_mono.
  - (* the beginning of a creation *)
    rewrite create_begin_eq. destruct (os_rand_err os (trace st)) as [e|].
    + cbn [fst snd]. split; [apply change_extend|]. cbn [trace extend].
      eapply Forall_impl; [exact Hcs|]. intros c. apply creating_inv_mono.
    + cbv zeta. cbn [fst snd]. split; [apply change_extend|]. cbn [trace extend].
      apply Forall_app. split.
      * eapply Forall_impl; [exact Hcs|]. intros c. apply creating_inv_mono.
      * apply Forall_singleton. cbn [creating_inv]. eexists _, _.
        split; [|split; [reflexivity|]].
        -- by rewrite length_map, length_seq.
        -- rewrite !elem_of_app, !elem_of_cons. right. right. by left.
  - (* the next call of a creation *)
    destruct (cs !! i) as [c|] eqn:Hi.
    2:{ cbn [fst snd]. split; [|done]. rewrite <- (extend_nil st) at 2.
        apply change_extend. }
    pose proof (Forall_lookup_1 _ _ _ _ Hcs Hi) as Hc.
    destruct (create_step_spec c st Hc)
      as [(evs & lg & r & -> & Hns & Hr)|(s & -> & ->)].
    + assert (Hmono : Forall (creating_inv (trace st ++ evs)) cs).
      { eapply Forall_impl; [exact Hcs|]. intros c0. apply creating_inv_mono. }
      destruct r as [c'|]; cbn [fst snd]; (split; [apply change_extend|]);
        cbn [trace extend].
      * by apply Forall_insert.
      * by apply Forall_delete.
    + cbn [fst snd creating_inv] in *. destruct Hc as (Hp & Hn & Hst & Hup). split.
      * by apply (change_create os st _ s []); cbn [trace heap sessions];
          rewrite ?app_nil_r.
      * cbn [trace]. by apply Forall_delete.
Qed.

(** The invariants of the states of the server with creations under way. *)
Lemma interleaved_inv st cs :
  interleaved os st cs →
  registry_inv st ∧ clock_inv st ∧ sessions_up st
  ∧ Forall (creating_inv (trace st)) cs.
Proof.
  induction 1 as [|m st cs _ (Hreg & Hclock & Hup & Hcs)].
  - split; [by intros id l Hl|]. split; [by intros l s Hl|].
    split; [by intros l s Hl|constructor].
  - destruct (move_change m st cs Hcs) as [Hch Hcs'].
    split; [by eapply registry_inv_change|].
    split; [by eapply clock_inv_change|].
    split; [by eapply sessions_up_change|done].
Qed.

(** The runs in which every creation is one step are among the
    interleaved ones. *)
Lemma reachable_interleaved st : reachable os st → interleaved os st [].
Proof.
  induction 1 as [|a st _ IH]; [constructor|].
  exact (interleaved_move os (MRun a) st [] IH).
Qed.

Lemma interleaved_moves ms st cs :
  interleaved os st cs →
  interleaved os (moves os ms (st, cs)).1 (moves os ms (st, cs)).2.
Proof.
  revert st cs. induction ms as [|m ms IH]; intros st cs H; [done|].
  cbn [moves fst snd]. destruct (move os m st cs) as [st' cs'] eqn:E.
  apply IH. replace st' with (move os m st cs).1 by (by rewrite E).
  replace cs' with (move os m st cs).2 by (by rewrite E). by constructor.
Qed.

(** A creation that stands before a call other than the store leaves
    the registry and the heap as they are, and so does the beginning of
    a creation; the store adds the session that the creation holds. *)
Lemma move_registry i c st cs :
  Forall (creating_inv (trace st)) cs → cs !! i = Some c →
  match c with
  | BeforeStore s =>
      sessions (move os (MNext i) st cs).1
      = <[hash s := length (heap st)]> (sessions st)
      ∧ heap (move os (MNext i) st cs).1 = heap st ++ [s]
  | _ =>
      sessions (move os (MNext i) st cs).1 = sessions st
      ∧ heap (move os (MNext i) st cs).1 = heap st
  end.
Proof.
  intros Hcs Hi. pose proof (Forall_lookup_1 _ _ _ _ Hcs Hi) as Hc.
  cbn [move]. rewrite Hi.
  destruct (create_step_spec c st Hc)
    as [(evs & lg & r & -> & Hns & Hr)|(s & -> & ->)].
  - assert (sessions (extend st evs lg) = sessions st
            ∧ heap (extend st evs lg) = heap st) by done.
    destruct c as [s|s|s|s]; [by destruct r..|by destruct (Hns s)].
  - done.
Qed.

Lemma begin_registry st cs :
  sessions (move os MBegin st cs).1 = sessions st
  ∧ heap (move os MBegin st cs).1 = heap st.
Proof.
  cbn [move]. rewrite create_begin_eq. by destruct (os_rand_err os (trace st)).
Qed.
End CallByCall.
Section Decomp.
Variable os : OS.

Ltac unfold_calls :=
  cbv beta iota zeta
    delta [createSessionHandler createSession create_calls create_begin
           create_failed create_rest create_step bind ret].

(** The calls of [createSessionHandler] made one after the other are
    [createSessionHandler]. *)
Lemma createSessionHandler_calls st :
  (createSessionHandler os st).2 = (create_calls os st).2.
Proof.
  unfold_calls.
  destruct (generateShortHash os 6 st) as [[[h|e]|p] st1]; unfold_calls; [| |done].
  2:{ by destruct (log_Print _ st1) as [[[]|p] st2]. }
  destruct (_ || _).
  { by destruct (log_Print _ st1) as [[[]|p] st2]. }
  destruct (time_Now os st1) as [[now|p] st2]; unfold_calls; [|done].
  destruct (setupNetwork os _ st2) as [[[msg|]|p] st3]; unfold_calls; [| |done].
  { by destruct (log_Print _ st3) as [[[]|p] st4]. }
  cbn [hash].
  pose proof (λ s, startMachine_eq os s "1" ("tap1-" +:+ h) 149%N st3 eq_refl) as E1.
  cbv zeta in E1. rewrite !E1. clear E1.
  destruct (os_pty_start os (trace st3) _) as [e|p1 q1]; unfold_calls.
  { destruct (cleanupNetwork os _ _) as [[?|p] st5]; unfold_calls; [|done].
    by destruct (log_Print _ st5) as [[[]|p] st6]. }
  cbn [hash].
  match goal with |- context [startMachine os ?s "2" ?tap ?stx] =>
    pose proof (startMachine_eq os s "2" tap 150%N stx eq_refl) as E2 end.
  cbv zeta in E2. rewrite !E2. clear E2.
  destruct (os_pty_start os _ _) as [e|p2 q2]; unfold_calls.
  { destruct (cleanupNetwork os _ _) as [[?|p] st5]; unfold_calls; [|done].
    by destruct (log_Print _ st5) as [[[]|p] st6]. }
  cbn [hash]. unfold alloc, sessions_store, log_Print, deref.
  cbn [heap set_heap set_sessions set_logs].
  by destruct (_ !! _).
Qed.
End Decomp.

(** * The claims *)

(** C1 fails on the code.  In every failing [createSession] the registry
    and the heap are left as they were, but no process is ever killed and
    no pty closed.  When the launch of machine 2 fails, the process of
    machine 1, started on pty 7 as process 8, is left running: the rollback
    runs the commands of [cleanupNetwork] only.  When [setupNetwork] fails
    on the first tap, the bridge it has created is left in place: no
    cleanup command is run at all. *)
Theorem createSession_failure_leaves_resources :
  (∀ os st,
     match createSession os st with
     | (Val (Ok _), _) => True
     | (_, st') =>
         sessions st' = sessions st ∧ heap st' = heap st
         ∧ no_teardown (new_events (createSession os) st)
     end)
  ∧ (createSession os_m2_fails init).1
      = Val (Err "failed to start machine 2: error starting QEMU machine 2: fork/exec /usr/bin/qemu-system-x86_64: resource temporarily unavailable")
  ∧ EStart (qemuArgs "1" "tap1-3a3a3a" 149) (Started 7 8)
      ∈ trace (createSession os_m2_fails init).2
  ∧ no_teardown (trace (createSession os_m2_fails init).2)
  ∧ (createSession os_tap_fails init).1
      = Val (Err "failed to set up network: failed to create TAP device tap1-3a3a3a: command 'ip tuntap add mode tap tap1-3a3a3a' failed: exit status 1, output: ioctl(TUNSETIFF): Device or resource busy")
  ∧ commands (trace (createSession os_tap_fails init).2)
      = [ ["ip"; "link"; "show"; "br-3a3a3a"];
          ["ip"; "link"; "add"; "br-3a3a3a"; "type"; "bridge"];
          ["ip"; "link"; "set"; "br-3a3a3a"; "up"];
          ["ip"; "tuntap"; "add"; "mode"; "tap"; "tap1-3a3a3a"] ].
Proof.
  split; [apply createSession_failure|].
  split; [vm_compute; reflexivity|].
  split; [vm_compute; apply list_elem_of_lookup; by exists 12|].
  split; [|split; vm_compute; reflexivity].
  pose proof (createSession_failure os_m2_fails init) as H.
  destruct (createSession os_m2_fails init) as [[[l|e]|msg] st'] eqn:E;
    [by vm_compute in E | |by vm_compute in E].
  destruct H as (_ & _ & H). unfold new_events in H. rewrite E in H.
  by rewrite drop_0 in H.
Qed.

(** C2: at every moment of every run of the server, creations under way
    and the other goroutines interleaved, each entry of the registry
    points to a session that carries the entry's key and is fully
    provisioned: it holds, for the machine ids "1" and "2" and for no
    other, the pty and the process that a [pty.Start] recorded in the
    trace has returned for the QEMU command line of this machine on its
    tap, and every command that builds its bridge and its taps has been
    run without error.  A [createSession] under way changes neither the
    registry nor the heap before its last step, the store, which it
    reaches only with the network up and both machines started; so the
    session is inserted only after [setupNetwork] and both launches have
    succeeded, and a partially provisioned session is never in the
    registry.  The steps made one after the other are
    [createSessionHandler]. *)
Theorem registry_holds_provisioned_sessions (os : OS) (st : State)
    (cs : list Creating) (id : string) (l : loc) :
  interleaved os st cs →
  sessions st !! id = Some l →
  (∃ s p1 q1 p2 q2,
     heap st !! l = Some s ∧ hash s = id
     ∧ ptyFiles s = <["2" := Some p2]> (<["1" := Some p1]> ∅)
     ∧ cmds s
       = <["2" := Some (mkCmd (qemuArgs "2" ("tap2-" +:+ id) 150) (Some q2))]>
           (<["1" := Some (mkCmd (qemuArgs "1" ("tap1-" +:+ id) 149) (Some q1))]> ∅)
     ∧ dom (ptyFiles s) = {["1"; "2"]} ∧ dom (cmds s) = {["1"; "2"]}
     ∧ EStart (qemuArgs "1" ("tap1-" +:+ id) 149) (Started p1 q1) ∈ trace st
     ∧ EStart (qemuArgs "2" ("tap2-" +:+ id) 150) (Started p2 q2) ∈ trace st
     ∧ ∀ step, step ∈ build_steps id →
         ∃ r, ERun (step_command step) r ∈ trace st ∧ err r = None)
  ∧ (sessions (move os MBegin st cs).1 = sessions st
     ∧ heap (move os MBegin st cs).1 = heap st)
  ∧ (∀ i c, cs !! i = Some c →
       match c with
       | BeforeStore s =>
           machines_started (trace st) s ∧ network_up (trace st) s
           ∧ sessions (move os (MNext i) st cs).1
             = <[hash s := length (heap st)]> (sessions st)
           ∧ heap (move os (MNext i) st cs).1 = heap st ++ [s]
       | _ =>
           sessions (move os (MNext i) st cs).1 = sessions st
           ∧ heap (move os (MNext i) st cs).1 = heap st
       end)
  ∧ (createSessionHandler os st).2 = (create_calls os st).2.
Proof.
  intros Hrun Hl.
  destruct (interleaved_inv os st cs Hrun) as (Hreg & _ & Hup & Hcs).
  split; [|split; [|split]].
  - destruct (Hreg id l Hl) as (s & Hs & Hh & Hp).
    destruct (Hup l s Hs) as [(p1 & q1 & p2 & q2 & Hpty & Hcmd & H1 & H2) Hnet].
    destruct (provisioned_machines s Hp) as (Hd1 & Hd2 & _).
    unfold network_up in Hnet. rewrite Hh in *.
    exists s, p1, q1, p2, q2. by do 8 (split; [done|]).
  - apply begin_registry.
  - intros i c Hi. pose proof (move_registry os i c st cs Hcs Hi) as Hmove.
    pose proof (Forall_lookup_1 _ _ _ _ Hcs Hi) as Hc.
    destruct c as [s|s|s|s]; try done.
    destruct Hc as (_ & _ & Hst & Hnet). destruct Hmove. by repeat split.
  - apply createSessionHandler_calls.
Qed.

Lemma registry_holds_provisioned_sessions_witness :
  interleaved os_ok creation_under_way.1 creation_under_way.2
  ∧ sessions creation_under_way.1 !! "3a3a3a" = Some 0
  ∧ (∃ s0, creation_under_way.2 = [BeforeMachine2 s0] ∧ hash s0 = "3b3b3b"
           ∧ sessions creation_under_way.1 !! "3b3b3b" = None)
  ∧ (∃ s p1 q1 p2 q2,
       heap creation_under_way.1 !! 0 = Some s ∧ hash s = "3a3a3a"
       ∧ ptyFiles s = <["2" := Some p2]> (<["1" := Some p1]> ∅)
       ∧ cmds s
         = <["2" := Some (mkCmd (qemuArgs "2" ("tap2-" +:+ "3a3a3a") 150) (Some q2))]>
             (<["1" := Some (mkCmd (qemuArgs "1" ("tap1-" +:+ "3a3a3a") 149)
                               (Some q1))]> ∅)
       ∧ dom (ptyFiles s) = {["1"; "2"]} ∧ dom (cmds s) = {["1"; "2"]}
       ∧ EStart (qemuArgs "1" ("tap1-" +:+ "3a3a3a") 149) (Started p1 q1)
           ∈ trace creation_under_way.1
       ∧ EStart (qemuArgs "2" ("tap2-" +:+ "3a3a3a") 150) (Started p2 q2)
           ∈ trace creation_under_way.1
       ∧ ∀ step, step ∈ build_steps "3a3a3a" →
           ∃ r, ERun (step_command step) r ∈ trace creation_under_way.1
                ∧ err r = None)
  ∧ (sessions (move os_ok MBegin creation_under_way.1 creation_under_way.2).1
     = sessions creation_under_way.1
     ∧ heap (move os_ok MBegin creation_under_way.1 creation_under_way.2).1
       = heap creation_under_way.1)
  ∧ (∀ i c, creation_under_way.2 !! i = Some c →
       match c with
       | BeforeStore s =>
           machines_started (trace creation_under_way.1) s
           ∧ network_up (trace creation_under_way.1) s
           ∧ sessions (move os_ok (MNext i) creation_under_way.1
                         creation_under_way.2).1
             = <[hash s := length (heap creation_under_way.1)]>
                 (sessions creation_under_way.1)
           ∧ heap (move os_ok (MNext i) creation_under_way.1 creation_under_way.2).1
             = heap creation_under_way.1 ++ [s]
       | _ =>
           sessions (move os_ok (MNext i) creation_under_way.1
                       creation_under_way.2).1
           = sessions creation_under_way.1
           ∧ heap (move os_ok (MNext i) creation_under_way.1 creation_under_way.2).1
             = heap creation_under_way.1
       end)
  ∧ (createSessionHandler os_ok creation_under_way.1).2
    = (create_calls os_ok creation_under_way.1).2.
Proof.
  assert (H1 : interleaved os_ok creation_under_way.1 creation_under_way.2)
    by apply interleaved_moves, interleaved_init.
  assert (H2 : sessions creation_under_way.1 !! "3a3a3a" = Some 0)
    by (vm_compute; reflexivity).
  split; [exact H1|]. split; [exact H2|].
  split; [eexists; split; [vm_compute; reflexivity|]; split; vm_compute; reflexivity|].
  exact (registry_holds_provisioned_sessions os_ok _ _ "3a3a3a" 0 H1 H2).
Defined.

(** C3, as stated, fails: [rand.Read] gives the bytes of the identifier
    "3a3a3a" a second time while the session "3a3a3a" is registered;
    [createSession] succeeds, and the session it returns has the bridge
    name "br-3a3a3a" of the registered session. *)
Lemma createSession_reuses_names : ¬ names_unused os_same st_same.
Proof.
  intros H.
  assert (E : createSession os_same st_same
              = (Val (Ok 1), (createSession os_same st_same).2))
    by (vm_compute; reflexivity).
  assert (Hnew : heap (createSession os_same st_same).2 !! 1
                 = Some (default (newSession "" 0)
                           (heap (createSession os_same st_same).2 !! 1)))
    by (vm_compute; reflexivity).
  assert (Hreg : sessions st_same !! "3a3a3a" = Some 0) by (vm_compute; reflexivity).
  assert (Hold : heap st_same !! 0
                 = Some (default (newSession "" 0) (heap st_same !! 0)))
    by (vm_compute; reflexivity).
  apply (H _ _ _ _ _ _ "br-3a3a3a" E Hnew Hreg Hold).
  - vm_compute. by left.
  - vm_compute. by left.
Qed.

(** C3, amended: a session returned by a successful [createSession] has
    the identifier that encodes the three random bytes read by the call,
    and interface names derived from it: the bridge "br-" and the taps
    "tap1-" and "tap2-" followed by the identifier, each at most 15
    characters long.  None of them is an interface name of a session
    registered under another identifier, when the call is made or when
    it returns.  The identifier is not checked against the registry:
    when it is the identifier of a session registered when the call is
    made, the new session has exactly the interface names of that
    session and takes its entry in the registry, and nothing of the
    older session is killed or closed. *)
Theorem interface_names_distinct_unless_id_repeats (os : OS) (st : State)
    (l : loc) (st' : State) :
  reachable os st →
  createSession os st = (Val (Ok l), st') →
  ∃ s,
    heap st' !! l = Some s
    ∧ sessions st' !! hash s = Some l
    ∧ hash s = hex_EncodeToString (map (os_rand_byte os (trace st)) (seq 0 3))
    ∧ bridgeName s = "br-" +:+ hash s
    ∧ tapNames s = <["1" := "tap1-" +:+ hash s]> (<["2" := "tap2-" +:+ hash s]> ∅)
    ∧ (∀ name, name ∈ interfaces s ↔
         name = "br-" +:+ hash s ∨ name = "tap1-" +:+ hash s
         ∨ name = "tap2-" +:+ hash s)
    ∧ (∀ name, name ∈ interfaces s → String.length name ≤ 15)
    ∧ (∀ id' l' s' name,
         sessions st !! id' = Some l' → heap st !! l' = Some s' →
         id' ≠ hash s →
         name ∈ interfaces s → name ∉ interfaces s')
    ∧ (∀ l' s',
         sessions st !! hash s = Some l' → heap st !! l' = Some s' →
         (∀ name, name ∈ interfaces s ↔ name ∈ interfaces s')
         ∧ l ≠ l' ∧ heap st' !! l' = Some s'
         ∧ no_teardown (new_events (createSession os) st))
    ∧ (∀ id' l' s' name,
         sessions st' !! id' = Some l' → heap st' !! l' = Some s' →
         id' ≠ hash s →
         name ∈ interfaces s → name ∉ interfaces s').
Proof.
  intros Hreach E. destruct (reachable_inv os st Hreach) as [Hinv _].
  pose proof E as E'.
  apply createSession_inv in E as [(e & evs & lg & [=] & _)|(s & [= ->] & Hc)].
  pose proof (created_provisioned _ _ _ _ Hc) as Hp.
  pose proof (registry_inv_change os st st' (change_created _ _ _ _ Hc) Hinv) as Hinv'.
  destruct (created_state _ _ _ _ Hc) as (Hheap & Hsess & _ & evs1 & evs2 & Ht & _ & Hnt).
  pose proof (provisioned_hash_length s Hp) as Hlen.
  exists s. split; [by rewrite Hheap, list_lookup_middle|].
  split; [by rewrite Hsess, lookup_insert_eq|].
  split.
  { destruct Hc as [bytes0 now s1 st2 st3 evs lg p1 q1 p2 q2 a1 a2 _ _ h st1 _ _ _
                      Hs _ _ _ _ Hbytes _ _].
    rewrite Hs. cbn [hash]. unfold h. by rewrite Hbytes. }
  split; [apply Hp|]. split; [apply Hp|].
  split; [intros name; by apply interfaces_provisioned|].
  split.
  { intros name Hin. apply interfaces_provisioned in Hin; [|done].
    destruct Hin as [->|[->| ->]]; rewrite string_length_app, Hlen; cbn; lia. }
  split.
  { intros id' l' s' name Hid' Hs' Hne Hin.
    destruct (Hinv id' l' Hid') as (s'' & Hs'' & Hh & Hp').
    assert (s'' = s') as -> by congruence.
    apply (interfaces_disjoint s s'); [done..|congruence|done]. }
  split.
  { intros l' s' Hid' Hs'.
    destruct (Hinv _ l' Hid') as (s'' & Hs'' & Hh & Hp').
    assert (s'' = s') as -> by congruence.
    split.
    { intros name. rewrite !interfaces_provisioned by done. by rewrite Hh. }
    split; [apply lookup_lt_Some in Hs'; lia|].
    split; [rewrite Hheap; by apply lookup_app_l_Some|].
    unfold new_events. rewrite E'. cbn [snd]. by rewrite Ht, drop_app_length. }
  intros id' l' s' name Hid' Hs' Hne Hin.
  destruct (Hinv' id' l' Hid') as (s'' & Hs'' & Hh & Hp').
  assert (s'' = s') as -> by congruence.
  apply (interfaces_disjoint s s'); [done..|congruence|done].
Qed.

Lemma interface_names_distinct_unless_id_repeats_witness :
  reachable os_same st_same
  ∧ createSession os_same st_same = (Val (Ok 1), (createSession os_same st_same).2)
  ∧ sessions st_same !! "3a3a3a" = Some 0
  ∧ ∃ s,
      heap (createSession os_same st_same).2 !! 1 = Some s
      ∧ sessions (createSession os_same st_same).2 !! hash s = Some 1
      ∧ hash s = hex_EncodeToString
                   (map (os_rand_byte os_same (trace st_same)) (seq 0 3))
      ∧ bridgeName s = "br-" +:+ hash s
      ∧ tapNames s = <["1" := "tap1-" +:+ hash s]> (<["2" := "tap2-" +:+ hash s]> ∅)
      ∧ (∀ name, name ∈ interfaces s ↔
           name = "br-" +:+ hash s ∨ name = "tap1-" +:+ hash s
           ∨ name = "tap2-" +:+ hash s)
      ∧ (∀ name, name ∈ interfaces s → String.length name ≤ 15)
      ∧ (∀ id' l' s' name,
           sessions st_same !! id' = Some l' → heap st_same !! l' = Some s' →
           id' ≠ hash s →
           name ∈ interfaces s → name ∉ interfaces s')
      ∧ (∀ l' s',
           sessions st_same !! hash s = Some l' → heap st_same !! l' = Some s' →
           (∀ name, name ∈ interfaces s ↔ name ∈ interfaces s')
           ∧ 1 ≠ l' ∧ heap (createSession os_same st_same).2 !! l' = Some s'
           ∧ no_teardown (new_events (createSession os_same) st_same))
      ∧ (∀ id' l' s' name,
           sessions (createSession os_same st_same).2 !! id' = Some l' →
           heap (createSession os_same st_same).2 !! l' = Some s' →
           id' ≠ hash s →
           name ∈ interfaces s → name ∉ interfaces s').
Proof.
  assert (H1 : reachable os_same st_same) by apply reachable_run, reachable_init.
  assert (H2 : createSession os_same st_same
               = (Val (Ok 1), (createSession os_same st_same).2))
    by (vm_compute; reflexivity).
  split; [exact H1|]. split; [exact H2|].
  split; [vm_compute; reflexivity|].
  exact (interface_names_distinct_unless_id_repeats os_same st_same 1 _ H1 H2).
Defined.

(** C4, as stated, fails: [cleanupNetwork] runs the two commands on the
    bridge first and the commands on the taps after them. *)
Lemma cleanupNetwork_bridge_first :
  ¬ taps_before_bridge (newSession "3a3a3a" 0)
      (commands (new_events (cleanupNetwork os_ok (newSession "3a3a3a" 0)) init)).
Proof.
  intros H.
  specialize (H 2 0 "tap1-3a3a3a"
                ["ip"; "link"; "set"; "tap1-3a3a3a"; "down"]
                ["ip"; "link"; "set"; "br-3a3a3a"; "down"]).
  assert (2 < 0); [|lia].
  apply H.
  - vm_compute. set_solver.
  - vm_compute. reflexivity.
  - vm_compute. reflexivity.
  - set_solver.
  - cbn. set_solver.
Qed.

(** C4, amended: [cleanupNetwork] runs, for the bridge first and then for
    every tap of the session, the command that brings the interface down
    and the command that deletes it; every one of these commands is run
    whatever the outcome of the earlier ones, an error that says the device
    is already gone is passed over without a log line, any other outcome
    is logged, and the call returns [nil]. *)
Theorem cleanupNetwork_attempts_every_interface (os : OS) (session : Session)
    (st : State) :
  ∃ seed taps evs,
    taps ≡ₚ (map_to_list (tapNames session)).*2
    ∧ cleanupNetwork os session st
        = (Val None, extend st (ERange seed :: evs) (omap cleanupLog evs))
    ∧ evs = exec_all os (trace st ++ [ERange seed])
              (cleanupCommands (bridgeName session) taps)
    ∧ commands evs
        = [ ["ip"; "link"; "set"; bridgeName session; "down"];
            ["ip"; "link"; "delete"; bridgeName session; "type"; "bridge"] ]
          ++ flat_map (λ tap, [ ["ip"; "link"; "set"; tap; "down"];
                                ["ip"; "link"; "delete"; tap] ]) taps
    ∧ ∀ args r,
        cleanupLog (ERun args r)
        = match commandError args r with
          | Some msg =>
              if deviceGone msg then None
              else Some ("Error executing cleanup command " +:+ fmt_slice args
                           +:+ ": " +:+ msg)
          | None => Some ("Successfully executed cleanup command: " +:+ fmt_slice args)
          end.
Proof.
  exists (os_order os (trace st)),
         (shuffle (os_order os (trace st)) (map_to_list (tapNames session))).*2.
  eexists. split; [by rewrite shuffle_Permutation|].
  split; [apply cleanupNetwork_eq|]. split; [reflexivity|].
  split; [|done]. by rewrite commands_exec_all.
Qed.




(** C6: [setupNetwork] first asks whether the bridge name exists, deletes
    the interface when it does, creates the bridge and brings it up, then
    for each tap of the session creates it, attaches it to the bridge and
    brings it up.  The commands it runs are this plan up to and including
    the first step that fails, and the error it then returns starts with
    the description of that step, which names the interface; it returns
    [nil] exactly when the whole plan was run. *)
Theorem setupNetwork_step_sequence (os : OS) (session : Session) (st : State) :
  let br := bridgeName session in
  let found := bool_decide (err (os_exec os (trace st) ["ip"; "link"; "show"; br]) = None) in
  ∃ result evs lg taps,
    setupNetwork os session st = (Val result, extend st evs lg)
    ∧ (evs, result) = setupNetwork_spec os session (trace st)
    ∧ taps ≡ₚ (map_to_list (tapNames session)).*2
    ∧ let plan := [CheckBridge br] ++ (if found then [DeleteBridge br] else [])
                    ++ [CreateBridge br; UpBridge br]
                    ++ flat_map (tap_steps br) taps in
      match result with
      | None => commands evs = map step_command plan
      | Some e =>
          ∃ before s rest msg,
            plan = before ++ s :: rest
            ∧ commands evs = map step_command (before ++ [s])
            ∧ e = step_label s +:+ ": " +:+ msg
      end.
Proof.
  intros br found. destruct (setupNetwork_eq os session st) as [lg Heq].
  set (phase1 := [CheckBridge br] ++ (if found then [DeleteBridge br] else [])
                   ++ [CreateBridge br; UpBridge br]).
  set (seed := os_order os (trace st ++ (run_steps os (trace st) phase1).1)).
  set (taps := (shuffle seed (map_to_list (tapNames session))).*2).
  exists (setupNetwork_spec os session (trace st)).2,
         (setupNetwork_spec os session (trace st)).1, lg, taps.
  split; [exact Heq|]. split; [by destruct (setupNetwork_spec _ _ _)|].
  split; [unfold taps; by rewrite shuffle_Permutation|].
  cbv zeta. rewrite !app_assoc. rewrite <- (app_assoc _ _ [_; _]). fold phase1.
  unfold setupNetwork_spec. fold br. fold found. fold phase1.
  pose proof (run_steps_commands os (trace st) phase1) as H1.
  unfold seed in taps. clear seed.
  destruct (run_steps os (trace st) phase1) as [evs1 [e1|]] eqn:E1; cbn [fst snd] in *.
  - destruct H1 as (before & s & rest & msg & Hp & Hc & ->).
    exists before, s, (rest ++ flat_map (tap_steps br) taps), msg.
    split; [|done]. rewrite Hp. by rewrite <- app_assoc.
  - fold taps.
    pose proof (run_steps_commands os (trace st ++ evs1 ++ [ERange (os_order os (trace st ++ evs1))])
                  (flat_map (tap_steps br) taps)) as H2.
    destruct (run_steps os _ (flat_map (tap_steps br) taps)) as [evs2 [e2|]] eqn:E2;
      cbn [fst snd] in *.
    + destruct H2 as (before & s & rest & msg & Hp & Hc & ->).
      exists (phase1 ++ before), s, rest, msg.
      split; [rewrite Hp; by rewrite <- app_assoc|]. split; [|done].
      rewrite commands_app, H1.
      change (commands (ERange ?x :: evs2)) with (commands evs2).
      rewrite Hc, <- app_assoc. by rewrite !map_app.
    + rewrite commands_app, H1.
      change (commands (ERange ?x :: evs2)) with (commands evs2).
      by rewrite H2, map_app.
Qed.

(** C7: when a close request has removed a session, a second close request
    with the same identifier answers "Session not found" and does nothing
    else: the state it returns, with its trace of external calls and its
    log, is the state it was given.  The same holds in every later state in
    which the identifier is still absent from the registry. *)
Theorem close_twice_is_not_found (os : OS) (sessionID body : string) (st st' : State) :
  closeSessionHandler os sessionID st = (Val (Resp StatusOK body), st') →
  is_Some (sessions st !! sessionID)
  ∧ sessions st' = delete sessionID (sessions st)
  ∧ closeSessionHandler os sessionID st'
      = (Val (http_Error "Session not found" StatusNotFound), st')
  ∧ ∀ st2, sessions st2 !! sessionID = None →
      closeSessionHandler os sessionID st2
      = (Val (http_Error "Session not found" StatusNotFound), st2).
Proof.
  intros Hclose.
  assert (Hid : sessionID ≠ "").
  { intros ->. by vm_compute in Hclose. }
  assert (Hlater : ∀ st2, sessions st2 !! sessionID = None →
            closeSessionHandler os sessionID st2
            = (Val (http_Error "Session not found" StatusNotFound), st2)).
  { intros st2 Hnone. unfold closeSessionHandler. rewrite decide_False by done.
    unfold bind, sessions_lookup. by rewrite Hnone. }
  assert (Hfirst : is_Some (sessions st !! sessionID)
                   ∧ sessions st' = delete sessionID (sessions st)).
  { revert Hclose. unfold closeSessionHandler. rewrite decide_False by done.
    unfold bind at 1, sessions_lookup.
    destruct (sessions st !! sessionID) as [l|] eqn:El; [|done].
    unfold bind at 1, sessions_delete. unfold bind at 1, deref.
    cbn [heap set_sessions].
    destruct (heap st !! l) as [s|]; [|done].
    unfold bind at 1.
    destruct (cleanupSession_io os s (set_sessions (λ m, delete sessionID m) st))
      as ([] & evs & lg & -> & _).
    rewrite log_then. unfold ret. by intros [= <- <-]. }
  destruct Hfirst as [Hsome Hdel].
  split; [done|]. split; [done|]. split; [|exact Hlater].
  apply Hlater. by rewrite Hdel, lookup_delete_eq.
Qed.

Lemma close_twice_is_not_found_witness :
  closeSessionHandler os_ok "3a3a3a" st_one
    = (Val (Resp StatusOK ""), (closeSessionHandler os_ok "3a3a3a" st_one).2)
  ∧ is_Some (sessions st_one !! "3a3a3a")
  ∧ sessions (closeSessionHandler os_ok "3a3a3a" st_one).2
      = delete "3a3a3a" (sessions st_one)
  ∧ closeSessionHandler os_ok "3a3a3a" (closeSessionHandler os_ok "3a3a3a" st_one).2
      = (Val (http_Error "Session not found" StatusNotFound),
         (closeSessionHandler os_ok "3a3a3a" st_one).2)
  ∧ ∀ st2, sessions st2 !! "3a3a3a" = None →
      closeSessionHandler os_ok "3a3a3a" st2
      = (Val (http_Error "Session not found" StatusNotFound), st2).
Proof.
  assert (H : closeSessionHandler os_ok "3a3a3a" st_one
              = (Val (Resp StatusOK ""), (closeSessionHandler os_ok "3a3a3a" st_one).2)).
  { vm_compute. reflexivity. }
  split; [exact H|].
  exact (close_twice_is_not_found os_ok "3a3a3a" "" st_one _ H).
Defined.

(** C8: on a tick of the reaper, every registered session is examined at
    a clock reading [t] taken during the tick.  A session whose
    [lastActive] is older than the timeout at that reading is removed from
    the registry and handed to a [cleanupSession] goroutine, in the same
    tick; a session whose [lastActive] is not older than the timeout stays
    in the registry.  The tick changes no session object. *)
Theorem reaper_removes_idle_sessions (os : OS) (st : State) (id : string)
    (l : loc) (s : Session) :
  reachable os st →
  sessions st !! id = Some l →
  heap st !! l = Some s →
  ∃ st' evs gone t,
    sessionCleaner os st = (Val tt, st')
    ∧ trace st' = trace st ++ evs
    ∧ heap st' = heap st
    ∧ spawned st' = spawned st ++ gone
    ∧ ENow t ∈ evs
    ∧ ((t - lastActive s > sessionTimeout)%Z →
         sessions st' !! id = None ∧ l ∈ gone)
    ∧ ((t - lastActive s ≤ sessionTimeout)%Z → sessions st' !! id = Some l).
Proof.
  intros Hreach Hid Hs. destruct (reachable_inv os st Hreach) as [Hinv _].
  unfold sessionCleaner, bind at 1. rewrite range_map_eq.
  set (entries := shuffle (os_order os (trace st)) (map_to_list (sessions st))).
  assert (Hperm : entries ≡ₚ map_to_list (sessions st)) by apply shuffle_Permutation.
  destruct (reap_spec os entries (extend st [ERange (os_order os (trace st))] []))
    as (st' & evs & gone & Hrun & Hh & Ht & Hsp & _ & Hin).
  { rewrite Hperm. apply NoDup_fst_map_to_list. }
  { intros id' l' Hel. rewrite Hperm in Hel. apply elem_of_map_to_list in Hel.
    destruct (Hinv id' l' Hel) as (s' & Hs' & _). by exists s'. }
  destruct (Hin id l s) as (t & Htin & Hexp & Hkeep); [|done|].
  { rewrite Hperm. by apply elem_of_map_to_list. }
  exists st', (ERange (os_order os (trace st)) :: evs), gone, t.
  split; [done|].
  split; [rewrite Ht; cbn; by rewrite <- app_assoc|].
  split; [done|]. split; [by rewrite Hsp|]. split; [by right|].
  split; [done|]. intros ->%Hkeep. done.
Qed.

Lemma reaper_removes_idle_sessions_witness :
  reachable os_ok st_one
  ∧ sessions st_one !! "3a3a3a" = Some 0
  ∧ heap st_one !! 0 = Some session_one
  ∧ ∃ st' evs gone t,
      sessionCleaner os_ok st_one = (Val tt, st')
      ∧ trace st' = trace st_one ++ evs
      ∧ heap st' = heap st_one
      ∧ spawned st' = spawned st_one ++ gone
      ∧ ENow t ∈ evs
      ∧ ((t - lastActive session_one > sessionTimeout)%Z →
           sessions st' !! "3a3a3a" = None ∧ 0 ∈ gone)
      ∧ ((t - lastActive session_one ≤ sessionTimeout)%Z →
           sessions st' !! "3a3a3a" = Some 0).
Proof.
  assert (H1 : reachable os_ok st_one) by apply reachable_run, reachable_init.
  assert (H2 : sessions st_one !! "3a3a3a" = Some 0) by (vm_compute; reflexivity).
  assert (H3 : heap st_one !! 0 = Some session_one) by (vm_compute; reflexivity).
  split; [exact H1|]. split; [exact H2|]. split; [exact H3|].
  exact (reaper_removes_idle_sessions os_ok st_one "3a3a3a" 0 session_one H1 H2 H3).
Defined.




(** C10: [generateShortHash(n)] returns the hexadecimal encoding of the
    [floor(min(n,12)/2)] bytes that [rand.Read] has given it, a string of
    twice as many lowercase hexadecimal characters, for every length
    [n >= 0] (or the error of [rand.Read]); [createSession] asks for
    length 6, so the identifier of every session it returns is the
    encoding of the three bytes read at the beginning of the call and has
    exactly 6 lowercase hexadecimal characters, the bridge name 9
    characters and each tap name 11, and the error "interface name too
    long" is never returned. *)
Theorem session_id_six_hex_digits (os : OS) (st : State) (n : Z) :
  (0 ≤ n)%Z →
  let k := Z.to_nat (Z.min n 12 / 2) in
  let bytes := map (os_rand_byte os (trace st)) (seq 0 k) in
  generateShortHash os n st
    = (Val (match os_rand_err os (trace st) with
            | Some e => Err e
            | None => Ok (hex_EncodeToString bytes)
            end),
       extend st [ERand k (match os_rand_err os (trace st) with
                           | Some e => Err e
                           | None => Ok bytes
                           end)] [])
  ∧ length bytes = k
  ∧ String.length (hex_EncodeToString bytes) = 2 * k
  ∧ string_forall is_lower_hex (hex_EncodeToString bytes) = true
  ∧ match createSession os st with
    | (Val (Ok l), st') =>
        ∃ s evs,
          heap st' !! l = Some s
          ∧ os_rand_err os (trace st) = None
          ∧ hash s = hex_EncodeToString (map (os_rand_byte os (trace st)) (seq 0 3))
          ∧ trace st'
            = trace st ++ ERand 3 (Ok (map (os_rand_byte os (trace st)) (seq 0 3))) :: evs
          ∧ String.length (hash s) = 6
          ∧ string_forall is_lower_hex (hash s) = true
          ∧ bridgeName s = "br-" +:+ hash s
          ∧ String.length (bridgeName s) = 9
          ∧ ∀ id tap, tapNames s !! id = Some tap →
              (tap = "tap1-" +:+ hash s ∨ tap = "tap2-" +:+ hash s)
              ∧ String.length tap = 11
    | (Val (Err e), _) => String.prefix "interface name too long" e = false
    | (Panic _, _) => False
    end.
Proof.
  intros Hn k bytes. split; [|split; [|split; [|split]]].
  - rewrite generateShortHash_eq by done. fold k. fold bytes.
    unfold extend, set_trace. cbn [trace logs heap sessions spawned].
    rewrite app_nil_r. by destruct (os_rand_err os (trace st)).
  - unfold bytes. by rewrite length_map, length_seq.
  - unfold bytes. by rewrite hex_EncodeToString_length, length_map, length_seq.
  - apply hex_EncodeToString_lower.
  - pose proof (generateShortHash_eq os 6 st ltac:(lia)) as Hgen. cbv zeta in Hgen.
    destruct (createSession os st) as [r st'] eqn:E.
    pose proof E as E'.
    apply createSession_inv in E as [(e & evs & lg & -> & -> & He & _)|(s & -> & Hc)];
      [done|].
    destruct (created_provisioned _ _ _ _ Hc) as ((bytes' & Hb & Hh) & Hbr & Htap & _).
    destruct (created_state _ _ _ _ Hc) as (Hheap & _).
    assert (Hlen : String.length (hash s) = 6).
    { by rewrite Hh, hex_EncodeToString_length, Hb. }
    assert (Hrand : os_rand_err os (trace st) = None).
    { revert E'. unfold createSession. unfold bind at 1. rewrite Hgen.
      by destruct (os_rand_err os (trace st)). }
    destruct Hc as [bytes0 now s1 st2 st3 evs lg p1 q1 p2 q2 a1 a2 _ _ h st1 _ _ _
                      Hs _ _ _ Hst' Hbytes _ _].
    exists s, (ENow now :: evs). rewrite Hheap, list_lookup_middle by done.
    split; [done|]. split; [done|].
    split; [rewrite Hs; cbn [hash]; unfold h; by rewrite Hbytes|].
    split; [rewrite Hst'; cbn [trace]; by rewrite Hbytes|].
    split; [done|].
    split; [rewrite Hh; apply hex_EncodeToString_lower|].
    split; [done|].
    split; [by rewrite Hbr, string_length_app, Hlen|].
    intros id tap. rewrite Htap.
    intros [[_ <-]|[_ [[_ <-]|[_ ?]]%lookup_insert_Some]]%lookup_insert_Some;
      [split; [by left|by rewrite string_length_app, Hlen]
      |split; [by right|by rewrite string_length_app, Hlen]|done].
Qed.

Lemma session_id_six_hex_digits_witness :
  (0 ≤ 6)%Z
  ∧ generateShortHash os_ok 6 init
    = (Val (Ok "3a3a3a"), extend init [ERand 3 (Ok [x3a; x3a; x3a])] [])
  ∧ length [x3a; x3a; x3a] = 3
  ∧ String.length "3a3a3a" = 2 * 3
  ∧ string_forall is_lower_hex "3a3a3a" = true
  ∧ ∃ s evs,
      heap (createSession os_ok init).2 !! 0 = Some s
      ∧ os_rand_err os_ok (trace init) = None
      ∧ hash s = "3a3a3a"
      ∧ trace (createSession os_ok init).2
        = trace init ++ ERand 3 (Ok [x3a; x3a; x3a]) :: evs
      ∧ String.length (hash s) = 6
      ∧ string_forall is_lower_hex (hash s) = true
      ∧ bridgeName s = "br-" +:+ hash s
      ∧ String.length (bridgeName s) = 9
      ∧ ∀ id tap, tapNames s !! id = Some tap →
          (tap = "tap1-" +:+ hash s ∨ tap = "tap2-" +:+ hash s)
          ∧ String.length tap = 11.
Proof.
  assert (H1 : (0 ≤ 6)%Z) by lia.
  split; [exact H1|].
  exact (session_id_six_hex_digits os_ok init 6 H1).
Defined.

(** * Further lemmas *)

Lemma quot2_cases (n : Z) :
  ((0 ≤ n ∧ n ÷ 2 = n / 2) ∨ (n = -1 ∧ n ÷ 2 = 0) ∨ (n ≤ -2 ∧ n ÷ 2 < 0))%Z.
Proof.
  destruct (Z.le_gt_cases 0 n) as [H|H].
  - left. split; [done|]. apply Z.quot_div_nonneg; lia.
  - right. destruct (decide (n = -1)%Z) as [->|Hne]; [by left|right].
    split; [lia|].
    replace n with (- - n)%Z by lia. rewrite Z.quot_opp_l by lia.
    rewrite Z.quot_div_nonneg by lia.
    assert (1 ≤ - n / 2)%Z; [|lia].
    apply Z.div_le_lower_bound; lia.
Qed.

Lemma hex_of_byte_decode (b : byte) :
  hex_decode (hex_of_byte (Byte.to_N b)) = [Byte.to_N b].
Proof. destruct b; reflexivity. Qed.

Lemma hex_decode_encode (bs : list byte) :
  hex_decode (hex_EncodeToString bs) = map Byte.to_N bs.
Proof.
  induction bs as [|b bs IH]; [done|].
  cbn [hex_EncodeToString map]. rewrite <- IH.
  pose proof (hex_of_byte_decode b) as Hb. unfold hex_of_byte in *.
  change (String ?c1 (String ?c2 "") +:+ ?r) with (String c1 (String c2 r)).
  cbn [hex_decode] in *. by injection Hb as ->.
Qed.

Lemma hex_EncodeToString_inj (bs1 bs2 : list byte) :
  hex_EncodeToString bs1 = hex_EncodeToString bs2 → bs1 = bs2.
Proof.
  intros H. apply (f_equal hex_decode) in H. rewrite !hex_decode_encode in H.
  revert bs2 H. induction bs1 as [|b1 bs1 IH]; intros [|b2 bs2] H; try done.
  cbn [map] in H. injection H as Hb H. f_equal; [|by apply IH].
  apply (f_equal Byte.of_N) in Hb. rewrite !Byte.of_to_N in Hb. congruence.
Qed.

Lemma hex_of_byte_inj (v1 v2 : N) :
  (v1 < 256)%N → (v2 < 256)%N → hex_of_byte v1 = hex_of_byte v2 → v1 = v2.
Proof.
  intros H1 H2 H.
  destruct (Byte.of_N v1) as [b1|] eqn:E1;
    [|apply Byte.of_N_None_iff in E1; lia].
  destruct (Byte.of_N v2) as [b2|] eqn:E2;
    [|apply Byte.of_N_None_iff in E2; lia].
  apply Byte.to_of_N in E1, E2. subst v1 v2.
  apply (f_equal hex_decode) in H. rewrite !hex_of_byte_decode in H. congruence.
Qed.

Lemma add100_mod_inj (x y : N) :
  (x < 256)%N → (y < 256)%N →
  ((100 + x) mod 256 = (100 + y) mod 256)%N → x = y.
Proof.
  intros Hx Hy H.
  assert (Hm : ∀ z, (z < 256)%N →
            ((100 + z) mod 256 = if (z <? 156)%N then 100 + z else z - 156)%N).
  { intros z Hz. destruct (N.ltb_spec z 156).
    - apply N.mod_small. lia.
    - symmetry. apply (N.mod_unique _ _ 1); lia. }
  rewrite !Hm in H by done.
  destruct (N.ltb_spec x 156), (N.ltb_spec y 156); lia.
Qed.

Section Teardown.
Variable os : OS.

Lemma killMachines_eq h l st :
  ∃ lg, killMachines os h l st
        = (Val tt, extend st (kill_all os (trace st) (started_pids l)) lg).
Proof.
  revert st. induction l as [|[id cmd] l IH]; intros st.
  { exists []. cbn. by rewrite extend_nil. }
  cbn [killMachines]. unfold started_pids in *. cbn [omap list_omap snd].
  destruct cmd as [[args [pid|]]|].
  - cbn [kill_all]. unfold bind at 1, bind at 1. rewrite Process_Kill_eq.
    assert (Hlog : ∃ line,
      match os_kill os (trace st) pid with
      | Some msg => log_Print ("Error terminating machine " +:+ id +:+ ": " +:+ msg)
      | None => log_Print ("Machine " +:+ id +:+ " in session " +:+ h +:+ " terminated")
      end (extend st [EKill pid (os_kill os (trace st) pid)] [])
      = (Val tt, extend st [EKill pid (os_kill os (trace st) pid)] [line])).
    { destruct (os_kill os (trace st) pid); rewrite log_Print_eq, extend_extend; eauto. }
    destruct Hlog as [line ->].
    destruct (IH (extend st [EKill pid (os_kill os (trace st) pid)] [line])) as [lg ->].
    exists ([line] ++ lg). by rewrite extend_extend.
  - unfold bind at 1, ret at 1. apply IH.
  - unfold bind at 1, ret at 1. apply IH.
Qed.

Lemma closePtys_eq l st :
  closePtys l st = (Val tt, extend st (EClose <$> open_ptys l) []).
Proof.
  revert st. induction l as [|[id pt] l IH]; intros st.
  { cbn. by rewrite extend_nil. }
  cbn [closePtys]. unfold open_ptys in *. cbn [omap list_omap snd].
  destruct pt as [f|].
  - unfold bind at 1. rewrite File_Close_eq, IH. cbn [fmap list_fmap].
    by rewrite extend_extend.
  - unfold bind at 1, ret at 1. apply IH.
Qed.

Lemma killed_kill_all tr pids : killed (kill_all os tr pids) = pids.
Proof.
  revert tr. induction pids as [|p pids IH]; intros tr; [done|].
  cbn [kill_all]. unfold killed in *. cbn [omap list_omap]. by rewrite IH.
Qed.

Lemma closed_kill_all tr pids : closed (kill_all os tr pids) = [].
Proof.
  revert tr. induction pids as [|p pids IH]; intros tr; [done|].
  cbn [kill_all]. unfold closed in *. cbn [omap list_omap]. by rewrite IH.
Qed.

Lemma commands_kill_all tr pids : commands (kill_all os tr pids) = [].
Proof.
  revert tr. induction pids as [|p pids IH]; intros tr; [done|].
  cbn [kill_all]. unfold commands in *. cbn [omap list_omap]. by rewrite IH.
Qed.

Lemma killed_exec_all tr cmds : killed (exec_all os tr cmds) = [].
Proof.
  revert tr. induction cmds as [|c cmds IH]; intros tr; [done|].
  cbn [exec_all]. unfold killed in *. cbn [omap list_omap]. by rewrite IH.
Qed.

Lemma closed_exec_all tr cmds : closed (exec_all os tr cmds) = [].
Proof.
  revert tr. induction cmds as [|c cmds IH]; intros tr; [done|].
  cbn [exec_all]. unfold closed in *. cbn [omap list_omap]. by rewrite IH.
Qed.

Lemma killed_closes fs : killed (EClose <$> fs) = [].
Proof. induction fs as [|f fs IH]; [done|]. by cbn. Qed.

Lemma closed_closes fs : closed (EClose <$> fs) = fs.
Proof.
  induction fs as [|f fs IH]; [done|].
  unfold closed in *. cbn [fmap list_fmap omap list_omap]. by rewrite IH.
Qed.

Lemma commands_closes fs : commands (EClose <$> fs) = [].
Proof. induction fs as [|f fs IH]; [done|]. by cbn. Qed.

(** The three phases of [cleanupSession]. *)
Lemma cleanupSession_phases session st :
  ∃ kills closes net lg taps,
    cleanupSession os session st
      = (Val tt, extend st (kills ++ closes ++ net) lg)
    ∧ killed kills ≡ₚ started_pids (map_to_list (cmds session))
    ∧ closed kills = [] ∧ commands kills = []
    ∧ closed closes ≡ₚ open_ptys (map_to_list (ptyFiles session))
    ∧ killed closes = [] ∧ commands closes = []
    ∧ taps ≡ₚ (map_to_list (tapNames session)).*2
    ∧ commands net = cleanupCommands (bridgeName session) taps
    ∧ killed net = [] ∧ closed net = [].
Proof.
  unfold cleanupSession. unfold bind at 1. rewrite range_map_eq.
  set (seed1 := os_order os (trace st)).
  set (ms := shuffle seed1 (map_to_list (cmds session))).
  unfold bind at 1.
  destruct (killMachines_eq (hash session) ms (extend st [ERange seed1] [])) as [lg1 ->].
  rewrite extend_extend. cbn [trace extend].
  set (kills := [ERange seed1] ++ kill_all os (trace st ++ [ERange seed1]) (started_pids ms)).
  unfold bind at 1. rewrite range_map_eq. rewrite extend_extend. cbn [trace extend].
  set (seed2 := os_order os (trace st ++ kills)).
  set (ps := shuffle seed2 (map_to_list (ptyFiles session))).
  unfold bind at 1. rewrite closePtys_eq, extend_extend.
  set (closes := [ERange seed2] ++ (EClose <$> open_ptys ps)).
  unfold bind at 1. rewrite cleanupNetwork_eq. cbn [trace extend].
  rewrite extend_extend.
  match goal with |- context [ERange ?s :: exec_all os ?t (cleanupCommands ?b ?tp)] =>
    set (taps := tp); set (net := ERange s :: exec_all os t (cleanupCommands b taps)) end.
  unfold bind at 1. rewrite log_Print_eq, extend_extend.
  rewrite log_Print_eq, extend_extend.
  exists kills, closes, net. eexists. exists taps.
  split. { rewrite !app_nil_r. unfold closes. by rewrite <- !app_assoc. }
  unfold kills, closes, net.
  change (killed ([ERange ?s] ++ ?l)) with (killed l).
  change (closed ([ERange ?s] ++ ?l)) with (closed l).
  change (commands ([ERange ?s] ++ ?l)) with (commands l).
  change (killed (ERange ?s :: ?l)) with (killed l).
  change (closed (ERange ?s :: ?l)) with (closed l).
  change (commands (ERange ?s :: ?l)) with (commands l).
  rewrite killed_kill_all, closed_kill_all, commands_kill_all.
  rewrite killed_closes, closed_closes, commands_closes.
  rewrite commands_exec_all, killed_exec_all, closed_exec_all.
  split; [unfold started_pids, ms; by rewrite shuffle_Permutation|].
  split; [done|]. split; [done|].
  split; [unfold open_ptys, ps; by rewrite shuffle_Permutation|].
  split; [done|]. split; [done|].
  split; [unfold taps; by rewrite shuffle_Permutation|]. done.
Qed.
End Teardown.

Section Pending.
Variable os : OS.

Lemma keeps_ret {A} (a : A) : keeps_spawned (ret a).
Proof. done. Qed.

Lemma keeps_bind {A B} (m : M A) (k : A → M B) :
  keeps_spawned m → (∀ a, keeps_spawned (k a)) → keeps_spawned (bind m k).
Proof.
  intros Hm Hk st. unfold bind. specialize (Hm st).
  destruct (m st) as [[a|msg] st1]; cbn [snd] in *; [|done].
  by rewrite Hk.
Qed.

Lemma keeps_io {A} (m : M A) : (∀ st, io m st (λ _ _ _, True)) → keeps_spawned m.
Proof. intros H st. by destruct (H st) as (a & evs & lg & -> & _). Qed.

Lemma keeps_log line : keeps_spawned (log_Print line).
Proof. done. Qed.

Lemma keeps_createSession : keeps_spawned (createSession os).
Proof.
  intros st. destruct (createSession os st) as [r st'] eqn:E.
  cbn [snd].
  apply createSession_inv in E as [(e & evs & lg & -> & -> & _)|(s & -> & Hc)]; [done|].
  by destruct (created_state _ _ _ _ Hc) as (_ & _ & -> & _).
Qed.

Lemma keeps_deref l : keeps_spawned (deref l).
Proof. intros st. unfold deref. by destruct (heap st !! l). Qed.

Lemma keeps_store l t : keeps_spawned (store_lastActive l t).
Proof. intros st. rewrite store_lastActive_eq. by destruct (heap st !! l). Qed.

Lemma keeps_now : keeps_spawned (time_Now os).
Proof. done. Qed.

Lemma keeps_createSessionHandler : keeps_spawned (createSessionHandler os).
Proof.
  apply keeps_bind; [apply keeps_createSession|]. intros [l|e].
  - apply keeps_bind; [apply keeps_deref|]. intros s. apply keeps_ret.
  - apply keeps_bind; [apply keeps_log|]. intros _. apply keeps_ret.
Qed.

Lemma keeps_closeSessionHandler id : keeps_spawned (closeSessionHandler os id).
Proof.
  unfold closeSessionHandler. case_decide; [apply keeps_ret|].
  apply keeps_bind; [done|]. intros [l|]; [|apply keeps_ret].
  apply keeps_bind; [done|]. intros _.
  apply keeps_bind; [apply keeps_deref|]. intros s.
  apply keeps_bind; [apply keeps_io, cleanupSession_io|]. intros _.
  apply keeps_bind; [apply keeps_log|]. intros _. apply keeps_ret.
Qed.

Lemma keeps_wsHandler id m up : keeps_spawned (wsHandler os id m up).
Proof.
  unfold wsHandler. case_decide; [apply keeps_ret|]. case_decide; [apply keeps_ret|].
  apply keeps_bind; [done|]. intros [l|]; [|apply keeps_ret].
  apply keeps_bind; [apply keeps_now|]. intros now.
  apply keeps_bind; [apply keeps_store|]. intros _.
  destruct up.
  - apply keeps_bind; [apply keeps_log|]. intros _. apply keeps_ret.
  - apply keeps_bind; [apply keeps_deref|]. intros s.
    destruct (ptyFiles s !! m); [apply keeps_ret|].
    apply keeps_bind; [apply keeps_log|]. intros _. apply keeps_ret.
Qed.

Lemma keeps_wsReadStep l ptmx rd : keeps_spawned (wsReadStep os l ptmx rd).
Proof.
  unfold wsReadStep. destruct rd as [e|ty msg].
  { apply keeps_bind; [apply keeps_log|]. intros _. apply keeps_ret. }
  apply keeps_bind.
  { case_decide; [|apply keeps_ret]. destruct ptmx; [done|apply keeps_ret]. }
  intros [e|].
  - apply keeps_bind; [apply keeps_log|]. intros _. apply keeps_ret.
  - apply keeps_bind; [apply keeps_now|]. intros now.
    apply keeps_bind; [apply keeps_store|]. intros _. apply keeps_ret.
Qed.

Lemma change_heap_length st st' :
  change os st st' → length (heap st) ≤ length (heap st').
Proof.
  intros [evs Ht Hh Hs|s evs Ht Hh Hs Hp Hn _ _|l s evs1 evs2 Hl Ht Hh Hs]; rewrite Hh.
  - done.
  - rewrite length_app. lia.
  - by rewrite length_insert.
Qed.
End Pending.

Section Scheduling.
Variable os : OS.

Lemma reap_gone entries st :
  NoDup entries.*1 →
  (∀ id l, (id, l) ∈ entries → is_Some (heap st !! l)) →
  ∃ st' gone,
    reap os entries st = (Val tt, st')
    ∧ heap st' = heap st
    ∧ gone `sublist_of` entries
    ∧ spawned st' = spawned st ++ gone.*2
    ∧ ∀ i, sessions st' !! i
           = if decide (i ∈ gone.*1) then None else sessions st !! i.
Proof.
  revert st. induction entries as [|[id0 l0] entries IH]; intros st Hnd Hvalid.
  { exists st, []. rewrite app_nil_r. repeat split; try done. }
  cbn [fmap list_fmap fst] in Hnd. apply NoDup_cons in Hnd as [Hid0 Hnd].
  destruct (Hvalid id0 l0) as [s0 Hs0]; [by left|].
  cbn [reap]. unfold bind at 1, deref. rewrite Hs0.
  unfold bind at 1, time_Since, bind at 1. rewrite time_Now_eq. unfold ret at 1.
  unfold bind at 1.
  destruct (time_Sub _ _ >? sessionTimeout)%Z.
  - rewrite log_then. unfold bind at 1, sessions_delete, go_cleanupSession.
    match goal with |- context [reap os entries ?s] => set (stb := s) end.
    destruct (IH stb Hnd) as (st' & gone & -> & Hh & Hsub & Hsp & Hlook).
    { intros id l Hin. apply (Hvalid id l). by right. }
    exists st', ((id0, l0) :: gone).
    split; [done|]. split; [done|]. split; [by apply sublist_skip|].
    split; [rewrite Hsp; cbn; by rewrite <- app_assoc|].
    intros i. rewrite Hlook. unfold stb.
    cbn [sessions set_spawned set_sessions extend].
    change (((id0, l0) :: gone).*1) with (id0 :: gone.*1).
    destruct (decide (i ∈ gone.*1)) as [Hg|Hg],
             (decide (i ∈ id0 :: gone.*1)) as [Hc|Hc]; try done.
    + exfalso. apply Hc. by right.
    + apply elem_of_cons in Hc as [->|Hc]; [|done]. by rewrite lookup_delete_eq.
    + rewrite lookup_delete_ne; [done|]. intros <-. apply Hc. by left.
  - unfold ret at 1.
    match goal with |- context [reap os entries ?s] => set (stb := s) end.
    destruct (IH stb Hnd) as (st' & gone & -> & Hh & Hsub & Hsp & Hlook).
    { intros id l Hin. apply (Hvalid id l). by right. }
    exists st', gone.
    split; [done|]. split; [done|]. split; [by apply sublist_cons|].
    split; [done|]. done.
Qed.

Lemma teardown_inv_change st st' :
  registry_inv st → teardown_inv st → change os st st' →
  spawned st' = spawned st → teardown_inv st'.
Proof.
  intros Hreg (Hnd & Hval & Hdis & Hinj) Hch Hsp.
  assert (Hlen : ∀ id l, sessions st !! id = Some l → l < length (heap st)).
  { intros id l Hl. destruct (Hreg id l Hl) as (s & Hs & _). by eapply lookup_lt_Some. }
  pose proof (change_heap_length os st st' Hch) as Hgrow.
  unfold teardown_inv. rewrite Hsp.
  split; [done|]. split; [intros l Hl; specialize (Hval l Hl); lia|].
  destruct Hch as [evs Ht Hh Hs|s evs Ht Hh Hs Hp Hn _ _|l s evs1 evs2 Hl Ht Hh Hs].
  - split.
    + intros id l Hl. eapply Hdis, lookup_weaken; eauto.
    + intros id1 id2 l H1 H2. eapply Hinj; eapply lookup_weaken; eauto.
  - rewrite Hs. split.
    + intros id l [[_ <-]|[_ Hl]]%lookup_insert_Some; [|by eapply Hdis].
      intros Hin%Hval. lia.
    + intros id1 id2 l [[<- <-]|[? H1]]%lookup_insert_Some
        [[<- ?]|[? H2]]%lookup_insert_Some; try done.
      * apply Hlen in H2. lia.
      * apply Hlen in H1. lia.
      * by eapply Hinj.
  - rewrite Hs. done.
Qed.

Lemma NoDup_locs (m : gmap string loc) (gone : list (string * loc)) :
  (∀ id1 id2 l, m !! id1 = Some l → m !! id2 = Some l → id1 = id2) →
  (∀ id l, (id, l) ∈ gone → m !! id = Some l) →
  NoDup gone.*1 → NoDup gone.*2.
Proof.
  intros Hinj. induction gone as [|[id l] gone IH]; intros Hin Hnd; [constructor|].
  cbn [fmap list_fmap fst snd] in *. apply NoDup_cons in Hnd as [Hid Hnd].
  apply NoDup_cons. split.
  - intros ([id' l'] & Heq & Hel)%list_elem_of_fmap. cbn in Heq. subst l'.
    assert (id = id') as <-.
    { eapply Hinj; apply Hin; [by left|by right]. }
    apply Hid, list_elem_of_fmap. by exists (id, l).
  - apply IH; [|done]. intros ???. apply Hin. by right.
Qed.

Lemma teardown_inv_run a st :
  registry_inv st → teardown_inv st → teardown_inv (run os a st).
Proof.
  intros Hreg Hinv.
  destruct a as [|id|id m up|l ptmx rd| |i].
  - apply (teardown_inv_change st); [done|done|apply (run_change os ACreate)|].
    apply keeps_createSessionHandler.
  - apply (teardown_inv_change st); [done|done|apply (run_change os (AClose id))|].
    apply keeps_closeSessionHandler.
  - apply (teardown_inv_change st); [done|done|apply (run_change os (AAttach id m up))|].
    apply keeps_wsHandler.
  - apply (teardown_inv_change st); [done|done|apply (run_change os (ARead l ptmx rd))|].
    apply keeps_wsReadStep.
  - (* the reaper *)
    destruct Hinv as (Hnd & Hval & Hdis & Hinj). cbn [run].
    unfold sessionCleaner, bind at 1. rewrite range_map_eq.
    set (entries := shuffle (os_order os (trace st)) (map_to_list (sessions st))).
    assert (Hperm : entries ≡ₚ map_to_list (sessions st)) by apply shuffle_Permutation.
    destruct (reap_gone entries (extend st [ERange (os_order os (trace st))] []))
      as (st' & gone & -> & Hh & Hsub & Hsp & Hlook).
    { rewrite Hperm. apply NoDup_fst_map_to_list. }
    { intros id' l' Hel. rewrite Hperm in Hel. apply elem_of_map_to_list in Hel.
      destruct (Hreg id' l' Hel) as (s' & Hs' & _). by exists s'. }
    cbn [snd]. cbn [spawned sessions heap extend] in Hsp, Hlook, Hh.
    assert (Hgone : ∀ id l, (id, l) ∈ gone → sessions st !! id = Some l).
    { intros id l Hel. apply elem_of_map_to_list. rewrite <- Hperm.
      by eapply elem_of_sublist. }
    assert (Hgnd : NoDup gone.*1).
    { eapply sublist_NoDup; [|by apply fmap_sublist].
      rewrite Hperm. apply NoDup_fst_map_to_list. }
    assert (Hloc : ∀ l, l ∈ gone.*2 → ∃ id, (id, l) ∈ gone).
    { intros l ([id l'] & Heq & Hel)%list_elem_of_fmap. cbn in Heq. subst l'. by exists id. }
    assert (Hkept : ∀ id l, sessions st' !! id = Some l →
              (id ∉ gone.*1) ∧ sessions st !! id = Some l).
    { intros id l. rewrite Hlook. by case_decide. }
    unfold teardown_inv. rewrite Hsp, Hh. split; [|split; [|split]].
    + apply NoDup_app. split; [done|]. split; [|by eapply NoDup_locs].
      intros l Hl [id Hel]%Hloc. by eapply Hdis; [apply Hgone|].
    + intros l [Hl|[id Hel]%Hloc]%elem_of_app; [by apply Hval|].
      destruct (Hreg id l (Hgone _ _ Hel)) as (s & Hs & _). by eapply lookup_lt_Some.
    + intros id l [Hnot Hl]%Hkept [Hin|[id' Hel]%Hloc]%elem_of_app.
      * by eapply Hdis.
      * assert (id = id') as <- by (eapply Hinj; [done|by apply Hgone]).
        apply Hnot, list_elem_of_fmap. by exists (id, l).
    + intros id1 id2 l [_ H1]%Hkept [_ H2]%Hkept. by eapply Hinj.
  - (* a goroutine of the reaper *)
    destruct Hinv as (Hnd & Hval & Hdis & Hinj). cbn [run].
    unfold run_goroutine. destruct (spawned st !! i) as [l|] eqn:Ei; [|done].
    assert (Hst : ∃ evs lg,
      ((session <- deref l ;; cleanupSession os session)
         (set_spawned (λ g, delete i g) st)).2
      = extend (set_spawned (λ g, delete i g) st) evs lg).
    { unfold bind, deref. cbn [heap set_spawned].
      destruct (heap st !! l) as [s|].
      - destruct (cleanupSession_io os s (set_spawned (λ g, delete i g) st))
          as ([] & evs & lg & -> & _). eauto.
      - exists [], []. by rewrite extend_nil. }
    destruct Hst as (evs & lg & ->).
    assert (Hsub : delete i (spawned st) `sublist_of` spawned st) by apply sublist_delete.
    unfold teardown_inv. cbn [spawned heap sessions extend set_spawned].
    split; [by eapply sublist_NoDup|].
    split; [intros l' Hl'; apply Hval; by eapply elem_of_sublist|].
    split; [|done].
    intros id l' Hl' Hin. eapply Hdis; [done|]. by eapply elem_of_sublist.
Qed.

Lemma reachable_teardown_inv st : reachable os st → teardown_inv st.
Proof.
  induction 1 as [|a st Hreach IH].
  - repeat split; cbn; try done; try constructor.
    intros l Hl. by apply elem_of_nil in Hl.
  - apply teardown_inv_run; [|done]. by destruct (reachable_inv os st Hreach).
Qed.
End Scheduling.

Lemma killed_app evs1 evs2 : killed (evs1 ++ evs2) = killed evs1 ++ killed evs2.
Proof. apply omap_app. Qed.

Lemma closed_app evs1 evs2 : closed (evs1 ++ evs2) = closed evs1 ++ closed evs2.
Proof. apply omap_app. Qed.

Lemma provisioned_handles s :
  provisioned s →
  ∃ f1 f2 c1 c2 q1 q2,
    ptyFiles s !! "1" = Some (Some f1) ∧ ptyFiles s !! "2" = Some (Some f2)
    ∧ cmds s !! "1" = Some (Some c1) ∧ cmds s !! "2" = Some (Some c2)
    ∧ Process c1 = Some q1 ∧ Process c2 = Some q2
    ∧ open_ptys (map_to_list (ptyFiles s)) ≡ₚ [f1; f2]
    ∧ started_pids (map_to_list (cmds s)) ≡ₚ [q1; q2].
Proof.
  intros (_ & _ & _ & (p1 & p2 & Hpty) & (c1 & c2 & q1 & q2 & Hcmd & H1 & H2)).
  exists p1, p2, c1, c2, q1, q2. rewrite Hpty, Hcmd.
  rewrite !lookup_insert_eq, !lookup_insert_ne, !lookup_insert_eq by done.
  do 6 (split; [done|]).
  unfold open_ptys, started_pids.
  rewrite !map_to_list_insert by (by rewrite ?lookup_insert_ne, ?lookup_empty).
  rewrite !map_to_list_empty. cbn [omap list_omap snd].
  destruct c1 as [a1 pr1], c2 as [a2 pr2]. cbn in H1, H2. subst pr1 pr2.
  split; apply Permutation_swap.
Qed.

Section Handlers.
Variable os : OS.

Lemma teardown_events session st0 :
  provisioned session →
  ∃ evs lg f1 f2 c1 c2 q1 q2,
    cleanupSession os session st0 = (Val tt, extend st0 evs lg)
    ∧ ptyFiles session !! "1" = Some (Some f1)
    ∧ ptyFiles session !! "2" = Some (Some f2)
    ∧ cmds session !! "1" = Some (Some c1) ∧ Process c1 = Some q1
    ∧ cmds session !! "2" = Some (Some c2) ∧ Process c2 = Some q2
    ∧ killed evs ≡ₚ [q1; q2] ∧ closed evs ≡ₚ [f1; f2].
Proof.
  intros Hp.
  destruct (provisioned_handles session Hp)
    as (f1 & f2 & c1 & c2 & q1 & q2 & Hf1 & Hf2 & Hc1 & Hc2 & Hq1 & Hq2 & Hpty & Hpid).
  destruct (cleanupSession_phases os session st0)
    as (kills & closes & net & lg & taps & Heq & Hk1 & Hk2 & _ & Hc3 & Hc4 & _ & _ & _
        & Hn1 & Hn2).
  exists (kills ++ closes ++ net), lg, f1, f2, c1, c2, q1, q2.
  do 7 (split; [done|]).
  rewrite !killed_app, !closed_app, Hk2, Hc4, Hn1, Hn2, !app_nil_r. cbn [app].
  by rewrite Hk1, Hc3, Hpty, Hpid.
Qed.
End Handlers.

Section HeapInvariant.
Variable os : OS.

Lemma heap_provisioned_change st st' :
  (∀ l s, heap st !! l = Some s → provisioned s) →
  change os st st' →
  ∀ l s, heap st' !! l = Some s → provisioned s.
Proof.
  intros Hinv [evs Ht Hh Hs|s0 evs Ht Hh Hs Hp Hn _ _|l0 s0 evs1 evs2 Hl Ht Hh Hs] l s;
    rewrite Hh.
  - apply Hinv.
  - intros [Hin|[_ Hin]]%lookup_app_Some; [by eapply Hinv|].
    apply list_lookup_singleton_Some in Hin as [_ <-]. done.
  - destruct (decide (l = l0)) as [->|Hne].
    + rewrite list_lookup_insert_eq by (by eapply lookup_lt_Some).
      intros [= <-]. apply provisioned_set_lastActive. by eapply Hinv.
    + rewrite list_lookup_insert_ne by done. apply Hinv.
Qed.

Lemma reachable_heap_provisioned st :
  reachable os st → ∀ l s, heap st !! l = Some s → provisioned s.
Proof.
  induction 1 as [|a st Hreach IH]; [by intros l s [=]|].
  eapply heap_provisioned_change; [exact IH|apply run_change].
Qed.

Lemma NoDup_delete_lookup {A} (l : list A) i x :
  NoDup l → l !! i = Some x → x ∉ delete i l.
Proof.
  intros Hnd Hi. rewrite <- (take_drop_middle l i x Hi) in Hnd.
  rewrite delete_take_drop.
  apply NoDup_app in Hnd as (_ & Hdis & Hnd). apply NoDup_cons in Hnd as [Hx _].
  intros [Hin|Hin]%elem_of_app; [|done].
  apply (Hdis x Hin). by left.
Qed.
End HeapInvariant.

Section ReadLoop.
Variable os : OS.

Lemma written_app f evs1 evs2 : written f (evs1 ++ evs2) = written f evs1 ++ written f evs2.
Proof. apply omap_app. Qed.

(** One iteration of the read loop on a live session. *)
Lemma wsReadStep_written l f rd s st :
  heap st !! l = Some s →
  ∃ b evs st1,
    wsReadStep os l (Some f) rd st = (Val b, st1)
    ∧ trace st1 = trace st ++ evs
    ∧ is_Some (heap st1 !! l)
    ∧ sessions st1 = sessions st
    ∧ written f evs = payloads [rd]
    ∧ (∀ f', f' ≠ f → written f' evs = [])
    ∧ (b = true → ∃ ty msg, rd = ReadMsg ty msg)
    ∧ (b = false →
         (∃ e, rd = ReadErr e)
         ∨ ∃ ty msg tr, rd = ReadMsg ty msg ∧ os_write os tr f msg ≠ None).
Proof.
  intros Hs. destruct rd as [e|ty msg].
  { unfold wsReadStep. rewrite log_then. unfold ret.
    exists false, [], (extend st [] ["Error reading from WebSocket: " +:+ e]).
    cbn [trace heap sessions extend]. rewrite !app_nil_r.
    repeat split; eauto. done. }
  unfold wsReadStep. cbn [payloads]. case_decide as Hty.
  - cbn [ptmx_Write]. unfold bind at 1. rewrite File_Write_eq.
    set (ev := EWrite f msg (os_write os (trace st) f msg)).
    assert (Hw : written f [ev] = [msg]).
    { unfold written, ev. cbn [omap list_omap]. by rewrite decide_True. }
    assert (Hw' : ∀ f', f' ≠ f → written f' [ev] = []).
    { intros f' Hne. unfold written, ev. cbn [omap list_omap].
      by rewrite decide_False. }
    destruct (os_write os (trace st) f msg) as [e|] eqn:Ew.
    + rewrite log_then. unfold ret. rewrite extend_extend.
      eexists false, [ev], _. split; [reflexivity|].
      cbn [trace heap sessions extend]. rewrite app_nil_r.
      do 5 (split; [by eauto|]). split; [done|].
      intros _. right. exists ty, msg, (trace st). split; [done|]. by rewrite Ew.
    + unfold bind at 1. rewrite time_Now_eq. unfold bind at 1.
      rewrite store_lastActive_eq. cbn [heap extend trace]. rewrite Hs.
      unfold ret. eexists true, ([ev] ++ [ENow _]), _. split; [reflexivity|].
      cbn [trace heap sessions extend set_heap]. rewrite ?app_nil_r, <- ?app_assoc.
      split; [done|].
      split; [rewrite list_lookup_insert_eq by (by eapply lookup_lt_Some); eauto|].
      split; [done|]. split; [by rewrite written_app, Hw|].
      split; [intros f' Hne; by rewrite written_app, Hw'|].
      split; [by eauto|done].
  - unfold bind at 1, ret at 1.
    unfold bind at 1. rewrite time_Now_eq. unfold bind at 1.
    rewrite store_lastActive_eq. cbn [heap extend trace]. rewrite Hs.
    unfold ret. eexists true, [ENow _], _. split; [reflexivity|].
    cbn [trace heap sessions extend set_heap]. rewrite ?app_nil_r.
    split; [done|].
    split; [rewrite list_lookup_insert_eq by (by eapply lookup_lt_Some); eauto|].
    do 3 (split; [done|]). split; [by eauto|done].
Qed.

Lemma payloads_cons rd rest :
  (∃ ty msg, rd = ReadMsg ty msg) →
  payloads (rd :: rest) = payloads [rd] ++ payloads rest.
Proof.
  intros (ty & msg & ->). cbn [payloads]. by case_decide.
Qed.

Lemma wsReadLoop_written l f inbound st :
  is_Some (heap st !! l) →
  ∃ evs st',
    wsReadLoop os l (Some f) inbound st = (Val tt, st')
    ∧ trace st' = trace st ++ evs
    ∧ sessions st' = sessions st
    ∧ written f evs `prefix_of` payloads inbound
    ∧ (∀ f', f' ≠ f → written f' evs = [])
    ∧ ((∀ tr data, os_write os tr f data = None) → written f evs = payloads inbound).
Proof.
  revert st. induction inbound as [|rd rest IH]; intros st [s Hs].
  { exists [], st. rewrite app_nil_r. repeat split; try done. }
  cbn [wsReadLoop]. unfold bind at 1.
  destruct (wsReadStep_written l f rd s st Hs)
    as (b & evs & st1 & -> & Ht & Hlive & Hreg & Hw & Hw' & Hgo & Hstop).
  destruct b.
  - destruct (IH st1 Hlive) as (evs2 & st' & -> & Ht2 & Hreg2 & Hpre & Hoth & Hall).
    exists (evs ++ evs2), st'. split; [done|].
    split; [by rewrite Ht2, Ht, app_assoc|].
    split; [by rewrite Hreg2|].
    rewrite written_app, Hw, (payloads_cons rd rest) by auto.
    split; [by apply prefix_app|].
    split; [intros f' Hne; by rewrite written_app, Hw', Hoth|].
    intros Hok. by rewrite Hall.
  - exists evs, st1. unfold ret. split; [done|]. split; [done|]. split; [done|].
    destruct (Hstop eq_refl) as [[e ->]|(ty & msg & tr & -> & Hfail)].
    + rewrite Hw. cbn [payloads]. split; [done|]. split; [done|]. done.
    + rewrite Hw, (payloads_cons (ReadMsg ty msg) rest) by eauto.
      split; [by apply prefix_app_r|]. split; [done|].
      intros Hok. by destruct (Hfail (Hok tr msg)).
Qed.
End ReadLoop.

Lemma strings_Contains_app_r (p s sub : string) :
  strings_Contains s sub = true → strings_Contains (p +:+ s) sub = true.
Proof.
  intros H. induction p as [|c p IH]; [done|].
  change (String c p +:+ s) with (String c (p +:+ s)).
  cbn [strings_Contains]. rewrite IH. apply orb_true_r.
Qed.

(** The error of [runCommand] ends in the output of the command, so the
    test of [cleanupNetwork] on the error finds what the output says. *)
Lemma commandError_gone args r :
  err r ≠ None → output_gone r = true →
  ∃ msg, commandError args r = Some msg ∧ deviceGone msg = true.
Proof.
  intros Herr Hgone. unfold commandError.
  destruct (err r) as [e|]; [|done]. eexists. split; [reflexivity|].
  unfold deviceGone. unfold output_gone in Hgone.
  apply orb_true_iff in Hgone as [Hg|Hg]; apply orb_true_iff; [left|right];
    rewrite <- !string_app_assoc; by apply strings_Contains_app_r.
Qed.

Section Silent.
Variable os : OS.
Hypothesis all_gone :
  ∀ tr args, err (os_exec os tr args) ≠ None ∧ output_gone (os_exec os tr args) = true.

Lemma cleanupLog_exec_all tr cmds : omap cleanupLog (exec_all os tr cmds) = [].
Proof.
  revert tr. induction cmds as [|c cmds IH]; intros tr; [done|].
  cbn [exec_all omap list_omap cleanupLog].
  destruct (all_gone tr c) as [Herr Hgone].
  destruct (commandError_gone c _ Herr Hgone) as (msg & -> & ->). apply IH.
Qed.
End Silent.

Lemma cleanupCommands_length bridge taps :
  length (cleanupCommands bridge taps) = 2 + 2 * length taps.
Proof.
  unfold cleanupCommands. cbn [app length]. do 2 f_equal.
  induction taps as [|t taps IH]; [done|].
  cbn [flat_map tapCleanup app length]. rewrite IH. lia.
Qed.

Section Stages.
Variable os : OS.

Lemma two_taps (a b : string) seed :
  (shuffle seed (map_to_list (<["1" := a]> (<["2" := b]> (∅ : gmap string string))))).*2
  ≡ₚ [a; b].
Proof.
  rewrite shuffle_Permutation.
  rewrite !map_to_list_insert by (by rewrite ?lookup_insert_ne, ?lookup_empty).
  by rewrite map_to_list_empty.
Qed.

Lemma createSession_stages st e st' :
  createSession os st = (Val (Err e), st') →
  ∃ evs lg,
    st' = extend st evs lg
    ∧ ((∃ e0, e = "failed to generate hash: " +:+ e0 ∧ evs = [ERand 3 (Err e0)])
       ∨ ∃ bytes now evn,
           let h := hex_EncodeToString bytes in
           let pre := [ERand 3 (Ok bytes); ENow now] in
           let a1 := qemuArgs "1" ("tap1-" +:+ h) 149 in
           let a2 := qemuArgs "2" ("tap2-" +:+ h) 150 in
           length bytes = 3
           ∧ evn = (setupNetwork_spec os (newSession h now) (trace st ++ pre)).1
           ∧ ((∃ msg,
                 (setupNetwork_spec os (newSession h now) (trace st ++ pre)).2 = Some msg
                 ∧ e = "failed to set up network: " +:+ msg
                 ∧ evs = pre ++ evn)
              ∨ (∃ msg taps cl,
                   e = "failed to start machine 1: error starting QEMU machine 1: " +:+ msg
                   ∧ evs = pre ++ evn ++ [EStart a1 (StartErr msg)] ++ cl
                   ∧ taps ≡ₚ ["tap1-" +:+ h; "tap2-" +:+ h]
                   ∧ commands cl = cleanupCommands ("br-" +:+ h) taps)
              ∨ (∃ msg p1 q1 taps cl,
                   e = "failed to start machine 2: error starting QEMU machine 2: " +:+ msg
                   ∧ evs = pre ++ evn ++ [EStart a1 (Started p1 q1);
                                          EStart a2 (StartErr msg)] ++ cl
                   ∧ taps ≡ₚ ["tap1-" +:+ h; "tap2-" +:+ h]
                   ∧ commands cl = cleanupCommands ("br-" +:+ h) taps))).
Proof.
  unfold createSession. unfold bind at 1. rewrite generateShortHash_eq by lia.
  change (Z.to_nat (Z.min 6 12 / 2)) with 3.
  replace (set_trace (λ tr, tr ++ [ERand 3 _]) st)
    with (extend st [ERand 3 (match os_rand_err os (trace st) with
                              | Some e => Err e
                              | None => Ok (map (os_rand_byte os (trace st)) (seq 0 3))
                              end)] [])
    by (unfold extend, set_trace; simpl; by rewrite app_nil_r).
  destruct (os_rand_err os (trace st)) as [e0|].
  { intros [= <- <-]. eexists _, _. split; [reflexivity|]. left. by exists e0. }
  set (bytes := map (os_rand_byte os (trace st)) (seq 0 3)).
  set (h := hex_EncodeToString bytes).
  assert (Hlen : len h = 6%Z).
  { unfold len, h. rewrite hex_EncodeToString_length. done. }
  rewrite !len_app, Hlen.
  match goal with |- context [if ?c then _ else _] => change c with false end.
  cbv iota.
  unfold bind at 1. rewrite time_Now_eq. rewrite extend_extend.
  cbn [trace extend app].
  set (now := os_now os (trace st ++ [ERand 3 (Ok bytes)])).
  fold (newSession h now).
  set (st1 := extend st [ERand 3 (Ok bytes); ENow now] []).
  destruct (setupNetwork_eq os (newSession h now) st1) as [lgn Hsetup].
  unfold bind at 1. rewrite Hsetup.
  assert (Hb : length bytes = 3) by (unfold bytes; by rewrite length_map, length_seq).
  destruct (setupNetwork_spec os (newSession h now) (trace st1)) as [evn [msg|]] eqn:Espec;
    cbn [fst snd] in *.
  { intros [= <- <-]. unfold st1. rewrite extend_extend. eexists _, _.
    split; [reflexivity|]. right. exists bytes, now, evn. cbv zeta.
    fold h. change (trace st ++ _) with (trace st1). rewrite Espec. cbn [fst snd].
    do 2 (split; [done|]). left. by exists msg. }
  set (st2 := extend st1 evn lgn) in *.
  pose proof (startMachine_eq os (newSession h now) "1" ("tap1-" +:+ h) 149%N st2 eq_refl)
    as Hm1.
  cbv zeta in Hm1. unfold bind at 1. rewrite Hm1.
  set (a1 := qemuArgs "1" ("tap1-" +:+ h) 149) in *.
  destruct (os_pty_start os (trace st2) a1) as [msg|p1 q1] eqn:E1.
  { cbv beta iota. unfold bind at 1. rewrite cleanupNetwork_eq.
    match goal with |- context [ERange ?s :: exec_all os ?t (cleanupCommands ?b ?tp)] =>
      set (taps := tp); set (cl := ERange s :: exec_all os t (cleanupCommands b taps)) end.
    intros [= <- <-].
    unfold st2, st1. rewrite !extend_extend. eexists _, _.
    split; [reflexivity|]. right. exists bytes, now, evn. cbv zeta.
    fold h. change (trace st ++ [_; _]) with (trace st1). rewrite Espec. cbn [fst snd].
    do 2 (split; [done|]). right. left.
    exists msg, taps, cl.
    split; [reflexivity|]. split; [by rewrite <- ?app_assoc|].
    split; [apply two_taps|].
    unfold cl. change (commands (ERange ?s :: ?l)) with (commands l).
    by rewrite commands_exec_all. }
  cbv beta iota.
  match type of Hm1 with _ = (Val (None, ?s), ?st) =>
    set (s1 := s) in *; set (st3 := st) in * end.
  pose proof (startMachine_eq os s1 "2" ("tap2-" +:+ h) 150%N st3 eq_refl) as Hm2.
  cbv zeta in Hm2. unfold bind at 1. rewrite Hm2.
  set (a2 := qemuArgs "2" ("tap2-" +:+ h) 150) in *.
  destruct (os_pty_start os (trace st3) a2) as [msg|p2 q2] eqn:E2.
  { cbv beta iota. unfold bind at 1. rewrite cleanupNetwork_eq.
    match goal with |- context [ERange ?s :: exec_all os ?t (cleanupCommands ?b ?tp)] =>
      set (taps := tp); set (cl := ERange s :: exec_all os t (cleanupCommands b taps)) end.
    intros [= <- <-].
    unfold st3, st2, st1. rewrite !extend_extend. eexists _, _.
    split; [reflexivity|]. right. exists bytes, now, evn. cbv zeta.
    fold h. change (trace st ++ [_; _]) with (trace st1). rewrite Espec. cbn [fst snd].
    do 2 (split; [done|]). right. right.
    exists msg, p1, q1, taps, cl.
    split; [reflexivity|]. split; [by rewrite <- ?app_assoc|].
    split; [apply two_taps|].
    unfold cl. change (commands (ERange ?s :: ?l)) with (commands l).
    by rewrite commands_exec_all. }
  cbv beta iota. unfold bind, alloc, sessions_store, log_Print, ret. intros [=].
Qed.
End Stages.

Section Tick.
Variable os : OS.

(** The loop of the reaper itself only reads the clock. *)
Lemma reap_quiet entries st r st' :
  reap os entries st = (r, st') →
  ∃ evs, trace st' = trace st ++ evs
         ∧ killed evs = [] ∧ closed evs = [] ∧ commands evs = [].
Proof.
  revert st. induction entries as [|[id l] entries IH]; intros st.
  { intros [= <- <-]. exists []. by rewrite app_nil_r. }
  cbn [reap]. unfold bind at 1, deref.
  destruct (heap st !! l) as [s|].
  2:{ intros [= <- <-]. exists []. by rewrite app_nil_r. }
  unfold bind at 1, time_Since, bind at 1. rewrite time_Now_eq. unfold ret at 1.
  unfold bind at 1.
  destruct (time_Sub _ _ >? sessionTimeout)%Z.
  - rewrite log_then. unfold bind at 1, sessions_delete, go_cleanupSession.
    intros (evs & Ht & Hk & Hc & Hr)%IH.
    cbn [trace extend set_sessions set_spawned] in Ht.
    rewrite app_nil_r, <- app_assoc in Ht.
    eexists. split; [exact Ht|]. by rewrite killed_app, closed_app, commands_app, Hk, Hc, Hr.
  - unfold ret at 1. intros (evs & Ht & Hk & Hc & Hr)%IH.
    cbn [trace extend] in Ht. rewrite <- app_assoc in Ht.
    eexists. split; [exact Ht|]. by rewrite killed_app, closed_app, commands_app, Hk, Hc, Hr.
Qed.
End Tick.

Section Once.
Variable os : OS.

Lemma history_reachable torn st : history os torn st → reachable os st.
Proof. induction 1; by constructor. Qed.

Lemma change_registered st st' id l :
  change os st st' → sessions st' !! id = Some l →
  sessions st !! id = Some l ∨ l = length (heap st).
Proof.
  intros [evs Ht Hh Hs|s evs Ht Hh Hs Hp Hn _ _|l0 s evs1 evs2 Hl Ht Hh Hs] Hid.
  - left. by eapply lookup_weaken.
  - rewrite Hs in Hid. destruct (decide (id = hash s)) as [->|Hne].
    + rewrite lookup_insert_eq in Hid. right. congruence.
    + rewrite lookup_insert_ne in Hid by done. by left.
  - left. by rewrite <- Hs.
Qed.

Lemma closeSessionHandler_sessions st id l :
  id ≠ "" → sessions st !! id = Some l →
  sessions (closeSessionHandler os id st).2 = delete id (sessions st).
Proof.
  intros Hid Hl. unfold closeSessionHandler. rewrite decide_False by done.
  unfold bind at 1, sessions_lookup. rewrite Hl.
  unfold bind at 1, sessions_delete. unfold bind at 1, deref. cbn [heap set_sessions].
  destruct (heap st !! l) as [s|]; [|done].
  unfold bind at 1.
  destruct (cleanupSession_io os s (set_sessions (λ m, delete id m) st))
    as ([] & evs & lg & -> & _).
  by rewrite log_then.
Qed.

Lemma run_goroutine_state st i l :
  spawned st !! i = Some l →
  ∃ evs lg, (run_goroutine os i st).2
            = extend (set_spawned (λ g, delete i g) st) evs lg.
Proof.
  intros Hi. unfold run_goroutine. rewrite Hi.
  unfold bind, deref. cbn [heap set_spawned].
  destruct (heap st !! l) as [s|].
  - destruct (cleanupSession_io os s (set_spawned (λ g, delete i g) st))
      as ([] & evs & lg & -> & _). eauto.
  - exists [], []. by rewrite extend_nil.
Qed.

Lemma sessionCleaner_spawned st :
  registry_inv st →
  ∀ l, l ∈ spawned (sessionCleaner os st).2 →
       l ∈ spawned st ∨ ∃ id, sessions st !! id = Some l.
Proof.
  intros Hreg l. unfold sessionCleaner, bind at 1. rewrite range_map_eq.
  set (entries := shuffle (os_order os (trace st)) (map_to_list (sessions st))).
  assert (Hperm : entries ≡ₚ map_to_list (sessions st)) by apply shuffle_Permutation.
  destruct (reap_gone os entries (extend st [ERange (os_order os (trace st))] []))
    as (st' & gone & -> & Hh & Hsub & Hsp & Hlook).
  { rewrite Hperm. apply NoDup_fst_map_to_list. }
  { intros id' l' Hel. rewrite Hperm in Hel. apply elem_of_map_to_list in Hel.
    destruct (Hreg id' l' Hel) as (s' & Hs' & _). by exists s'. }
  cbn [snd]. rewrite Hsp. cbn [spawned extend].
  intros [Hl|([id l'] & Heq & Hel)%list_elem_of_fmap]%elem_of_app; [by left|].
  cbn in Heq. subst l'. right. exists id.
  apply elem_of_map_to_list. rewrite <- Hperm. by eapply elem_of_sublist.
Qed.

(** The sessions that each entry point leaves pending were pending or
    registered before. *)
Lemma run_spawned a st :
  registry_inv st →
  ∀ l, l ∈ spawned (run os a st) →
       l ∈ spawned st ∨ ∃ id, sessions st !! id = Some l.
Proof.
  intros Hreg l. destruct a as [|id|id m up|l0 ptmx rd| |i]; cbn [run].
  - rewrite keeps_createSessionHandler. by left.
  - rewrite keeps_closeSessionHandler. by left.
  - rewrite keeps_wsHandler. by left.
  - rewrite keeps_wsReadStep. by left.
  - by apply sessionCleaner_spawned.
  - destruct (spawned st !! i) as [l1|] eqn:Hi.
    + destruct (run_goroutine_state st i l1 Hi) as (evs & lg & ->).
      cbn [spawned extend set_spawned]. intros Hl. left.
      eapply elem_of_sublist; [done|]. apply sublist_delete.
    + unfold run_goroutine. rewrite Hi. by left.
Qed.

Lemma torn_frame a st (torn : list loc) :
  registry_inv st →
  (∀ l, l ∈ torn →
     l < length (heap st) ∧ (l ∉ spawned st) ∧ ∀ id, sessions st !! id ≠ Some l) →
  ∀ l, l ∈ torn →
    l < length (heap (run os a st)) ∧ (l ∉ spawned (run os a st))
    ∧ ∀ id, sessions (run os a st) !! id ≠ Some l.
Proof.
  intros Hreg Hinv l Hl. destruct (Hinv l Hl) as (Hlt & Hsp & Hnot).
  pose proof (run_change os a st) as Hch.
  pose proof (change_heap_length os _ _ Hch) as Hgrow.
  split; [lia|]. split.
  - intros [Hin|[id Hid]]%(run_spawned a st Hreg); [done|]. by apply (Hnot id).
  - intros id Hid. destruct (change_registered _ _ _ _ Hch Hid) as [Hold| ->].
    + by apply (Hnot id).
    + lia.
Qed.

Lemma history_inv torn st :
  history os torn st →
  NoDup torn
  ∧ ∀ l, l ∈ torn →
      l < length (heap st) ∧ (l ∉ spawned st) ∧ ∀ id, sessions st !! id ≠ Some l.
Proof.
  induction 1 as [|a st torn Hhist [Hnd Hinv]].
  { split; [constructor|]. intros l Hl. by apply elem_of_nil in Hl. }
  pose proof (history_reachable _ _ Hhist) as Hreach.
  destruct (reachable_inv os st Hreach) as [Hreg _].
  destruct (reachable_teardown_inv os st Hreach) as (Hsnd & Hval & Hdis & Hinj).
  pose proof (torn_frame a st torn Hreg Hinv) as Hold.
  pose proof (run_change os a st) as Hch.
  pose proof (change_heap_length os _ _ Hch) as Hgrow.
  destruct (torn_down a st) as [l|] eqn:Et; cbn [option_list].
  2:{ by rewrite app_nil_r. }
  assert (Hnew : (l ∉ torn)
                 ∧ l < length (heap (run os a st)) ∧ (l ∉ spawned (run os a st))
                 ∧ ∀ id, sessions (run os a st) !! id ≠ Some l).
  { destruct a as [|id|id m up|l0 ptmx rd| |i]; cbn [torn_down] in Et; try done.
    - (* a close request *)
      case_decide as Hid; [done|].
      destruct (Hreg id l Et) as (s & Hs & _).
      split; [intros Hl; destruct (Hinv l Hl) as (_ & _ & Hn); by apply (Hn id)|].
      split; [apply lookup_lt_Some in Hs; lia|].
      cbn [run]. rewrite keeps_closeSessionHandler.
      split; [by apply (Hdis id)|].
      rewrite (closeSessionHandler_sessions st id l Hid Et).
      intros id' Hid'. apply lookup_delete_Some in Hid' as [Hne Hid'].
      apply Hne. by apply (Hinj id id' l).
    - (* a goroutine of the reaper *)
      assert (Hl : l ∈ spawned st) by (by eapply list_elem_of_lookup_2).
      split; [intros Hl'; by destruct (Hinv l Hl') as (_ & Hn & _)|].
      split; [specialize (Hval l Hl); lia|].
      cbn [run]. destruct (run_goroutine_state st i l Et) as (evs & lg & ->).
      cbn [spawned sessions extend set_spawned].
      split; [by apply NoDup_delete_lookup|].
      intros id Hid. by apply (Hdis id l). }
  destruct Hnew as (Hfresh & Hnew).
  split.
  - apply NoDup_app. split; [done|]. split; [|apply NoDup_singleton].
    intros l' Hl' ->%list_elem_of_singleton. done.
  - intros l' [Hl'| ->%list_elem_of_singleton]%elem_of_app; [by apply Hold|done].
Qed.
End Once.

Section Quiet.
Variable os : OS.

Lemma no_teardown_quiet evs : no_teardown evs → killed evs = [] ∧ closed evs = [].
Proof.
  induction evs as [|e evs IH]; [done|]. intros Hnt.
  assert (He : match e with EKill _ _ | EClose _ => False | _ => True end)
    by (apply Hnt; by left).
  destruct IH as [Hk Hc]; [intros e' He'; apply Hnt; by right|].
  unfold killed, closed in *. cbn [omap list_omap]. rewrite Hk, Hc.
  by destruct e.
Qed.

Lemma createSessionHandler_quiet st :
  ∃ evs, trace (createSessionHandler os st).2 = trace st ++ evs
         ∧ killed evs = [] ∧ closed evs = [].
Proof.
  unfold createSessionHandler. unfold bind at 1.
  destruct (createSession os st) as [r st1] eqn:E.
  apply createSession_inv in E as [(e & evs & lg & -> & -> & _ & Hnt)|(s & -> & Hc)].
  - rewrite log_then. unfold ret. cbn [snd trace extend]. rewrite app_nil_r.
    exists evs. split; [done|]. by apply no_teardown_quiet.
  - destruct (created_state _ _ _ _ Hc) as (_ & _ & _ & evs1 & evs2 & Ht & _ & Hnt).
    exists (evs1 ++ ENow (lastActive s) :: evs2).
    split; [|by apply no_teardown_quiet].
    unfold bind, deref, ret. by destruct (heap st1 !! _).
Qed.

Lemma wsHandler_quiet id m up st :
  ∃ evs, trace (wsHandler os id m up st).2 = trace st ++ evs
         ∧ killed evs = [] ∧ closed evs = [] ∧ commands evs = [].
Proof.
  unfold wsHandler. case_decide.
  { exists []. by rewrite app_nil_r. }
  case_decide.
  { exists []. by rewrite app_nil_r. }
  unfold bind at 1, sessions_lookup. destruct (sessions st !! id) as [l|].
  2:{ exists []. by rewrite app_nil_r. }
  unfold bind at 1. rewrite time_Now_eq. unfold bind at 1.
  rewrite store_lastActive_eq. cbn [heap extend].
  exists [ENow (os_now os (trace st))]. split; [|done].
  destruct (heap st !! l) as [s|]; [|done].
  destruct up as [e|].
  { rewrite log_then. unfold ret. cbn [snd trace extend set_heap].
    by rewrite app_nil_r. }
  unfold bind at 1, deref. cbn [heap set_heap extend].
  destruct (_ !! l) as [s'|]; [|done].
  destruct (ptyFiles s' !! m); [done|].
  rewrite log_then. unfold ret. cbn [snd trace extend set_heap].
  by rewrite app_nil_r.
Qed.

Lemma wsReadStep_quiet l ptmx rd st :
  ∃ evs, trace (wsReadStep os l ptmx rd st).2 = trace st ++ evs
         ∧ killed evs = [] ∧ closed evs = [] ∧ commands evs = [].
Proof.
  unfold wsReadStep. destruct rd as [e|ty msg].
  { rewrite log_then. unfold ret. cbn [snd trace extend]. exists [].
    by rewrite !app_nil_r. }
  unfold bind at 1.
  assert (Hw : ∃ w evs,
     (if decide (ty = BinaryMessage ∨ ty = TextMessage)
      then ptmx_Write os ptmx msg else ret None) st = (Val w, extend st evs [])
     ∧ killed evs = [] ∧ closed evs = [] ∧ commands evs = []).
  { case_decide; [|exists None, []; by rewrite extend_nil].
    destruct ptmx as [f|]; cbn [ptmx_Write].
    - rewrite File_Write_eq. eauto 10.
    - exists (Some "invalid argument"), []. by rewrite extend_nil. }
  destruct Hw as (w & evs & -> & Hk & Hc & Hr).
  destruct w as [e|].
  { rewrite log_then. unfold ret. cbn [snd trace extend]. rewrite app_nil_r. eauto. }
  unfold bind at 1. rewrite time_Now_eq. unfold bind at 1.
  rewrite store_lastActive_eq. cbn [heap extend trace].
  exists (evs ++ [ENow (os_now os (trace st ++ evs))]).
  rewrite killed_app, closed_app, commands_app, Hk, Hc, Hr.
  split; [|done]. rewrite app_assoc.
  by destruct (heap st !! l).
Qed.

Lemma sessionCleaner_quiet st :
  ∃ evs, trace (sessionCleaner os st).2 = trace st ++ evs
         ∧ killed evs = [] ∧ closed evs = [] ∧ commands evs = [].
Proof.
  unfold sessionCleaner, bind at 1. rewrite range_map_eq.
  destruct (reap os _ _) as [r st'] eqn:E.
  apply reap_quiet in E as (evs & Ht & Hk & Hc & Hr). cbn [snd].
  cbn [trace extend] in Ht. rewrite <- app_assoc in Ht.
  eexists. split; [exact Ht|].
  by rewrite killed_app, closed_app, commands_app, Hk, Hc, Hr.
Qed.
End Quiet.

Section SetupSuccess.
Variable os : OS.

Lemma run_steps_success tr steps args r :
  (run_steps os tr steps).2 = None →
  ERun args r ∈ (run_steps os tr steps).1 →
  ∃ s, s ∈ steps ∧ args = step_command s ∧ step_error s r = None.
Proof.
  revert tr. induction steps as [|s steps IH]; intros tr.
  { intros _ Hin. by apply elem_of_nil in Hin. }
  cbn [run_steps]. destruct (step_error s _) as [msg|] eqn:Es; [done|].
  destruct (run_steps os (tr ++ _) steps) as [evs e] eqn:Er. cbn [fst snd].
  intros -> [[= -> ->]|Hin]%elem_of_cons.
  - exists s. split; [by left|done].
  - destruct (IH (tr ++ [ERun (step_command s) (os_exec os tr (step_command s))]) )
      as (s' & Hs' & Hargs & Herr).
    + by rewrite Er.
    + by rewrite Er.
    + exists s'. split; [by right|done].
Qed.

Lemma step_error_None s r :
  step_error s r = None → (∃ br, s = CheckBridge br) ∨ err r = None.
Proof.
  destruct s; cbn [step_error]; eauto; unfold commandError;
    destruct (err r); by eauto.
Qed.
End SetupSuccess.

Section Accounting.
Variable os : OS.

Lemma wsHandler_sessions id m up st :
  sessions (wsHandler os id m up st).2 = sessions st.
Proof.
  unfold wsHandler. case_decide; [done|]. case_decide; [done|].
  unfold bind at 1, sessions_lookup. destruct (sessions st !! id) as [l|]; [|done].
  unfold bind at 1. rewrite time_Now_eq. unfold bind at 1.
  rewrite store_lastActive_eq. cbn [heap extend].
  destruct (heap st !! l) as [s|]; [|done].
  destruct up as [e|]; [by rewrite log_then|].
  unfold bind at 1, deref. cbn [heap set_heap extend].
  destruct (_ !! l) as [s'|]; [|done].
  destruct (ptyFiles s' !! m); [done|]. by rewrite log_then.
Qed.

Lemma wsReadStep_sessions l ptmx rd st :
  sessions (wsReadStep os l ptmx rd st).2 = sessions st.
Proof.
  unfold wsReadStep. destruct rd as [e|ty msg]; [by rewrite log_then|].
  unfold bind at 1.
  assert (Hw : ∃ w evs,
     (if decide (ty = BinaryMessage ∨ ty = TextMessage)
      then ptmx_Write os ptmx msg else ret None) st = (Val w, extend st evs [])).
  { case_decide; [|exists None, []; by rewrite extend_nil].
    destruct ptmx as [f|]; cbn [ptmx_Write].
    - rewrite File_Write_eq. eauto.
    - exists (Some "invalid argument"), []. by rewrite extend_nil. }
  destruct Hw as (w & evs & ->).
  destruct w as [e|]; [by rewrite log_then|].
  unfold bind at 1. rewrite time_Now_eq. unfold bind at 1.
  rewrite store_lastActive_eq. cbn [heap extend trace].
  by destruct (heap st !! l).
Qed.

Lemma createSessionHandler_state st :
  ∃ st', (createSessionHandler os st).2 = st'
         ∧ (sessions st' = sessions st
            ∨ ∃ s, heap st' !! length (heap st) = Some s
                   ∧ sessions st' = <[hash s := length (heap st)]> (sessions st)).
Proof.
  unfold createSessionHandler. unfold bind at 1.
  destruct (createSession os st) as [r st1] eqn:E.
  apply createSession_inv in E as [(e & evs & lg & -> & -> & _ & _)|(s & -> & Hc)].
  - rewrite log_then. eexists. split; [reflexivity|]. by left.
  - destruct (created_state _ _ _ _ Hc) as (Hh & Hs & _).
    assert (Hlook : heap st1 !! length (heap st) = Some s).
    { rewrite Hh, lookup_app_r, Nat.sub_diag by lia. done. }
    unfold bind at 1, deref. rewrite Hlook. unfold ret. cbn [snd].
    exists st1. split; [done|]. right. eauto.
Qed.

Lemma createSessionHandler_sessions st :
  sessions (createSessionHandler os st).2 = sessions st
  ∨ ∃ s, heap (createSessionHandler os st).2 !! length (heap st) = Some s
         ∧ sessions (createSessionHandler os st).2
           = <[hash s := length (heap st)]> (sessions st).
Proof. by destruct (createSessionHandler_state st) as (st' & -> & H). Qed.

Lemma closeSessionHandler_unregistered st id :
  torn_down (AClose id) st = None → (closeSessionHandler os id st).2 = st.
Proof.
  cbn [torn_down]. unfold closeSessionHandler. case_decide; [done|].
  intros Hnone. unfold bind at 1, sessions_lookup. by rewrite Hnone.
Qed.

Lemma sessionCleaner_state st :
  registry_inv st →
  ∃ st' gone,
    (sessionCleaner os st).2 = st'
    ∧ spawned st' = spawned st ++ gone.*2
    ∧ (∀ id l, (id, l) ∈ gone → sessions st !! id = Some l)
    ∧ ∀ i, sessions st' !! i
           = if decide (i ∈ gone.*1) then None else sessions st !! i.
Proof.
  intros Hreg. unfold sessionCleaner, bind at 1. rewrite range_map_eq.
  set (entries := shuffle (os_order os (trace st)) (map_to_list (sessions st))).
  assert (Hperm : entries ≡ₚ map_to_list (sessions st)) by apply shuffle_Permutation.
  destruct (reap_gone os entries (extend st [ERange (os_order os (trace st))] []))
    as (st' & gone & -> & Hh & Hsub & Hsp & Hlook).
  { rewrite Hperm. apply NoDup_fst_map_to_list. }
  { intros id' l' Hel. rewrite Hperm in Hel. apply elem_of_map_to_list in Hel.
    destruct (Hreg id' l' Hel) as (s' & Hs' & _). by exists s'. }
  exists st', gone. split; [done|]. split; [done|]. split; [|done].
  intros id l Hel. apply elem_of_map_to_list. rewrite <- Hperm.
  by eapply elem_of_sublist.
Qed.

(** Session objects stay where they are and keep their identifier. *)
Lemma change_persist st st' l s :
  change os st st' → heap st !! l = Some s →
  ∃ s', heap st' !! l = Some s' ∧ hash s' = hash s.
Proof.
  intros [evs Ht Hh Hs|s0 evs Ht Hh Hs Hp Hn _ _|l0 s0 evs1 evs2 Hl Ht Hh Hs] Hl';
    rewrite Hh.
  - eauto.
  - exists s. split; [|done]. by apply lookup_app_l_Some.
  - destruct (decide (l = l0)) as [->|Hne].
    + rewrite list_lookup_insert_eq by (by eapply lookup_lt_Some).
      eexists. split; [done|]. cbn. congruence.
    + rewrite list_lookup_insert_ne by done. eauto.
Qed.

Lemma change_origin st st' l s' :
  change os st st' → heap st' !! l = Some s' →
  (∃ s, heap st !! l = Some s ∧ hash s = hash s')
  ∨ sessions st' !! hash s' = Some l.
Proof.
  intros [evs Ht Hh Hs|s0 evs Ht Hh Hs Hp Hn _ _|l0 s0 evs1 evs2 Hl Ht Hh Hs];
    rewrite Hh.
  - eauto.
  - intros [Hin|[Hge Hin]]%lookup_app_Some; [by eauto|].
    apply list_lookup_singleton_Some in Hin as [Hl <-]. right.
    rewrite Hs. replace l with (length (heap st)) by lia.
    apply lookup_insert_eq.
  - destruct (decide (l = l0)) as [->|Hne].
    + rewrite list_lookup_insert_eq by (by eapply lookup_lt_Some).
      intros [= <-]. left. by exists s0.
    + rewrite list_lookup_insert_ne by done. eauto.
Qed.

(** What becomes of a registered session in one step. *)
Lemma run_registered a st id l :
  registry_inv st → sessions st !! id = Some l →
  sessions (run os a st) !! id = Some l
  ∨ torn_down a st = Some l
  ∨ l ∈ spawned (run os a st)
  ∨ ∃ s', heap (run os a st) !! length (heap st) = Some s' ∧ hash s' = id.
Proof.
  intros Hreg Hid. destruct a as [|id0|id0 m up|l0 ptmx rd| |i]; cbn [run].
  - destruct (createSessionHandler_sessions st) as [->|(s & Hs & ->)]; [by left|].
    destruct (decide (id = hash s)) as [->|Hne].
    + right. right. right. by exists s.
    + left. by rewrite lookup_insert_ne.
  - destruct (torn_down (AClose id0) st) as [l1|] eqn:Et.
    + cbn [torn_down] in Et. case_decide as Hid0; [done|].
      rewrite (closeSessionHandler_sessions os st id0 l1 Hid0 Et).
      destruct (decide (id = id0)) as [->|Hne].
      * right. left. congruence.
      * left. by rewrite lookup_delete_ne.
    + left. by rewrite closeSessionHandler_unregistered.
  - left. by rewrite wsHandler_sessions.
  - left. by rewrite wsReadStep_sessions.
  - destruct (sessionCleaner_state st Hreg) as (st' & gone & -> & Hsp & Hgone & Hlook).
    rewrite Hlook, Hsp.
    case_decide as Hg; [|by left].
    right. right. left. apply elem_of_app. right.
    apply list_elem_of_fmap in Hg as ([id' l'] & Heq & Hel). cbn in Heq. subst id'.
    pose proof (Hgone id l' Hel) as Hl'.
    apply list_elem_of_fmap. exists (id, l'). split; [cbn; congruence|done].
  - left. destruct (spawned st !! i) as [l1|] eqn:Hi.
    + by destruct (run_goroutine_state os st i l1 Hi) as (evs & lg & ->).
    + unfold run_goroutine. by rewrite Hi.
Qed.

(** What becomes of a pending session in one step. *)
Lemma run_pending a st l :
  registry_inv st → l ∈ spawned st →
  l ∈ spawned (run os a st) ∨ torn_down a st = Some l.
Proof.
  intros Hreg Hl. destruct a as [|id0|id0 m up|l0 ptmx rd| |i]; cbn [run torn_down].
  - left. by rewrite keeps_createSessionHandler.
  - left. by rewrite keeps_closeSessionHandler.
  - left. by rewrite keeps_wsHandler.
  - left. by rewrite keeps_wsReadStep.
  - left. destruct (sessionCleaner_state st Hreg) as (st' & gone & -> & Hsp & _).
    rewrite Hsp. apply elem_of_app. by left.
  - destruct (spawned st !! i) as [l1|] eqn:Hi.
    + destruct (decide (l = l1)) as [->|Hne]; [by right|]. left.
      destruct (run_goroutine_state os st i l1 Hi) as (evs & lg & ->).
      cbn [spawned extend set_spawned]. rewrite delete_take_drop.
      rewrite <- (take_drop_middle (spawned st) i l1 Hi) in Hl.
      apply elem_of_app in Hl as [Hl|Hl]; apply elem_of_app; [by left|].
      apply elem_of_cons in Hl as [?|Hl]; [done|by right].
    + left. unfold run_goroutine. by rewrite Hi.
Qed.

Lemma history_accounted torn st l s :
  history os torn st → heap st !! l = Some s →
  (∃ id, sessions st !! id = Some l)
  ∨ l ∈ spawned st
  ∨ l ∈ torn
  ∨ ∃ l' s', l < l' ∧ heap st !! l' = Some s' ∧ hash s' = hash s.
Proof.
  intros Hhist. revert l s.
  induction Hhist as [|a st torn Hhist IH]; intros l s'; [done|].
  pose proof (history_reachable _ _ _ Hhist) as Hreach.
  destruct (reachable_inv os st Hreach) as [Hreg _].
  pose proof (run_change os a st) as Hch.
  intros Hs'.
  destruct (change_origin _ _ _ _ Hch Hs') as [(s & Hs & Hhash)|Hnew].
  2:{ left. by exists (hash s'). }
  destruct (IH l s Hs) as [[id Hid]|[Hp|[Ht|(l' & s2 & Hlt & Hs2 & Hh2)]]].
  - destruct (run_registered a st id l Hreg Hid) as [H|[H|[H|(s3 & Hs3 & Hh3)]]].
    + left. by exists id.
    + right. right. left. apply elem_of_app. right. rewrite H. by left.
    + right. by left.
    + right. right. right. exists (length (heap st)), s3.
      split; [by eapply lookup_lt_Some|]. split; [done|].
      destruct (Hreg id l Hid) as (s0 & Hs0 & Hh0 & _). congruence.
  - destruct (run_pending a st l Hreg Hp) as [H|H].
    + right. by left.
    + right. right. left. apply elem_of_app. right. rewrite H. by left.
  - right. right. left. apply elem_of_app. by left.
  - right. right. right.
    destruct (change_persist _ _ l' s2 Hch Hs2) as (s3 & Hs3 & Hh3).
    exists l', s3. split; [done|]. split; [done|]. congruence.
Qed.
End Accounting.

(** * Further properties of the code *)

(** X1: [generateShortHash] for every length, negative ones included.  It
    panics, before reading any random byte, exactly for [n <= -2]; in every
    other case it returns the error of [rand.Read] or a string of
    lowercase hexadecimal digits of even length [2 * (min(n,12) / 2)]
    (division truncating), which is at most 12 and at most [n]: for an odd
    [n] one character less than asked, and the empty string for [n] in
    -1..1. *)
Theorem generateShortHash_every_length (os : OS) (st : State) (n : Z) :
  match generateShortHash os n st with
  | (Panic _, st') => (n ≤ -2)%Z ∧ st' = st
  | (Val (Err e), st') =>
      (-2 < n)%Z ∧ os_rand_err os (trace st) = Some e
  | (Val (Ok h), st') =>
      (-2 < n)%Z
      ∧ os_rand_err os (trace st) = None
      ∧ Z.of_nat (String.length h) = (2 * (Z.min n 12 ÷ 2))%Z
      ∧ String.length h ≤ 12
      ∧ (Z.of_nat (String.length h) ≤ Z.max 0 n)%Z
      ∧ string_forall is_lower_hex h = true
  end.
Proof.
  unfold generateShortHash.
  assert (Hmin : (if (n >? 12)%Z then 12%Z else n) = Z.min n 12).
  { destruct (Z.gtb_spec n 12); lia. }
  rewrite Hmin. set (m := Z.min n 12).
  destruct (Z.ltb_spec (m ÷ 2) 0) as [Hneg|Hpos].
  - split; [|done]. destruct (quot2_cases m) as [[H1 H2]|[[H1 H2]|[H1 H2]]]; try lia.
    assert (0 ≤ m / 2)%Z by (apply Z.div_pos; lia). lia.
  - unfold bind, rand_Read.
    assert (Hn : (-2 < n)%Z).
    { destruct (quot2_cases m) as [[H1 H2]|[[H1 H2]|[H1 H2]]]; lia. }
    destruct (os_rand_err os (trace st)) as [e|] eqn:Er; [done|].
    cbn [ret]. split; [done|]. split; [done|].
    rewrite hex_EncodeToString_length, length_map, length_seq.
    assert (Hk : (m ÷ 2 ≤ 6 ∧ 2 * (m ÷ 2) ≤ Z.max 0 n)%Z).
    { destruct (quot2_cases m) as [[H1 H2]|[[H1 H2]|[H1 H2]]]; try lia.
      rewrite H2. assert (m / 2 ≤ 6)%Z by (apply Z.div_le_upper_bound; lia).
      assert (2 * (m / 2) ≤ m)%Z by (apply Z.mul_div_le; lia). lia. }
    split; [lia|]. split; [lia|]. split; [lia|].
    apply hex_EncodeToString_lower.
Qed.

(** X2: the hardware address that [startMachine] gives a machine depends on
    the first byte of the machine id only: two ids get the same last MAC
    octet exactly when they start with the same byte (so "1" and "2"
    differ, "1" and "10" collide), and the empty id has no address, which
    is the index panic of [machineID[0]]. *)
Theorem mac_suffix_by_first_byte (c1 c2 : ascii) (s1 s2 : string) :
  macSuffix "" = None
  ∧ (hex_of_byte <$> macSuffix (String c1 s1) = hex_of_byte <$> macSuffix (String c2 s2)
     ↔ c1 = c2).
Proof.
  split; [done|]. cbn [macSuffix fmap option_fmap option_map]. split.
  - intros H%(inj Some). apply hex_of_byte_inj in H; [|by apply N.mod_lt..].
    apply add100_mod_inj in H; [|apply N_ascii_bounded..].
    apply (f_equal ascii_of_N) in H. by rewrite !ascii_N_embedding in H.
  - by intros ->.
Qed.

(** X3: the identifier that [generateShortHash] returns determines the
    random bytes it was made from: decoding its digits gives the bytes
    back, so two calls return the same identifier exactly when [rand.Read]
    gave them the same bytes. *)
Theorem short_hash_determines_bytes (os1 os2 : OS) (st1 st2 : State) (n : Z)
    (h1 h2 : string) :
  (generateShortHash os1 n st1).1 = Val (Ok h1) →
  (generateShortHash os2 n st2).1 = Val (Ok h2) →
  let k := Z.to_nat (Z.min n 12 ÷ 2) in
  hex_decode h1 = map (λ i, Byte.to_N (os_rand_byte os1 (trace st1) i)) (seq 0 k)
  ∧ (h1 = h2 ↔
     ∀ i, i < k → os_rand_byte os1 (trace st1) i = os_rand_byte os2 (trace st2) i).
Proof.
  assert (Hgen : ∀ os st h, (generateShortHash os n st).1 = Val (Ok h) →
            h = hex_EncodeToString
                  (map (os_rand_byte os (trace st)) (seq 0 (Z.to_nat (Z.min n 12 ÷ 2))))).
  { intros os st h. unfold generateShortHash.
    replace (if (n >? 12)%Z then 12%Z else n) with (Z.min n 12)
      by (destruct (Z.gtb_spec n 12); lia).
    destruct (_ <? 0)%Z; [done|]. unfold bind, rand_Read.
    destruct (os_rand_err os (trace st)); [done|]. cbn. congruence. }
  intros ->%Hgen ->%Hgen k. fold k. split.
  - by rewrite hex_decode_encode, map_map.
  - split.
    + intros H%hex_EncodeToString_inj i Hi.
      apply (f_equal (λ l, l !! i)) in H. rewrite !list_lookup_fmap in H.
      rewrite lookup_seq_lt in H by done. cbn in H. congruence.
    + intros H. f_equal. apply map_ext_in. intros i Hi%in_seq. apply H. lia.
Qed.

Lemma short_hash_determines_bytes_witness :
  (generateShortHash os_ok 6 init).1 = Val (Ok "3a3a3a")
  ∧ (generateShortHash os_ok 6 st_one).1 = Val (Ok "3b3b3b")
  ∧ let k := Z.to_nat (Z.min 6 12 ÷ 2) in
    hex_decode "3a3a3a"
    = map (λ i, Byte.to_N (os_rand_byte os_ok (trace init) i)) (seq 0 k)
    ∧ ("3a3a3a" = "3b3b3b" ↔
       ∀ i, i < k →
         os_rand_byte os_ok (trace init) i = os_rand_byte os_ok (trace st_one) i).
Proof.
  assert (H1 : (generateShortHash os_ok 6 init).1 = Val (Ok "3a3a3a"))
    by (vm_compute; reflexivity).
  assert (H2 : (generateShortHash os_ok 6 st_one).1 = Val (Ok "3b3b3b"))
    by (vm_compute; reflexivity).
  split; [exact H1|]. split; [exact H2|].
  exact (short_hash_determines_bytes os_ok os_ok init st_one 6 "3a3a3a" "3b3b3b" H1 H2).
Defined.

(** X4: [cleanupSession] works in three phases, in this order: it kills
    every started process of the session, then closes every pty, then runs
    the commands of [cleanupNetwork] for the bridge and every tap.  Each
    process is killed once and each pty closed once, whatever the outcome
    of the earlier kills and commands; the registry and the session objects
    are not touched, and the call always returns. *)
Theorem cleanupSession_kills_closes_cleans (os : OS) (session : Session) (st : State) :
  ∃ kills closes net lg taps,
    cleanupSession os session st
      = (Val tt, extend st (kills ++ closes ++ net) lg)
    ∧ killed kills ≡ₚ started_pids (map_to_list (cmds session))
    ∧ closed kills = [] ∧ commands kills = []
    ∧ closed closes ≡ₚ open_ptys (map_to_list (ptyFiles session))
    ∧ killed closes = [] ∧ commands closes = []
    ∧ taps ≡ₚ (map_to_list (tapNames session)).*2
    ∧ commands net = cleanupCommands (bridgeName session) taps
    ∧ killed net = [] ∧ closed net = [].
Proof. apply cleanupSession_phases. Qed.

(** X5: the answers of [closeSessionHandler] in a reachable state.  An
    empty identifier is answered 400 and an unregistered one 404, the
    state being left exactly as it was.  A registered identifier is
    answered 200: its entry, and no other, is removed from the registry,
    the process of machine 1 and the process of machine 2 are each killed
    once and their two ptys each closed once, and no session object
    changes.  The handler never panics. *)
Theorem closeSessionHandler_outcomes (os : OS) (st : State) (sessionID : string) :
  reachable os st →
  match closeSessionHandler os sessionID st with
  | (Val (Resp code body), st') =>
      (code = StatusBadRequest ∧ sessionID = "" ∧ st' = st)
      ∨ (code = StatusNotFound ∧ sessionID ≠ "" ∧ sessions st !! sessionID = None
         ∧ st' = st)
      ∨ (code = StatusOK
         ∧ ∃ l s f1 f2 c1 c2 q1 q2,
             sessions st !! sessionID = Some l ∧ heap st !! l = Some s
             ∧ sessions st' = delete sessionID (sessions st)
             ∧ heap st' = heap st ∧ spawned st' = spawned st
             ∧ ptyFiles s !! "1" = Some (Some f1) ∧ ptyFiles s !! "2" = Some (Some f2)
             ∧ cmds s !! "1" = Some (Some c1) ∧ Process c1 = Some q1
             ∧ cmds s !! "2" = Some (Some c2) ∧ Process c2 = Some q2
             ∧ killed (new_events (closeSessionHandler os sessionID) st) ≡ₚ [q1; q2]
             ∧ closed (new_events (closeSessionHandler os sessionID) st) ≡ₚ [f1; f2])
  | (Panic _, _) => False
  end.
Proof.
  intros Hreach. destruct (reachable_inv os st Hreach) as [Hreg _].
  destruct (closeSessionHandler os sessionID st) as [r st'] eqn:E.
  pose proof E as E'. unfold closeSessionHandler in E'. revert E'. case_decide as Hid.
  { intros [= <- <-]. by left. }
  unfold bind at 1, sessions_lookup.
  destruct (sessions st !! sessionID) as [l|] eqn:El.
  2:{ intros [= <- <-]. right. by left. }
  destruct (Hreg sessionID l El) as (s & Hs & _ & Hp).
  unfold bind at 1, sessions_delete. unfold bind at 1, deref.
  cbn [heap set_sessions]. rewrite Hs. unfold bind at 1.
  destruct (teardown_events os s (set_sessions (λ m, delete sessionID m) st) Hp)
    as (evs & lg & f1 & f2 & c1 & c2 & q1 & q2 & -> & Hf1 & Hf2 & Hc1 & Hq1 & Hc2 & Hq2
        & Hk & Hc).
  rewrite log_then. unfold ret. rewrite extend_extend. intros [= <- <-].
  right. right. split; [done|].
  exists l, s, f1, f2, c1, c2, q1, q2. do 11 (split; [done|]).
  unfold new_events. rewrite E. cbn [snd trace extend set_sessions].
  by rewrite app_nil_r, drop_app_length.
Qed.

Lemma closeSessionHandler_outcomes_witness :
  reachable os_ok st_one
  ∧ match closeSessionHandler os_ok "3a3a3a" st_one with
    | (Val (Resp code body), st') =>
        (code = StatusBadRequest ∧ "3a3a3a" = "" ∧ st' = st_one)
        ∨ (code = StatusNotFound ∧ "3a3a3a" ≠ "" ∧ sessions st_one !! "3a3a3a" = None
           ∧ st' = st_one)
        ∨ (code = StatusOK
           ∧ ∃ l s f1 f2 c1 c2 q1 q2,
               sessions st_one !! "3a3a3a" = Some l ∧ heap st_one !! l = Some s
               ∧ sessions st' = delete "3a3a3a" (sessions st_one)
               ∧ heap st' = heap st_one ∧ spawned st' = spawned st_one
               ∧ ptyFiles s !! "1" = Some (Some f1) ∧ ptyFiles s !! "2" = Some (Some f2)
               ∧ cmds s !! "1" = Some (Some c1) ∧ Process c1 = Some q1
               ∧ cmds s !! "2" = Some (Some c2) ∧ Process c2 = Some q2
               ∧ killed (new_events (closeSessionHandler os_ok "3a3a3a") st_one) ≡ₚ [q1; q2]
               ∧ closed (new_events (closeSessionHandler os_ok "3a3a3a") st_one) ≡ₚ [f1; f2])
    | (Panic _, _) => False
    end.
Proof.
  assert (H1 : reachable os_ok st_one) by apply reachable_run, reachable_init.
  split; [exact H1|].
  exact (closeSessionHandler_outcomes os_ok st_one "3a3a3a" H1).
Defined.

(** X6: in every reachable state the sessions handed to teardown
    goroutines by the reaper are distinct live objects, none of them is
    still registered, and no session object is registered under two
    identifiers.  So a close request, which tears down registered sessions
    only, never tears down a session that the reaper has scheduled, and
    the reaper schedules no session twice. *)
Theorem teardown_scheduled_once (os : OS) (st : State) :
  reachable os st →
  NoDup (spawned st)
  ∧ (∀ l, l ∈ spawned st → is_Some (heap st !! l))
  ∧ (∀ id l, sessions st !! id = Some l → l ∉ spawned st)
  ∧ (∀ id1 id2 l,
       sessions st !! id1 = Some l → sessions st !! id2 = Some l → id1 = id2).
Proof.
  intros Hreach.
  destruct (reachable_teardown_inv os st Hreach) as (Hnd & Hval & Hdis & Hinj).
  split; [done|]. split; [|done].
  intros l Hl. by apply lookup_lt_is_Some, Hval.
Qed.

Lemma teardown_scheduled_once_witness :
  reachable os_idle st_pending
  ∧ spawned st_pending = [0; 1]
  ∧ sessions st_pending !! "3b3b3b" = Some 2
  ∧ NoDup (spawned st_pending)
  ∧ (∀ l, l ∈ spawned st_pending → is_Some (heap st_pending !! l))
  ∧ (∀ id l, sessions st_pending !! id = Some l → l ∉ spawned st_pending)
  ∧ (∀ id1 id2 l,
       sessions st_pending !! id1 = Some l → sessions st_pending !! id2 = Some l →
       id1 = id2).
Proof.
  assert (H1 : reachable os_idle st_pending) by (do 4 apply reachable_run; constructor).
  split; [exact H1|].
  split; [vm_compute; reflexivity|]. split; [vm_compute; reflexivity|].
  exact (teardown_scheduled_once os_idle st_pending H1).
Defined.

(** X7: a teardown goroutine started by the reaper, run in a reachable
    state.  When its slot holds a pending session, the goroutine ends
    without a panic; the session exists, is registered under no
    identifier and is pending nowhere else afterwards; the registry and
    the session objects stay as they are; the processes of machines 1
    and 2 are each killed once and their ptys each closed once.  When
    the slot holds nothing, nothing happens. *)
Theorem run_goroutine_tears_down (os : OS) (st : State) (i : nat) (l : loc) :
  reachable os st →
  spawned st !! i = Some l →
  (∃ st' s f1 f2 c1 c2 q1 q2,
     run_goroutine os i st = (Val tt, st')
     ∧ heap st !! l = Some s
     ∧ (∀ id, sessions st !! id ≠ Some l)
     ∧ spawned st' = delete i (spawned st) ∧ (l ∉ spawned st')
     ∧ sessions st' = sessions st ∧ heap st' = heap st
     ∧ ptyFiles s !! "1" = Some (Some f1) ∧ ptyFiles s !! "2" = Some (Some f2)
     ∧ cmds s !! "1" = Some (Some c1) ∧ Process c1 = Some q1
     ∧ cmds s !! "2" = Some (Some c2) ∧ Process c2 = Some q2
     ∧ killed (new_events (run_goroutine os i) st) ≡ₚ [q1; q2]
     ∧ closed (new_events (run_goroutine os i) st) ≡ₚ [f1; f2])
  ∧ ∀ j, spawned st !! j = None → run_goroutine os j st = (Val tt, st).
Proof.
  intros Hreach Hi. split.
  2:{ intros j Hj. unfold run_goroutine. by rewrite Hj. }
  destruct (reachable_teardown_inv os st Hreach) as (Hnd & Hval & Hdis & _).
  pose proof (reachable_heap_provisioned os st Hreach) as Hheap.
  assert (Hl : l ∈ spawned st) by (by eapply list_elem_of_lookup_2).
  destruct (lookup_lt_is_Some_2 (heap st) l (Hval l Hl)) as [s Hs].
  destruct (teardown_events os s (set_spawned (λ g, delete i g) st) (Hheap l s Hs))
    as (evs & lg & f1 & f2 & c1 & c2 & q1 & q2 & Heq & Hf1 & Hf2 & Hc1 & Hq1 & Hc2 & Hq2
        & Hk & Hc).
  assert (E : run_goroutine os i st
              = (Val tt, extend (set_spawned (λ g, delete i g) st) evs lg)).
  { unfold run_goroutine. rewrite Hi. unfold bind at 1, deref.
    cbn [heap set_spawned]. by rewrite Hs. }
  eexists _, s, f1, f2, c1, c2, q1, q2. split; [exact E|]. split; [done|].
  split; [intros id Hid; by apply (Hdis id l)|].
  split; [done|]. split; [by apply NoDup_delete_lookup|].
  do 8 (split; [done|]).
  unfold new_events. rewrite E. cbn [snd trace extend set_spawned].
  by rewrite drop_app_length.
Qed.

Lemma run_goroutine_tears_down_witness :
  reachable os_idle st_expired
  ∧ spawned st_expired !! 0 = Some 0
  ∧ killed (new_events (run_goroutine os_idle 0) st_expired) = [13; 14]
  ∧ closed (new_events (run_goroutine os_idle 0) st_expired) = [12; 13]
  ∧ (∃ st' s f1 f2 c1 c2 q1 q2,
       run_goroutine os_idle 0 st_expired = (Val tt, st')
       ∧ heap st_expired !! 0 = Some s
       ∧ (∀ id, sessions st_expired !! id ≠ Some 0)
       ∧ spawned st' = delete 0 (spawned st_expired) ∧ (0 ∉ spawned st')
       ∧ sessions st' = sessions st_expired ∧ heap st' = heap st_expired
       ∧ ptyFiles s !! "1" = Some (Some f1) ∧ ptyFiles s !! "2" = Some (Some f2)
       ∧ cmds s !! "1" = Some (Some c1) ∧ Process c1 = Some q1
       ∧ cmds s !! "2" = Some (Some c2) ∧ Process c2 = Some q2
       ∧ killed (new_events (run_goroutine os_idle 0) st_expired) ≡ₚ [q1; q2]
       ∧ closed (new_events (run_goroutine os_idle 0) st_expired) ≡ₚ [f1; f2])
  ∧ ∀ j, spawned st_expired !! j = None →
         run_goroutine os_idle j st_expired = (Val tt, st_expired).
Proof.
  assert (H1 : reachable os_idle st_expired) by (do 2 apply reachable_run; constructor).
  assert (H2 : spawned st_expired !! 0 = Some 0) by (vm_compute; reflexivity).
  split; [exact H1|]. split; [exact H2|].
  split; [vm_compute; reflexivity|]. split; [vm_compute; reflexivity|].
  exact (run_goroutine_tears_down os_idle st_expired 0 0 H1 H2).
Defined.

(** X8: the first part of [wsHandler] in a reachable state.  A request
    without session identifier or with a machine other than 1 and 2 is
    answered 400 and an unregistered identifier 404, with the state
    unchanged.  Otherwise the session's [lastActive] is set to the clock
    reading taken by the handler, whether or not the upgrade succeeds;
    after a successful upgrade the handler always finds a pty for the
    machine, and it is not nil: the "Invalid machine ID" log line of the
    handler is never written.  The handler never panics. *)
Theorem wsHandler_outcomes (os : OS) (st : State)
    (sessionID machineID : string) (upgrade : option string) :
  reachable os st →
  match wsHandler os sessionID machineID upgrade st with
  | (Val (Rejected (Resp code body)), st') =>
      st' = st
      ∧ ((code = StatusBadRequest
          ∧ (sessionID = "" ∨ (machineID ≠ "1" ∧ machineID ≠ "2")))
         ∨ (code = StatusNotFound ∧ sessionID ≠ ""
            ∧ (machineID = "1" ∨ machineID = "2")
            ∧ sessions st !! sessionID = None))
  | (Val UpgradeFailed, st') =>
      upgrade ≠ None
      ∧ ∃ l s, sessions st !! sessionID = Some l ∧ heap st !! l = Some s
               ∧ heap st' = <[l := set_lastActive (os_now os (trace st)) s]> (heap st)
               ∧ sessions st' = sessions st
  | (Val NoSuchMachine, _) => False
  | (Val (Bridging l ptmx), st') =>
      upgrade = None
      ∧ ∃ s f, sessions st !! sessionID = Some l ∧ heap st !! l = Some s
               ∧ ptyFiles s !! machineID = Some (Some f) ∧ ptmx = Some f
               ∧ heap st' = <[l := set_lastActive (os_now os (trace st)) s]> (heap st)
               ∧ sessions st' = sessions st
               ∧ new_logs (wsHandler os sessionID machineID upgrade) st = []
  | (Panic _, _) => False
  end.
Proof.
  intros Hreach. destruct (reachable_inv os st Hreach) as [Hreg _].
  destruct (wsHandler os sessionID machineID upgrade st) as [r st'] eqn:E.
  pose proof E as E'. unfold wsHandler in E'. revert E'.
  case_decide as Hid.
  { intros [= <- <-]. split; [done|]. left. split; [done|]. by left. }
  case_decide as Hm.
  { intros [= <- <-]. split; [done|]. left. split; [done|]. by right. }
  assert (Hmach : machineID = "1" ∨ machineID = "2").
  { destruct (decide (machineID = "1")); [by left|].
    destruct (decide (machineID = "2")); [by right|]. by destruct Hm. }
  clear Hm.
  unfold bind at 1, sessions_lookup.
  destruct (sessions st !! sessionID) as [l|] eqn:El.
  2:{ intros [= <- <-]. split; [done|]. right. done. }
  destruct (Hreg sessionID l El) as (s & Hs & _ & Hp).
  unfold bind at 1. rewrite time_Now_eq. unfold bind at 1.
  rewrite store_lastActive_eq. cbn [heap extend]. rewrite Hs.
  destruct upgrade as [e|].
  { rewrite log_then. intros [= <- <-]. split; [done|]. by exists l, s. }
  unfold bind at 1, deref. cbn [heap set_heap extend].
  rewrite list_lookup_insert_eq by (by eapply lookup_lt_Some).
  destruct s as [h b t pf cm la]. cbn [ptyFiles set_lastActive].
  destruct (provisioned_handles _ Hp)
    as (f1 & f2 & _ & _ & _ & _ & Hf1 & Hf2 & _).
  cbn [ptyFiles] in Hf1, Hf2.
  assert (Hpty : ∃ f, pf !! machineID = Some (Some f)).
  { destruct Hmach as [-> | ->]; eauto. }
  destruct Hpty as [f Hf]. rewrite Hf. intros [= <- <-].
  split; [done|]. exists (mkSession h b t pf cm la), f.
  do 6 (split; [done|]).
  unfold new_logs. rewrite E. cbn [snd logs set_heap extend].
  by rewrite app_nil_r, drop_all.
Qed.

Lemma wsHandler_outcomes_witness :
  reachable os_ok st_one
  ∧ match wsHandler os_ok "3a3a3a" "2" None st_one with
    | (Val (Rejected (Resp code body)), st') =>
        st' = st_one
        ∧ ((code = StatusBadRequest
            ∧ ("3a3a3a" = "" ∨ ("2" ≠ "1" ∧ "2" ≠ "2")))
           ∨ (code = StatusNotFound ∧ "3a3a3a" ≠ ""
              ∧ ("2" = "1" ∨ "2" = "2")
              ∧ sessions st_one !! "3a3a3a" = None))
    | (Val UpgradeFailed, st') =>
        @None string ≠ None
        ∧ ∃ l s, sessions st_one !! "3a3a3a" = Some l ∧ heap st_one !! l = Some s
                 ∧ heap st'
                   = <[l := set_lastActive (os_now os_ok (trace st_one)) s]> (heap st_one)
                 ∧ sessions st' = sessions st_one
    | (Val NoSuchMachine, _) => False
    | (Val (Bridging l ptmx), st') =>
        @None string = None
        ∧ ∃ s f, sessions st_one !! "3a3a3a" = Some l ∧ heap st_one !! l = Some s
                 ∧ ptyFiles s !! "2" = Some (Some f) ∧ ptmx = Some f
                 ∧ heap st'
                   = <[l := set_lastActive (os_now os_ok (trace st_one)) s]> (heap st_one)
                 ∧ sessions st' = sessions st_one
                 ∧ new_logs (wsHandler os_ok "3a3a3a" "2" None) st_one = []
    | (Panic _, _) => False
    end.
Proof.
  assert (H1 : reachable os_ok st_one) by apply reachable_run, reachable_init.
  split; [exact H1|].
  exact (wsHandler_outcomes os_ok st_one "3a3a3a" "2" None H1).
Defined.

(** X9: the answer of [createSessionHandler], from any state.  Either
    [createSession] failed: the answer is 500 with the line "Error
    creating session" as body, the cause goes to the log only, and
    neither the registry nor the session objects change.  Or it is 200
    and the body is the line with the JSON object whose [sessionID] is
    the identifier of a fully provisioned session, registered under this
    identifier at return.  Both bodies end in a newline.  The handler
    never panics. *)
Theorem createSessionHandler_response (os : OS) (st : State) :
  match createSessionHandler os st with
  | (Val (Resp code body), st') =>
      (code = StatusInternalServerError
       ∧ body = "Error creating session" +:+ newline
       ∧ sessions st' = sessions st ∧ heap st' = heap st
       ∧ ∃ e, last (logs st') = Some ("Error creating session: " +:+ e))
      ∨ (code = StatusOK
         ∧ ∃ l s, body = sessionJSON (hash s) +:+ newline
                  ∧ sessions st' !! hash s = Some l ∧ heap st' !! l = Some s
                  ∧ heap st !! l = None ∧ provisioned s)
  | (Panic _, _) => False
  end.
Proof.
  unfold createSessionHandler. unfold bind at 1.
  destruct (createSession os st) as [r st1] eqn:E.
  apply createSession_inv in E as [(e & evs & lg & -> & -> & _ & _)|(s & -> & Hc)].
  - rewrite log_then. unfold ret, http_Error. left.
    do 4 (split; [done|]). exists e. cbn. apply last_snoc.
  - pose proof (created_provisioned _ _ _ _ Hc) as Hp.
    destruct (created_state _ _ _ _ Hc) as (Hh & Hs & _).
    unfold bind at 1, deref. rewrite Hh.
    rewrite lookup_app_r, Nat.sub_diag by lia. cbn [lookup list_lookup].
    unfold ret. right. split; [done|].
    exists (length (heap st)), s. split.
    { unfold sessionJSON. by rewrite <- !string_app_assoc. }
    rewrite Hs, lookup_insert_eq, Hh.
    rewrite lookup_app_r, Nat.sub_diag by lia.
    do 2 (split; [done|]). split; [by apply lookup_ge_None_2|done].
Qed.

(** X10: the loop of [wsHandler] that reads from the WebSocket and writes
    to the pty, run over any sequence of results of [ReadMessage] for a
    live session.  It ends without a panic, leaves the registry
    as it is, and writes to no file other than the pty.  The data written
    to the pty are, in order and without change, payloads of the text and
    binary messages that precede the first read error, beginning with the
    first: a prefix of them in general, and all of them when no write
    fails. *)
Theorem wsReadLoop_forwards_in_order (os : OS) (st : State) (l : loc) (f : handle)
    (inbound : list ReadResult) :
  is_Some (heap st !! l) →
  ∃ st',
    wsReadLoop os l (Some f) inbound st = (Val tt, st')
    ∧ sessions st' = sessions st
    ∧ written f (new_events (wsReadLoop os l (Some f) inbound) st)
        `prefix_of` payloads inbound
    ∧ (∀ f', f' ≠ f →
         written f' (new_events (wsReadLoop os l (Some f) inbound) st) = [])
    ∧ ((∀ tr data, os_write os tr f data = None) →
         written f (new_events (wsReadLoop os l (Some f) inbound) st)
         = payloads inbound).
Proof.
  intros Hlive.
  destruct (wsReadLoop_written os l f inbound st Hlive)
    as (evs & st' & E & Ht & Hreg & Hpre & Hoth & Hall).
  exists st'. split; [done|]. split; [done|].
  assert (Hev : new_events (wsReadLoop os l (Some f) inbound) st = evs).
  { unfold new_events. rewrite E. cbn [snd]. by rewrite Ht, drop_app_length. }
  by rewrite Hev.
Qed.

Lemma wsReadLoop_forwards_in_order_witness :
  is_Some (heap st_one !! 0)
  ∧ ∃ st',
      wsReadLoop os_ok 0 (Some 12)
        [ReadMsg TextMessage [x61]; ReadMsg 9 []; ReadErr "EOF"] st_one
      = (Val tt, st')
      ∧ sessions st' = sessions st_one
      ∧ written 12 (new_events (wsReadLoop os_ok 0 (Some 12)
                     [ReadMsg TextMessage [x61]; ReadMsg 9 []; ReadErr "EOF"])
                     st_one)
          `prefix_of` payloads [ReadMsg TextMessage [x61]; ReadMsg 9 [];
                                ReadErr "EOF"]
      ∧ (∀ f', f' ≠ 12 →
           written f' (new_events (wsReadLoop os_ok 0 (Some 12)
                         [ReadMsg TextMessage [x61]; ReadMsg 9 []; ReadErr "EOF"])
                         st_one) = [])
      ∧ ((∀ tr data, os_write os_ok tr 12 data = None) →
           written 12 (new_events (wsReadLoop os_ok 0 (Some 12)
                        [ReadMsg TextMessage [x61]; ReadMsg 9 []; ReadErr "EOF"])
                        st_one)
           = payloads [ReadMsg TextMessage [x61]; ReadMsg 9 []; ReadErr "EOF"]).
Proof.
  assert (H1 : is_Some (heap st_one !! 0)) by (vm_compute; eauto).
  split; [exact H1|].
  exact (wsReadLoop_forwards_in_order os_ok st_one 0 12 _ H1).
Defined.

(** X11: [cleanupNetwork] on interfaces that are all gone already.  When
    every command fails and its output says "Cannot find device" or "No
    such device", the error that [runCommand] builds from the output is
    recognised by the test of [cleanupNetwork]: the call still runs the
    two commands for the bridge and for each tap, writes no line to the
    log, and returns [nil].  So cleaning up a network a second time is
    silent. *)
Theorem cleanupNetwork_silent_when_gone (os : OS) (session : Session) (st : State) :
  (∀ tr args,
     err (os_exec os tr args) ≠ None ∧ output_gone (os_exec os tr args) = true) →
  (cleanupNetwork os session st).1 = Val None
  ∧ new_logs (cleanupNetwork os session) st = []
  ∧ length (commands (new_events (cleanupNetwork os session) st))
    = 2 + 2 * size (tapNames session).
Proof.
  intros Hgone.
  pose proof (cleanupNetwork_eq os session st) as Heq. cbv zeta in Heq.
  rewrite (new_events_extend _ _ _ _ _ Heq), (new_logs_extend _ _ _ _ _ Heq), Heq.
  split; [done|]. split; [by apply cleanupLog_exec_all|].
  change (commands (ERange ?s :: ?l)) with (commands l).
  rewrite commands_exec_all, cleanupCommands_length, length_fmap.
  by rewrite shuffle_Permutation, length_map_to_list.
Qed.

Lemma cleanupNetwork_silent_when_gone_witness :
  (∀ tr args,
     err (os_exec os_gone tr args) ≠ None
     ∧ output_gone (os_exec os_gone tr args) = true)
  ∧ (cleanupNetwork os_gone session_one st_one).1 = Val None
  ∧ new_logs (cleanupNetwork os_gone session_one) st_one = []
  ∧ length (commands (new_events (cleanupNetwork os_gone session_one) st_one))
    = 2 + 2 * size (tapNames session_one).
Proof.
  assert (H1 : ∀ tr args,
            err (os_exec os_gone tr args) ≠ None
            ∧ output_gone (os_exec os_gone tr args) = true).
  { intros tr args. split; [discriminate|reflexivity]. }
  split; [exact H1|].
  exact (cleanupNetwork_silent_when_gone os_gone session_one st_one H1).
Defined.

Section FinalLog.
Variable os : OS.

Lemma cleanupSession_logs session st :
  ∃ evs lg,
    cleanupSession os session st
    = (Val tt,
       extend st evs
         (lg ++ ["Network for session " +:+ hash session +:+ " cleaned up";
                 "Session " +:+ hash session +:+ " removed"])).
Proof.
  unfold cleanupSession. unfold bind at 1. rewrite range_map_eq.
  unfold bind at 1.
  destruct (killMachines_eq os (hash session)
              (shuffle (os_order os (trace st)) (map_to_list (cmds session)))
              (extend st [ERange (os_order os (trace st))] [])) as [lg1 ->].
  rewrite extend_extend.
  unfold bind at 1. rewrite range_map_eq. rewrite extend_extend.
  unfold bind at 1. rewrite closePtys_eq, extend_extend.
  unfold bind at 1. rewrite cleanupNetwork_eq. rewrite extend_extend.
  unfold bind at 1. rewrite log_Print_eq, extend_extend.
  rewrite log_Print_eq, extend_extend.
  eexists _, _. f_equal. f_equal. rewrite <- (app_assoc _ [_] [_]). reflexivity.
Qed.
End FinalLog.

(** X12: the last lines that [cleanupSession] logs.  Since
    [cleanupNetwork] never returns an error, the branch that logs "Error
    cleaning up network" is never taken: whatever the environment does,
    [cleanupSession] ends without a panic and its log ends with "Network
    for session <id> cleaned up" followed by "Session <id> removed". *)
Theorem cleanupSession_final_log_lines (os : OS) (session : Session) (st : State) :
  (cleanupSession os session st).1 = Val tt
  ∧ ∃ lg,
      new_logs (cleanupSession os session) st
      = lg ++ ["Network for session " +:+ hash session +:+ " cleaned up";
               "Session " +:+ hash session +:+ " removed"].
Proof.
  destruct (cleanupSession_logs os session st) as (evs & lg & Heq).
  rewrite (new_logs_extend _ _ _ _ _ Heq), Heq. split; [done|]. by exists lg.
Qed.

(** X13: what a failing [createSession] has done, by the text of its
    error, in every environment.  "failed to generate hash": nothing but
    the call of [rand.Read].  "failed to set up network": the steps of
    [setupNetwork] up to the failing one, no launch and no cleanup
    command.  "failed to start machine 1": the whole network setup, one
    failed launch, then the cleanup commands of the session's bridge and
    of its two taps.  "failed to start machine 2": the same with the
    successful launch of machine 1 before the failed one.  The error
    "interface name too long" is never returned. *)
Theorem createSession_error_stage (os : OS) (st : State) :
  match createSession os st with
  | (Val (Err e), st') =>
      let evs := new_events (createSession os) st in
      (∃ e0, e = "failed to generate hash: " +:+ e0 ∧ evs = [ERand 3 (Err e0)])
      ∨ ∃ bytes now evn,
          let h := hex_EncodeToString bytes in
          let pre := [ERand 3 (Ok bytes); ENow now] in
          let a1 := qemuArgs "1" ("tap1-" +:+ h) 149 in
          let a2 := qemuArgs "2" ("tap2-" +:+ h) 150 in
          length bytes = 3
          ∧ evn = (setupNetwork_spec os (newSession h now) (trace st ++ pre)).1
          ∧ ((∃ msg,
                (setupNetwork_spec os (newSession h now) (trace st ++ pre)).2 = Some msg
                ∧ e = "failed to set up network: " +:+ msg
                ∧ evs = pre ++ evn)
             ∨ (∃ msg taps cl,
                  e = "failed to start machine 1: error starting QEMU machine 1: " +:+ msg
                  ∧ evs = pre ++ evn ++ [EStart a1 (StartErr msg)] ++ cl
                  ∧ taps ≡ₚ ["tap1-" +:+ h; "tap2-" +:+ h]
                  ∧ commands cl = cleanupCommands ("br-" +:+ h) taps)
             ∨ (∃ msg p1 q1 taps cl,
                  e = "failed to start machine 2: error starting QEMU machine 2: " +:+ msg
                  ∧ evs = pre ++ evn ++ [EStart a1 (Started p1 q1);
                                         EStart a2 (StartErr msg)] ++ cl
                  ∧ taps ≡ₚ ["tap1-" +:+ h; "tap2-" +:+ h]
                  ∧ commands cl = cleanupCommands ("br-" +:+ h) taps))
  | _ => True
  end.
Proof.
  destruct (createSession os st) as [[[l|e]|p] st'] eqn:E; try done.
  destruct (createSession_stages os st e st' E) as (evs & lg & -> & H).
  cbv zeta. rewrite (new_events_extend _ _ _ _ _ E). exact H.
Qed.

(** X14: one tick of [sessionCleaner] in a reachable state.  The tick
    ends without a panic and changes no session object.  The entries it
    removes from the registry and the teardown goroutines it starts
    correspond one to one: every removed session is handed to one new
    goroutine, every new goroutine holds a removed session, and all other
    entries of the registry stay.  The tick itself kills no process,
    closes no file and runs no command: the teardown is left to the
    goroutines. *)
Theorem sessionCleaner_schedules_what_it_removes (os : OS) (st : State) :
  reachable os st →
  ∃ st' gone,
    sessionCleaner os st = (Val tt, st')
    ∧ heap st' = heap st
    ∧ NoDup gone.*1
    ∧ (∀ id l, (id, l) ∈ gone → sessions st !! id = Some l)
    ∧ spawned st' = spawned st ++ gone.*2
    ∧ (∀ id, sessions st' !! id
             = if decide (id ∈ gone.*1) then None else sessions st !! id)
    ∧ killed (new_events (sessionCleaner os) st) = []
    ∧ closed (new_events (sessionCleaner os) st) = []
    ∧ commands (new_events (sessionCleaner os) st) = [].
Proof.
  intros Hreach. destruct (reachable_inv os st Hreach) as [Hreg _].
  assert (E0 : sessionCleaner os st
                 = reap os (shuffle (os_order os (trace st)) (map_to_list (sessions st)))
                     (extend st [ERange (os_order os (trace st))] [])).
  { unfold sessionCleaner, bind at 1. by rewrite range_map_eq. }
  set (entries := shuffle (os_order os (trace st)) (map_to_list (sessions st))) in *.
  assert (Hperm : entries ≡ₚ map_to_list (sessions st)) by apply shuffle_Permutation.
  destruct (reap_gone os entries (extend st [ERange (os_order os (trace st))] []))
    as (st' & gone & E & Hh & Hsub & Hsp & Hlook).
  { rewrite Hperm. apply NoDup_fst_map_to_list. }
  { intros id' l' Hel. rewrite Hperm in Hel. apply elem_of_map_to_list in Hel.
    destruct (Hreg id' l' Hel) as (s' & Hs' & _). by exists s'. }
  destruct (reap_quiet os _ _ _ _ E) as (evs & Ht & Hk & Hc & Hr).
  cbn [trace heap spawned sessions extend] in Hh, Hsp, Hlook, Ht.
  exists st', gone. rewrite E0, E.
  split; [done|]. split; [done|].
  split.
  { eapply sublist_NoDup; [|by apply fmap_sublist].
    rewrite Hperm. apply NoDup_fst_map_to_list. }
  split.
  { intros id l Hel. apply elem_of_map_to_list. rewrite <- Hperm.
    by eapply elem_of_sublist. }
  split; [done|]. split; [done|].
  unfold new_events. rewrite E0, E. cbn [snd].
  rewrite Ht, <- app_assoc, drop_app_length.
  rewrite killed_app, closed_app, commands_app, Hk, Hc, Hr. done.
Qed.

Lemma sessionCleaner_schedules_what_it_removes_witness :
  reachable os_ok st_one
  ∧ ∃ st' gone,
      sessionCleaner os_ok st_one = (Val tt, st')
      ∧ heap st' = heap st_one
      ∧ NoDup gone.*1
      ∧ (∀ id l, (id, l) ∈ gone → sessions st_one !! id = Some l)
      ∧ spawned st' = spawned st_one ++ gone.*2
      ∧ (∀ id, sessions st' !! id
               = if decide (id ∈ gone.*1) then None else sessions st_one !! id)
      ∧ killed (new_events (sessionCleaner os_ok) st_one) = []
      ∧ closed (new_events (sessionCleaner os_ok) st_one) = []
      ∧ commands (new_events (sessionCleaner os_ok) st_one) = [].
Proof.
  assert (H1 : reachable os_ok st_one) by apply reachable_run, reachable_init.
  split; [exact H1|].
  exact (sessionCleaner_schedules_what_it_removes os_ok st_one H1).
Defined.

(** X15: no session is torn down twice.  Along every run of the server,
    the sessions on which [cleanupSession] has been called, by close
    requests and by goroutines of the reaper, are pairwise distinct
    objects; and a session that has been torn down is registered under
    no identifier and held by no pending goroutine, so that no later
    request can reach it. *)
Theorem session_torn_down_at_most_once (os : OS) (torn : list loc) (st : State) :
  history os torn st →
  NoDup torn
  ∧ ∀ l, l ∈ torn →
      is_Some (heap st !! l) ∧ (l ∉ spawned st) ∧ ∀ id, sessions st !! id ≠ Some l.
Proof.
  intros Hhist. destruct (history_inv os torn st Hhist) as [Hnd Hinv].
  split; [done|]. intros l Hl. destruct (Hinv l Hl) as (Hlt & Hsp & Hreg).
  split; [by apply lookup_lt_is_Some|done].
Qed.

Lemma session_torn_down_at_most_once_witness :
  history os_ok [0] (run os_ok (AClose "3a3a3a") st_one)
  ∧ NoDup [0]
  ∧ ∀ l, l ∈ [0] →
      is_Some (heap (run os_ok (AClose "3a3a3a") st_one) !! l)
      ∧ (l ∉ spawned (run os_ok (AClose "3a3a3a") st_one))
      ∧ ∀ id, sessions (run os_ok (AClose "3a3a3a") st_one) !! id ≠ Some l.
Proof.
  assert (H1 : history os_ok [0] (run os_ok (AClose "3a3a3a") st_one)).
  { assert (H0 : history os_ok [] st_one)
      by exact (history_run os_ok ACreate init [] (history_init os_ok)).
    exact (history_run os_ok (AClose "3a3a3a") st_one [] H0). }
  split; [exact H1|].
  exact (session_torn_down_at_most_once os_ok [0] _ H1).
Defined.

(** X16: only a teardown kills.  An entry point that does not call
    [cleanupSession] (session creation, its failures included; a
    WebSocket attach; an iteration of the read loop; a tick of the
    reaper; a close request without identifier or for an unregistered
    one; a goroutine slot that holds nothing) kills no process and
    closes no pty, and apart from session creation runs no command. *)
Theorem only_teardown_kills (os : OS) (a : Action) (st : State) :
  torn_down a st = None →
  ∃ evs,
    trace (run os a st) = trace st ++ evs
    ∧ killed evs = [] ∧ closed evs = []
    ∧ (a ≠ ACreate → commands evs = []).
Proof.
  intros Hnone. destruct a as [|id|id m up|l ptmx rd| |i]; cbn [run torn_down] in *.
  - destruct (createSessionHandler_quiet os st) as (evs & Ht & Hk & Hc).
    exists evs. by repeat split.
  - exists []. rewrite app_nil_r. split; [|done].
    unfold closeSessionHandler. case_decide; [done|].
    unfold bind at 1, sessions_lookup. by rewrite Hnone.
  - destruct (wsHandler_quiet os id m up st) as (evs & Ht & Hk & Hc & Hr).
    exists evs. by repeat split.
  - destruct (wsReadStep_quiet os l ptmx rd st) as (evs & Ht & Hk & Hc & Hr).
    exists evs. by repeat split.
  - destruct (sessionCleaner_quiet os st) as (evs & Ht & Hk & Hc & Hr).
    exists evs. by repeat split.
  - exists []. rewrite app_nil_r. split; [|done].
    unfold run_goroutine. by rewrite Hnone.
Qed.

Lemma only_teardown_kills_witness :
  torn_down (AClose "3b3b3b") st_one = None
  ∧ ∃ evs,
      trace (run os_ok (AClose "3b3b3b") st_one) = trace st_one ++ evs
      ∧ killed evs = [] ∧ closed evs = []
      ∧ (AClose "3b3b3b" ≠ ACreate → commands evs = []).
Proof.
  assert (H1 : torn_down (AClose "3b3b3b") st_one = None) by (vm_compute; reflexivity).
  split; [exact H1|].
  exact (only_teardown_kills os_ok (AClose "3b3b3b") st_one H1).
Defined.

(** X17: [nil] from [setupNetwork] means that every command that creates
    or configures an interface has succeeded.  When [setupNetwork] returns
    [nil], each command it has run, apart from the initial [ip link show]
    on the bridge name (whose failure only means that the name is free),
    ended without error. *)
Theorem setupNetwork_nil_means_all_succeeded (os : OS) (session : Session)
    (st : State) (args : list string) (r : CmdResult) :
  (setupNetwork os session st).1 = Val None →
  ERun args r ∈ new_events (setupNetwork os session) st →
  args ≠ ["ip"; "link"; "show"; bridgeName session] →
  err r = None.
Proof.
  destruct (setupNetwork_eq os session st) as [lg Heq].
  rewrite (new_events_extend _ _ _ _ _ Heq), Heq. cbn [fst].
  unfold setupNetwork_spec.
  set (br := bridgeName session).
  set (plan := [CheckBridge br] ++ _ ++ [CreateBridge br; UpBridge br]).
  assert (Hplan : ∀ s, s ∈ plan →
            s = CheckBridge br ∨ ∀ b, s ≠ CheckBridge b).
  { intros s. unfold plan. destruct (bool_decide _); cbn [app];
      rewrite ?elem_of_cons, elem_of_nil; intros H;
      repeat destruct H as [->|H]; try done; eauto. }
  destruct (run_steps os (trace st) plan) as [evs [e|]] eqn:E1; cbn [fst snd]; [done|].
  match goal with |- context [run_steps os ?t ?p] =>
    set (tr2 := t); set (tsteps := p) end.
  destruct (run_steps os tr2 tsteps) as [evs' e'] eqn:E2. cbn [fst snd].
  intros [= ->] Hin Hargs.
  assert (Hs : ∃ s, (s = CheckBridge br ∨ ∀ b, s ≠ CheckBridge b)
                    ∧ args = step_command s ∧ step_error s r = None).
  { apply elem_of_app in Hin as [Hin|Hin].
    - destruct (run_steps_success os (trace st) plan args r) as (s & Hs & Ha & He);
        [by rewrite E1..|].
      exists s. split; [by apply Hplan|done].
    - apply elem_of_cons in Hin as [?|Hin]; [done|].
      destruct (run_steps_success os tr2 tsteps args r) as (s & Hs & Ha & He);
        [by rewrite E2..|].
      exists s. split; [|done]. right.
      unfold tsteps in Hs. apply list_elem_of_In, in_flat_map in Hs as (tap & _ & Hs).
      cbn in Hs. intros b. destruct Hs as [<-|[<-|[<-|[]]]]; done. }
  destruct Hs as (s & Hshape & -> & Herr).
  destruct Hshape as [->|Hne]; [done|].
  destruct (step_error_None s r Herr) as [[b ->]|?]; [|done]. by destruct (Hne b).
Qed.

Lemma setupNetwork_nil_means_all_succeeded_witness :
  (setupNetwork os_ok (newSession "3a3a3a" 0) init).1 = Val None
  ∧ ERun ["ip"; "link"; "add"; "br-3a3a3a"; "type"; "bridge"] succeeded
      ∈ new_events (setupNetwork os_ok (newSession "3a3a3a" 0)) init
  ∧ ["ip"; "link"; "add"; "br-3a3a3a"; "type"; "bridge"]
      ≠ ["ip"; "link"; "show"; bridgeName (newSession "3a3a3a" 0)]
  ∧ err succeeded = None.
Proof.
  assert (H1 : (setupNetwork os_ok (newSession "3a3a3a" 0) init).1 = Val None)
    by (vm_compute; reflexivity).
  assert (H2 : ERun ["ip"; "link"; "add"; "br-3a3a3a"; "type"; "bridge"] succeeded
                 ∈ new_events (setupNetwork os_ok (newSession "3a3a3a" 0)) init).
  { vm_compute. apply list_elem_of_lookup. exists 1. reflexivity. }
  assert (H3 : ["ip"; "link"; "add"; "br-3a3a3a"; "type"; "bridge"]
                 ≠ ["ip"; "link"; "show"; bridgeName (newSession "3a3a3a" 0)])
    by discriminate.
  split; [exact H1|]. split; [exact H2|]. split; [exact H3|].
  exact (setupNetwork_nil_means_all_succeeded os_ok (newSession "3a3a3a" 0) init
           _ _ H1 H2 H3).
Defined.

(** X18: a session created by [createSessionHandler] and then closed
    under the identifier of the answer.  The body of the answer 200 of
    the creation is the line with the JSON object that carries the
    identifier of the new session, which is not empty; the
    close request for it is answered 200 and removes the entry again, so
    that the registry is the one before the creation when the identifier
    was free then.  When the identifier was in use, the entry of the
    older session is gone as well: the creation had replaced it. *)
Theorem create_then_close_restores_registry (os : OS) (st st1 : State)
    (body : string) :
  createSessionHandler os st = (Val (Resp StatusOK body), st1) →
  ∃ h st2,
    body = sessionJSON h +:+ newline ∧ h ≠ ""
    ∧ closeSessionHandler os h st1 = (Val (Resp StatusOK ""), st2)
    ∧ sessions st2 = delete h (sessions st)
    ∧ (sessions st !! h = None → sessions st2 = sessions st)
    ∧ spawned st2 = spawned st.
Proof.
  unfold createSessionHandler. unfold bind at 1.
  destruct (createSession os st) as [r st0] eqn:E.
  apply createSession_inv in E as [(e & evs & lg & -> & -> & _ & _)|(s & -> & Hc)].
  { rewrite log_then. unfold ret, http_Error. intros [=]. }
  pose proof (created_provisioned _ _ _ _ Hc) as Hp.
  destruct (created_state _ _ _ _ Hc) as (Hh & Hs & Hsp & _).
  assert (Hlook : heap st0 !! length (heap st) = Some s).
  { rewrite Hh, lookup_app_r, Nat.sub_diag by lia. done. }
  unfold bind at 1, deref. rewrite Hlook. unfold ret. intros [= <- <-].
  assert (Hne : hash s ≠ "").
  { intros Heq. pose proof (provisioned_hash_length s Hp) as Hlen.
    by rewrite Heq in Hlen. }
  assert (Hclose : ∃ evs lg,
            closeSessionHandler os (hash s) st0
            = (Val (Resp StatusOK ""),
               extend (set_sessions (λ m, delete (hash s) m) st0) evs lg)).
  { unfold closeSessionHandler. rewrite decide_False by done.
    unfold bind at 1, sessions_lookup. rewrite Hs, lookup_insert_eq.
    unfold bind at 1, sessions_delete. unfold bind at 1, deref.
    cbn [heap set_sessions]. rewrite Hlook. unfold bind at 1.
    destruct (cleanupSession_io os s (set_sessions (λ m, delete (hash s) m) st0))
      as ([] & evs & lg & -> & _).
    rewrite log_then. unfold ret. rewrite extend_extend. eauto. }
  destruct Hclose as (evs & lg & Hclose).
  eexists (hash s), _.
  split; [unfold sessionJSON; by rewrite <- !string_app_assoc|].
  split; [done|]. split; [exact Hclose|].
  cbn [sessions spawned extend set_sessions]. rewrite Hs, delete_insert_eq.
  split; [done|]. split; [apply delete_id|done].
Qed.

Lemma create_then_close_restores_registry_witness :
  createSessionHandler os_ok init
    = (Val (Resp StatusOK (sessionJSON "3a3a3a" +:+ newline)), st_one)
  ∧ ∃ h st2,
      sessionJSON "3a3a3a" +:+ newline = sessionJSON h +:+ newline ∧ h ≠ ""
      ∧ closeSessionHandler os_ok h st_one = (Val (Resp StatusOK ""), st2)
      ∧ sessions st2 = delete h (sessions init)
      ∧ (sessions init !! h = None → sessions st2 = sessions init)
      ∧ spawned st2 = spawned init.
Proof.
  assert (H1 : createSessionHandler os_ok init
               = (Val (Resp StatusOK (sessionJSON "3a3a3a" +:+ newline)), st_one))
    by (vm_compute; reflexivity).
  split; [exact H1|].
  exact (create_then_close_restores_registry os_ok init st_one _ H1).
Defined.

(** X19: no session is lost.  Along every run of the server, each
    session that a successful [createSession] has registered is, at any
    later time, still registered, or held by a teardown goroutine that
    the reaper has started and that has not run yet, or torn down
    already, or it has been replaced in the registry by a session
    created later under the same identifier.  An entry leaves the
    registry in no other way. *)
Theorem every_session_accounted_for (os : OS) (torn : list loc) (st : State)
    (l : loc) (s : Session) :
  history os torn st →
  heap st !! l = Some s →
  (∃ id, sessions st !! id = Some l)
  ∨ l ∈ spawned st
  ∨ l ∈ torn
  ∨ ∃ l' s', l < l' ∧ heap st !! l' = Some s' ∧ hash s' = hash s.
Proof. apply history_accounted. Qed.

Lemma every_session_accounted_for_witness :
  history os_ok [0] (run os_ok (AClose "3a3a3a") st_one)
  ∧ heap (run os_ok (AClose "3a3a3a") st_one) !! 0 = Some session_one
  ∧ ((∃ id, sessions (run os_ok (AClose "3a3a3a") st_one) !! id = Some 0)
     ∨ 0 ∈ spawned (run os_ok (AClose "3a3a3a") st_one)
     ∨ 0 ∈ [0]
     ∨ ∃ l' s', 0 < l' ∧ heap (run os_ok (AClose "3a3a3a") st_one) !! l' = Some s'
                ∧ hash s' = hash session_one).
Proof.
  assert (H1 : history os_ok [0] (run os_ok (AClose "3a3a3a") st_one)).
  { assert (H0 : history os_ok [] st_one)
      by exact (history_run os_ok ACreate init [] (history_init os_ok)).
    exact (history_run os_ok (AClose "3a3a3a") st_one [] H0). }
  assert (H2 : heap (run os_ok (AClose "3a3a3a") st_one) !! 0 = Some session_one)
    by (vm_compute; reflexivity).
  split; [exact H1|]. split; [exact H2|].
  exact (every_session_accounted_for os_ok [0] _ 0 session_one H1 H2).
Defined.
